(** * QDM: segmented download engine, ingestion endpoint and queue scheduler

    A shallow embedding of
      - [electron/download-engine.ts]  (module [Engine]),
      - [electron/browser-monitor.ts]  (module [Monitor]),
      - [electron/queue-manager.ts]    (module [Queue]),
    together with the handful of JavaScript string primitives they call
    (module [JS]); then the rest of the life of a download (module
    [Lifecycle]: load, pause, resume, cancel, remove, and the end of
    [startDownload]) and of the queue manager (module [QueueManager]).

    Conventions.
      - A JavaScript [number] that the code only ever uses as a byte count,
        an index or a clock reading is a [Z]; where the code can produce
        [NaN] (from [parseInt] or [Number]) the value is an [option Z] and
        [None] is [NaN].
      - A [Record<string, string>] is a [gmap string string]; a [Map] whose
        iteration order the code observes is an association list.
      - Mutable objects live in an explicit state that every operation
        takes and returns; events handed to [emit] are appended to a log.
        An asynchronous operation is embedded up to its first [await];
        the callbacks of a request are separate transitions of the state.
      - Sizes that come from outside (a [Content-Length]) can exceed 2^53,
        beyond which a JavaScript number no longer holds every integer:
        where such a size enters arithmetic ([parseInt], the bounds of the
        segments, the [Range] header) the operations round as those of
        doubles do.  Byte counters, which grow with the bytes received,
        are added exactly.
      - Strings are byte strings, in UTF-8; [toLowerCase] folds the ASCII
        letters.
      - What the platform provides (the [URL] class, [decodeURIComponent],
        floating-point formatting, the clock, fresh identifiers) is an
        argument.  Files, timers and [console] output are left out. *)

From Stdlib Require Import ZArith Ascii String List Bool Lia Sorted.
From stdpp Require Import gmap strings pretty list.

Local Open Scope Z_scope.

(* ===================================================================== *)
(** ** JavaScript string primitives *)
(* ===================================================================== *)

Module JS.

Definition isUpper (c : ascii) : bool :=
  let n := nat_of_ascii c in (65 <=? n)%nat && (n <=? 90)%nat.

Definition lowerChar (c : ascii) : ascii :=
  if isUpper c then ascii_of_nat (nat_of_ascii c + 32) else c.

(** [s.toLowerCase()] *)
Fixpoint toLowerCase (s : string) : string :=
  match s with
  | EmptyString => EmptyString
  | String c s' => String (lowerChar c) (toLowerCase s')
  end.

(** [s.startsWith(p)] *)
Definition startsWith (s p : string) : bool := String.prefix p s.

(** [s.includes(sub)] *)
Fixpoint includes (s sub : string) : bool :=
  String.prefix sub s ||
  match s with
  | EmptyString => false
  | String _ s' => includes s' sub
  end.

(** [s.endsWith(p)], used for the [$]-anchored regular expression. *)
Fixpoint endsWith (s p : string) : bool :=
  String.eqb s p ||
  match s with
  | EmptyString => false
  | String _ s' => endsWith s' p
  end.

(** The white space [parseInt], [Number] and [trim] skip.  Strings are
    held in UTF-8: TAB, LF, VT, FF, CR and SP are one byte; NBSP (U+00A0)
    is two; the other spaces (U+1680, U+2000 to U+200A, U+202F, U+205F,
    U+3000), the line and paragraph separators (U+2028, U+2029) and the
    byte order mark (U+FEFF) are three. *)
Definition isWhiteSpace (c : ascii) : bool :=
  let n := nat_of_ascii c in
  ((9 <=? n)%nat && (n <=? 13)%nat) || (n =? 32)%nat.

Definition isWhiteSpace2 (a b : ascii) : bool :=
  (nat_of_ascii a =? 194)%nat && (nat_of_ascii b =? 160)%nat.

Definition isWhiteSpace3 (a b c : ascii) : bool :=
  let x := nat_of_ascii a in
  let y := nat_of_ascii b in
  let z := nat_of_ascii c in
  ((x =? 225) && (y =? 154) && (z =? 128))%nat ||
  ((x =? 226) && (y =? 128) &&
   (((128 <=? z) && (z <=? 138)) || (z =? 168) || (z =? 169) || (z =? 175)))%nat ||
  ((x =? 226) && (y =? 129) && (z =? 159))%nat ||
  ((x =? 227) && (y =? 128) && (z =? 128))%nat ||
  ((x =? 239) && (y =? 187) && (z =? 191))%nat.

Fixpoint trimStart (s : string) : string :=
  match s with
  | EmptyString => EmptyString
  | String a s1 =>
      if isWhiteSpace a then trimStart s1
      else
        match s1 with
        | EmptyString => s
        | String b s2 =>
            if isWhiteSpace2 a b then trimStart s2
            else
              match s2 with
              | EmptyString => s
              | String c s3 => if isWhiteSpace3 a b c then trimStart s3 else s
              end
        end
  end.

Definition isDigit (c : ascii) : bool :=
  let n := nat_of_ascii c in (48 <=? n)%nat && (n <=? 57)%nat.

Definition digitValue (c : ascii) : Z := Z.of_nat (nat_of_ascii c) - 48.

(** The longest prefix of decimal digits of [s], read left to right with
    accumulator [acc]; [seen] records whether a digit was met. *)
Fixpoint readDigits (s : string) (seen : bool) (acc : Z) : bool * Z :=
  match s with
  | String c s' =>
      if isDigit c then readDigits s' true (10 * acc + digitValue c)
      else (seen, acc)
  | EmptyString => (seen, acc)
  end.

(** *** Numbers

    A JavaScript number is an IEEE 754 double.  The numbers of this program
    are sizes, offsets and counts: an integer-valued double is kept as the
    integer it is.  Below 2^53 every integer is a double and sums, products
    and differences of integers are exact; above, the result of an
    operation is rounded to the nearest double, ties to the even
    significand.  [Infinity] (magnitudes of 2^1024 and more) is not
    represented. *)

(** [n / d] rounded to the nearest double, for [0 < n] and [0 < d]: the
    significand [m] and the exponent [e] of the result [m * 2^e], where
    [2^k <= n / d < 2^(k+1)] and [e = k - 52]. *)
Definition nearest (n d : Z) : Z * Z :=
  let l := Z.log2 n - Z.log2 d in
  let k :=
    if (if 0 <=? l then d * 2 ^ l <=? n else d <=? n * 2 ^ (- l)) then l else l - 1 in
  let e := k - 52 in
  let num := if 0 <=? e then n else n * 2 ^ (- e) in
  let den := if 0 <=? e then d * 2 ^ e else d in
  let q := num / den in
  let r := num mod den in
  let m := if (den <? 2 * r) || ((den =? 2 * r) && Z.odd q) then q + 1 else q in
  (m, e).

(** The double nearest to the integer [z]. *)
Definition toDouble (z : Z) : Z :=
  if Z.abs z <=? 2 ^ 53 then z
  else let '(m, e) := nearest (Z.abs z) 1 in Z.sgn z * (m * 2 ^ e).

(** [a + b], [a - b] and [a * b] on integer-valued doubles. *)
Definition add (a b : Z) : Z := toDouble (a + b).
Definition sub (a b : Z) : Z := toDouble (a - b).
Definition mul (a b : Z) : Z := toDouble (a * b).

(** [Math.floor(a / b)] for [0 < a] and [0 < b]: the quotient is rounded
    to a double first.  Elsewhere 0 stands in for what the division gives
    ([Infinity] when [b] is 0). *)
Definition floorDiv (a b : Z) : Z :=
  if (a <=? 0) || (b <=? 0) then 0
  else
    let '(m, e) := nearest a b in
    if 0 <=? e then m * 2 ^ e else m / 2 ^ (- e).

(** The number of decimal digits of [v], for [0 < v]. *)
Definition digitCount (v : Z) : Z := Z.of_nat (String.length (pretty v)).

(** The digits [s] and the position [n] of the decimal point in the
    shortest decimal [s * 10^(n-k)], [s] of [k] digits, that reads back as
    the double [v]; of the two candidates of a length the closer one, the
    even one when they are as close.  [nd] is the number of digits of
    [v]. *)
Fixpoint shortest (fuel : nat) (k : Z) (v nd : Z) : Z * Z :=
  match fuel with
  | O => (v, nd)
  | S fuel' =>
      let unit := 10 ^ (nd - k) in
      let lo := v / unit in
      let hi := lo + 1 in
      let okLo := toDouble (lo * unit) =? v in
      let okHi := toDouble (hi * unit) =? v in
      let up := if hi =? 10 ^ k then (10 ^ (k - 1), nd + 1) else (hi, nd) in
      match okLo, okHi with
      | true, false => (lo, nd)
      | false, true => up
      | true, true =>
          let below := v - lo * unit in
          let above := hi * unit - v in
          if below <? above then (lo, nd)
          else if above <? below then up
          else if Z.even lo then (lo, nd) else up
      | false, false => shortest fuel' (k + 1) v nd
      end
  end.

(** [String(v)] for an integer-valued double [0 <= v]: the decimal
    numeral below 2^53; above, the shortest digits that read back as [v],
    followed by zeros up to 21 digits and by an exponent beyond. *)
Definition positiveToString (v : Z) : string :=
  if v <? 2 ^ 53 then pretty v
  else
    let nd := digitCount v in
    let '(s, n) := shortest (Z.to_nat nd) 1 v nd in
    let digits := pretty s in
    let k := Z.of_nat (String.length digits) in
    if n <=? 21 then digits +:+ String.concat "" (repeat "0"%string (Z.to_nat (n - k)))
    else
      match digits with
      | String d EmptyString => String d ("e+" +:+ pretty (n - 1))
      | String d rest => String d ("." +:+ rest +:+ "e+" +:+ pretty (n - 1))
      | EmptyString => EmptyString
      end.

(** A number in a template literal. *)
Definition numberToString (z : Z) : string :=
  if z <? 0 then "-" +:+ positiveToString (- z) else positiveToString z.

(** [parseInt(s, 10)]: skip leading white space, take an optional sign,
    read the decimal digits that follow; [NaN] when there is none.  The
    value of the digits is rounded to a double. *)
Definition parseInt (s : string) : option Z :=
  let s1 := trimStart s in
  let '(sign, s2) :=
    match s1 with
    | String "-"%char r => (-1, r)
    | String "+"%char r => (1, r)
    | _ => (1, s1)
    end in
  match readDigits s2 false 0 with
  | (true, n) => Some (sign * toDouble n)
  | (false, _) => None
  end.

(** [s.split(sep)] for a one-character separator. *)
Fixpoint split (sep : ascii) (s : string) : list string :=
  match s with
  | EmptyString => [EmptyString]
  | String c s' =>
      if Ascii.eqb c sep then EmptyString :: split sep s'
      else match split sep s' with
           | h :: t => String c h :: t
           | [] => [String c EmptyString]
           end
  end.

(** [s] is white space throughout. *)
Definition blank (s : string) : bool := String.eqb (trimStart s) EmptyString.

Fixpoint trimEnd (s : string) : string :=
  match s with
  | EmptyString => EmptyString
  | String c s' => if blank s then EmptyString else String c (trimEnd s')
  end.

Definition trim (s : string) : string := trimEnd (trimStart s).

Fixpoint allDigits (s : string) : bool :=
  match s with
  | EmptyString => true
  | String c s' => isDigit c && allDigits s'
  end.

(** [Number(s)] on the strings an HH:mm time splits into: white space is
    trimmed, the empty string is 0, an optionally signed run of decimal
    digits is its value.  The other numeric literals of JavaScript (a
    fraction, an exponent, a radix prefix, Infinity) are read as [NaN]
    here; a time written in the HH:mm format has none. *)
Definition Number (s : string) : option Z :=
  let t := trim s in
  match t with
  | EmptyString => Some 0
  | String "-"%char r =>
      if allDigits r && negb (String.eqb r EmptyString)
      then Some (- (readDigits r false 0).2) else None
  | String "+"%char r =>
      if allDigits r && negb (String.eqb r EmptyString)
      then Some (readDigits r false 0).2 else None
  | _ => if allDigits t then Some (readDigits t false 0).2 else None
  end.

(** [a || b] on strings that may be [undefined]: the empty string and
    [undefined] are falsy. *)
Definition truthy (o : option string) : option string :=
  match o with
  | Some EmptyString => None
  | _ => o
  end.

Definition orElse (o : option string) (d : string) : string :=
  match truthy o with
  | Some s => s
  | None => d
  end.

(** Comparisons of numbers that may be [NaN]: every comparison with [NaN]
    is false. *)
Definition gt (a : option Z) (b : Z) : bool :=
  match a with
  | Some x => b <? x
  | None => false
  end.

End JS.

(* ===================================================================== *)
(** ** The platform the program runs on *)
(* ===================================================================== *)

(** Node's [URL] class, [decodeURIComponent] and floating-point formatting
    are not code of this repository.  The embedding takes them as a record
    of functions; [None] stands for a thrown exception. *)

Module URL.
Record t := mk {
  protocol : string;
  hostname : string;
  port : string;
  pathname : string;
  search : string;     (* the query, with its leading "?" unless empty *)
  hash : string
}.
End URL.

Record Platform := {
  (** [new URL(s)] *)
  URL_parse : string → option URL.t;
  (** [new URL(relative, base).toString()] *)
  URL_resolve : string → string → option string;
  (** [url.toString()] *)
  URL_toString : URL.t → string;
  (** the name and value pairs [url.searchParams] holds for a query *)
  searchParams_parse : string → list (string * string);
  (** the query that pairs serialise to when [searchParams] is updated *)
  searchParams_serialize : list (string * string) → string;
  (** [decodeURIComponent(s)] *)
  decodeURIComponent : string → option string;
  (** the floating-point part of [formatSize]:
      [parseFloat((bytes / 1024^i).toFixed(1)) + ' ' + sizes[i]]
      with [i = floor(log bytes / log 1024)] *)
  formatSizeFloat : Z → string
}.

(* ===================================================================== *)
(** ** The download engine ([electron/download-engine.ts]) *)
(* ===================================================================== *)

Module DownloadSegment.
Record t := mk {
  id : string;
  offset : Z;
  length : Z;
  downloaded : Z;
  state : Z;   (* 0 NotStarted, 1 Downloading, 2 Finished, 3 Failed *)
  speed : Z
}.
End DownloadSegment.

Inductive DownloadStatus :=
| queued | downloading | paused | completed | failed | assembling | stopped.

Inductive DownloadCategory :=
| all | compressed | documents | music | videos | programs | other.

Module DownloadItem.
Record t := mk {
  id : string;
  url : string;
  fileName : string;
  fileSize : Z;
  downloaded : Z;
  progress : Z;
  speed : Z;
  eta : Z;
  status : DownloadStatus;
  category : DownloadCategory;
  dateAdded : string;
  dateCompleted : option string;
  savePath : string;
  resumable : bool;
  segments : list DownloadSegment.t;
  maxSegments : Z;
  error : option string;
  headers : option (gmap string string);
  userAgent : option string;
  referer : option string
}.
End DownloadItem.

Module Engine.

Import DownloadItem.

Definition NotStarted : Z := 0.
Definition Downloading : Z := 1.
Definition Finished : Z := 2.
Definition Failed : Z := 3.

(** One fresh segment as [initializeSegments] pushes it. *)
Definition newSegment (id : string) (offset length : Z) : DownloadSegment.t :=
  DownloadSegment.mk id offset length 0 NotStarted 0.

(** [initializeSegments(item)] (lines 275-311).  [ids i] is the identifier [generateId()]
    returns on its [i]-th call; the [for] loop over [0 <= i < segmentCount]
    is a map over [seqZ 0 segmentCount] (empty when [segmentCount <= 0];
    the counter itself is exact, a count of 2^53 segments being out of
    reach).  The quotients, the product and the difference are those of
    doubles. *)
Definition initializeSegments (ids : nat → string) (item : DownloadItem.t)
  : list DownloadSegment.t :=
  if (fileSize item <=? 0) || negb (resumable item) then
    [ newSegment (ids 0%nat) 0 (if 0 <? fileSize item then fileSize item else -1) ]
  else
    let segmentCount :=
      Z.min (maxSegments item) (Z.max 1 (JS.floorDiv (fileSize item) (256 * 1024))) in
    let segmentSize := JS.floorDiv (fileSize item) segmentCount in
    (λ i : Z,
       let offset := JS.mul i segmentSize in
       let length :=
         if i =? segmentCount - 1 then JS.sub (fileSize item) offset else segmentSize in
       newSegment (ids (Z.to_nat i)) offset length)
    <$> seqZ 0 segmentCount.

(** *** Field updates of a download item and of a segment *)

Definition set_segments (v : list DownloadSegment.t) (d : DownloadItem.t) : DownloadItem.t :=
  mk (id d) (url d) (fileName d) (fileSize d) (downloaded d) (progress d)
     (speed d) (eta d) (status d) (category d) (dateAdded d)
     (dateCompleted d) (savePath d) (resumable d) v (maxSegments d)
     (error d) (headers d) (userAgent d) (referer d).

Definition set_status (v : DownloadStatus) (d : DownloadItem.t) : DownloadItem.t :=
  mk (id d) (url d) (fileName d) (fileSize d) (downloaded d) (progress d)
     (speed d) (eta d) v (category d) (dateAdded d) (dateCompleted d)
     (savePath d) (resumable d) (segments d) (maxSegments d) (error d)
     (headers d) (userAgent d) (referer d).

Definition set_error (v : option string) (d : DownloadItem.t) : DownloadItem.t :=
  mk (id d) (url d) (fileName d) (fileSize d) (downloaded d) (progress d)
     (speed d) (eta d) (status d) (category d) (dateAdded d)
     (dateCompleted d) (savePath d) (resumable d) (segments d)
     (maxSegments d) v (headers d) (userAgent d) (referer d).

Definition set_downloaded (v : Z) (d : DownloadItem.t) : DownloadItem.t :=
  mk (id d) (url d) (fileName d) (fileSize d) v (progress d) (speed d)
     (eta d) (status d) (category d) (dateAdded d) (dateCompleted d)
     (savePath d) (resumable d) (segments d) (maxSegments d) (error d)
     (headers d) (userAgent d) (referer d).

Definition set_url (v : string) (d : DownloadItem.t) : DownloadItem.t :=
  mk (id d) v (fileName d) (fileSize d) (downloaded d) (progress d)
     (speed d) (eta d) (status d) (category d) (dateAdded d)
     (dateCompleted d) (savePath d) (resumable d) (segments d)
     (maxSegments d) (error d) (headers d) (userAgent d) (referer d).

Definition seg_set_state (v : Z) (s : DownloadSegment.t) :=
  DownloadSegment.mk (DownloadSegment.id s) (DownloadSegment.offset s)
    (DownloadSegment.length s) (DownloadSegment.downloaded s) v
    (DownloadSegment.speed s).

Definition seg_set_downloaded (v : Z) (s : DownloadSegment.t) :=
  DownloadSegment.mk (DownloadSegment.id s) (DownloadSegment.offset s)
    (DownloadSegment.length s) v (DownloadSegment.state s)
    (DownloadSegment.speed s).

Definition seg_set_speed (v : Z) (s : DownloadSegment.t) :=
  DownloadSegment.mk (DownloadSegment.id s) (DownloadSegment.offset s)
    (DownloadSegment.length s) (DownloadSegment.downloaded s)
    (DownloadSegment.state s) v.

(** The item [addDownload] creates (lines 242-259). *)
Definition newDownloadItem (id url fileName : string) (fileSize : Z)
    (category : DownloadCategory) (dateAdded savePath : string) (resumable : bool)
    (maxSegments : Z) (headers : option (gmap string string)) : DownloadItem.t :=
  {| id := id; url := url; fileName := fileName; fileSize := fileSize;
     downloaded := 0; progress := 0; speed := 0; eta := 0; status := queued;
     category := category; dateAdded := dateAdded; dateCompleted := None;
     savePath := savePath; resumable := resumable; segments := [];
     maxSegments := maxSegments; error := None; headers := headers;
     userAgent := None; referer := None |}.

(** *** Probe: the response callback of [probeUrl] *)

(** What [probeUrl] resolves with.  [fileName] (the result of
    [getFileNameFromHeaders]) is not part of the embedding. *)
Record ProbeResult := {
  probe_fileSize : option Z;     (* [None] is [NaN] *)
  probe_resumable : bool;
  probe_finalUrl : string
}.

Inductive ProbeOutcome :=
| ProbeRedirect (target : option string)   (* probe again at [target] *)
| ProbeResolved (r : ProbeResult).

(** Lines 189-207.  A 3xx answer with a [Location] probes again at the
    resolved address; any other answer resolves the probe. *)
Definition isRedirect (statusCode : Z) (location : option string) : bool :=
  (300 <=? statusCode) && (statusCode <? 400) && bool_decide (is_Some (JS.truthy location)).

Definition probeResponse (P : Platform) (url : string) (statusCode : Z)
    (resHeaders : gmap string string) : ProbeOutcome :=
  if isRedirect statusCode (resHeaders !! "location") then
    ProbeRedirect (URL_resolve P (default "" (resHeaders !! "location")) url)
  else
    let fileSize := JS.parseInt (JS.orElse (resHeaders !! "content-length") "-1") in
    let acceptRanges := resHeaders !! "accept-ranges" in
    let resumable := bool_decide (acceptRanges = Some "bytes") || JS.gt fileSize 0 in
    ProbeResolved {| probe_fileSize := fileSize;
                     probe_resumable := resumable;
                     probe_finalUrl := url |}.

(** *** Engine state *)

Record ActiveDownload := {
  abortControllers : gmap string bool;   (* segment id ↦ [signal.aborted] *)
  startTime : Z;
  bytesAtStart : Z;
  lastSpeedCalcTime : Z;
  lastSpeedCalcBytes : Z
}.

Definition set_abortControllers (v : gmap string bool) (a : ActiveDownload) :=
  {| abortControllers := v; startTime := startTime a;
     bytesAtStart := bytesAtStart a;
     lastSpeedCalcTime := lastSpeedCalcTime a;
     lastSpeedCalcBytes := lastSpeedCalcBytes a |}.

Inductive Event :=
| download_started (item : DownloadItem.t).

Record State := {
  downloads : gmap string DownloadItem.t;
  activeDownloads : gmap string ActiveDownload;
  emitted : list Event
}.

(** *** Segment worker: the request [downloadSegment] issues

    A request is the call of [client.request] the worker makes, with the
    options it hands over.  What Node does with them (it refuses a header
    name or value that is not valid by throwing, which rejects the worker)
    is not part of the embedding. *)

Record SegmentRequest := {
  req_method : string;
  req_url : URL.t;                       (* hostname, port, pathname + search *)
  req_headers : gmap string string;
  req_timeout : Z;
  req_download : string;                 (* the download it belongs to *)
  req_segment : nat                      (* index of its segment *)
}.

Definition userAgent : string := "QDM/1.0 (Quantum Download Manager)".

(** Lines 327-337: the default User-Agent, overridden by the item's own
    headers, then [Range] when the item is resumable and the segment has a
    positive length.  The bounds of the range are sums of doubles, written
    as a template literal writes a number. *)
Definition requestHeaders (item : DownloadItem.t) (segment : DownloadSegment.t)
  : gmap string string :=
  let headers := default ∅ (headers item) ∪ {[ "User-Agent" := userAgent ]} in
  if resumable item && (0 <? DownloadSegment.length segment) then
    let start := JS.add (DownloadSegment.offset segment) (DownloadSegment.downloaded segment) in
    let end_ :=
      JS.sub (JS.add (DownloadSegment.offset segment) (DownloadSegment.length segment)) 1 in
    <[ "Range" := "bytes=" +:+ JS.numberToString start +:+ "-" +:+ JS.numberToString end_ ]>
      headers
  else headers.

(** The synchronous part of [downloadSegment(active, segment)]: register an
    abort controller under the segment's id and issue the GET.  When
    [new URL(item.url)] throws, the promise is rejected before anything is
    registered and no request leaves. *)
Definition downloadSegment (P : Platform) (item : DownloadItem.t)
    (i : nat) (segment : DownloadSegment.t) (active : ActiveDownload)
  : ActiveDownload * option SegmentRequest :=
  match URL_parse P (url item) with
  | None => (active, None)
  | Some urlObj =>
      (set_abortControllers
         (<[ DownloadSegment.id segment := false ]> (abortControllers active)) active,
       Some {| req_method := "GET";
               req_url := urlObj;
               req_headers := requestHeaders item segment;
               req_timeout := 30000;
               req_download := id item;
               req_segment := i |})
  end.

(** *** Segment worker: the callbacks of a request

    A worker is named by the id of its download and the index of its
    segment in [item.segments]; its callbacks update the item and the
    active record found under that id. *)

Definition update_segment (f : DownloadSegment.t → DownloadSegment.t)
    (i : nat) (item : DownloadItem.t) : DownloadItem.t :=
  set_segments (alter f i (segments item)) item.

Definition forget_controller (dl : string) (segId : string) (st : State) : State :=
  {| downloads := downloads st;
     activeDownloads :=
       alter (λ a, set_abortControllers (delete segId (abortControllers a)) a)
             dl (activeDownloads st);
     emitted := emitted st |}.

Definition update_item (f : DownloadItem.t → DownloadItem.t) (dl : string)
    (st : State) : State :=
  {| downloads := alter f dl (downloads st);
     activeDownloads := activeDownloads st;
     emitted := emitted st |}.

Definition segment_id_at (dl : string) (i : nat) (st : State) : option string :=
  item ← downloads st !! dl;
  DownloadSegment.id <$> segments item !! i.

Definition aborted (dl : string) (i : nat) (st : State) : bool :=
  default false
    (segId ← segment_id_at dl i st;
     a ← activeDownloads st !! dl;
     abortControllers a !! segId).

(** [res.on('data', chunk => ...)] (lines 371-381) *)
Definition onData (dl : string) (i : nat) (chunk : list Byte.byte) (st : State)
  : State :=
  if aborted dl i st then st
  else
    let n := Z.of_nat (List.length chunk) in
    update_item
      (λ item,
         set_downloaded (downloaded item + n)
           (update_segment
              (λ s, seg_set_speed n
                      (seg_set_downloaded (DownloadSegment.downloaded s + n) s))
              i item))
      dl st.

(** [res.on('end', () => ...)] (lines 383-388) *)
Definition onEnd (dl : string) (i : nat) (st : State) : State :=
  match segment_id_at dl i st with
  | Some segId =>
      forget_controller dl segId
        (update_item (update_segment (seg_set_state Finished) i) dl st)
  | None => st
  end.

(** [res.on('error', ...)] and [req.on('error', ...)] (lines 390-403) *)
Definition onError (dl : string) (i : nat) (st : State) : State :=
  match segment_id_at dl i st with
  | Some segId =>
      forget_controller dl segId
        (update_item (update_segment (seg_set_state Failed) i) dl st)
  | None => st
  end.

(** [req.on('timeout', ...)] (lines 405-410) *)
Definition onTimeout (dl : string) (i : nat) (st : State) : State :=
  update_item (update_segment (seg_set_state Failed) i) dl st.

Definition set_active (dl : string) (a : ActiveDownload) (st : State) : State :=
  {| downloads := downloads st;
     activeDownloads := <[ dl := a ]> (activeDownloads st);
     emitted := emitted st |}.

(** The response callback of the GET (lines 354-369).  A redirect rewrites
    [item.url] and runs [downloadSegment] again; a status of 400 or more
    rejects, and the rejection handler [startDownload] installs marks the
    segment failed; otherwise the segment is downloading.  When resolving
    [Location] throws, the exception escapes the callback and the state is
    left as it is. *)
Definition onResponse (P : Platform) (dl : string) (i : nat) (statusCode : Z)
    (location : option string) (st : State) : State * option SegmentRequest :=
  match downloads st !! dl with
  | None => (st, None)
  | Some item =>
      if isRedirect statusCode location then
        match URL_resolve P (default "" location) (url item) with
        | None => (st, None)
        | Some target =>
            let item' := set_url target item in
            let st1 := update_item (λ _, item') dl st in
            match segments item' !! i, activeDownloads st1 !! dl with
            | Some segment, Some active =>
                match downloadSegment P item' i segment active with
                | (active', Some q) => (set_active dl active' st1, Some q)
                | (_, None) =>
                    (update_item (update_segment (seg_set_state Failed) i) dl st1, None)
                end
            | _, _ => (st1, None)
            end
        end
      else if 400 <=? statusCode then
        (update_item (update_segment (seg_set_state Failed) i) dl st, None)
      else
        (update_item (update_segment (seg_set_state Downloading) i) dl st, None)
  end.

(** *** Start and retry *)

Inductive Settled :=
| Returned (item : option DownloadItem.t)     (* resolved at once with this value *)
| Pending (requests : list SegmentRequest).   (* waiting for these workers *)

(** Run [downloadSegment] for each pending segment in turn, threading the
    active record; [segs] pairs every segment with its index. *)
Fixpoint spawnWorkers (P : Platform) (item : DownloadItem.t)
    (segs : list (nat * DownloadSegment.t)) (active : ActiveDownload)
  : ActiveDownload * list SegmentRequest :=
  match segs with
  | [] => (active, [])
  | (i, segment) :: rest =>
      let '(active1, r) := downloadSegment P item i segment active in
      let '(active2, rs) := spawnWorkers P item rest active1 in
      (active2, match r with Some q => q :: rs | None => rs end)
  end.

(** [startDownload(id)] up to its first [await] (lines 460-505): the
    guard on a download that is already running, segment initialisation,
    the new active record, the [download:started] event, and one worker
    per segment that is not finished.  [now] is [Date.now()]. *)
Definition startDownload (P : Platform) (now : Z) (ids : nat → string)
    (id : string) (st : State) : State * Settled :=
  match downloads st !! id with
  | None => (st, Returned None)
  | Some item =>
      match status item with
      | downloading => (st, Returned (Some item))
      | _ =>
          let item1 :=
            match segments item with
            | [] => set_segments (initializeSegments ids item) item
            | _ => item
            end in
          let item2 := set_error None (set_status downloading item1) in
          let active := {| abortControllers := ∅;
                           startTime := now;
                           bytesAtStart := downloaded item2;
                           lastSpeedCalcTime := now;
                           lastSpeedCalcBytes := downloaded item2 |} in
          let pendingSegments :=
            filter (λ p, DownloadSegment.state p.2 ≠ Finished)
                   (imap (λ i s, (i, s)) (segments item2)) in
          let '(active', requests) := spawnWorkers P item2 pendingSegments active in
          ({| downloads := <[ id := item2 ]> (downloads st);
              activeDownloads := <[ id := active' ]> (activeDownloads st);
              emitted := emitted st ++ [download_started item2] |},
           Pending requests)
      end
  end.

(** The loop of [retryDownload] over one segment. *)
Definition resetSegment (segment : DownloadSegment.t) : DownloadSegment.t :=
  if DownloadSegment.state segment =? Finished then segment
  else seg_set_downloaded 0 (seg_set_state NotStarted segment).

Definition sumDownloaded (segs : list DownloadSegment.t) : Z :=
  foldl (λ sum s, sum + DownloadSegment.downloaded s) 0 segs.

(** [retryDownload(id)] (lines 697-714), up to the first [await] of the
    [startDownload] it ends with. *)
Definition retryDownload (P : Platform) (now : Z) (ids : nat → string)
    (id : string) (st : State) : State * Settled :=
  match downloads st !! id with
  | None => (st, Returned None)
  | Some item =>
      let item1 := set_segments (resetSegment <$> segments item) item in
      let item2 := set_error None (set_downloaded (sumDownloaded (segments item1)) item1) in
      startDownload P now ids id
        {| downloads := <[ id := item2 ]> (downloads st);
           activeDownloads := activeDownloads st;
           emitted := emitted st |}
  end.

(** *** Notions the properties are stated with *)

(** The byte [x] lies in the range of [seg]. *)
Definition inRange (seg : DownloadSegment.t) (x : Z) : Prop :=
  DownloadSegment.offset seg ≤ x < DownloadSegment.offset seg + DownloadSegment.length seg.

(** The segment a worker is attached to. *)
Definition segmentAt (dl : string) (i : nat) (st : State) : option DownloadSegment.t :=
  item ← downloads st !! dl; segments item !! i.


(** The resumable flag in the words of the specification: [Accept-Ranges]
    contains [bytes], compared without regard to case, or the size is
    known, that is [Content-Length] parses to a number that is not
    negative. *)
Definition resumable_per_spec (acceptRanges contentLength : option string) : bool :=
  let known :=
    match contentLength ≫= JS.parseInt with
    | Some n => 0 <=? n
    | None => false
    end in
  let ranges :=
    match acceptRanges with
    | Some a => JS.includes (JS.toLowerCase a) "bytes"
    | None => false
    end in
  ranges || known.

End Engine.

(* ===================================================================== *)
(** ** The queue scheduler ([electron/queue-manager.ts]) *)
(* ===================================================================== *)

Module QueueSchedule.
Record t := mk {
  enabled : bool;
  startTime : string;   (* HH:mm *)
  endTime : string;     (* HH:mm *)
  days : list Z         (* 0 = Sunday, ..., 6 = Saturday *)
}.
End QueueSchedule.

Module DownloadQueue.
Record t := mk {
  id : string;
  name : string;
  downloadIds : list string;
  maxConcurrent : Z;
  enabled : bool;
  schedule : option QueueSchedule.t
}.
End DownloadQueue.

Module Queue.

(** What the code reads off [new Date()]. *)
Record LocalTime := {
  getDay : Z;
  getHours : Z;
  getMinutes : Z
}.

(** Arithmetic and comparison with [NaN]; a missing array element is
    [undefined], which arithmetic turns into [NaN]. *)
Definition num_at (i : nat) (l : list (option Z)) : option Z := mjoin (l !! i).

Definition mul60_add (h m : option Z) : option Z :=
  match h, m with
  | Some h, Some m => Some (h * 60 + m)
  | _, _ => None
  end.

Definition le (a b : option Z) : bool :=
  match a, b with
  | Some a, Some b => a <=? b
  | _, _ => false
  end.

(** [isWithinSchedule(schedule)] (lines 195-213) at the local time [now]. *)
Definition isWithinSchedule (schedule : QueueSchedule.t) (now : LocalTime) : bool :=
  let currentDay := getDay now in
  if negb (bool_decide (currentDay ∈ QueueSchedule.days schedule)) then false
  else
    let currentMinutes := Some (getHours now * 60 + getMinutes now) in
    let start := JS.Number <$> JS.split ":" (QueueSchedule.startTime schedule) in
    let end_ := JS.Number <$> JS.split ":" (QueueSchedule.endTime schedule) in
    let startMinutes := mul60_add (num_at 0 start) (num_at 1 start) in
    let endMinutes := mul60_add (num_at 0 end_) (num_at 1 end_) in
    if le startMinutes endMinutes then
      le startMinutes currentMinutes && le currentMinutes endMinutes
    else
      le startMinutes currentMinutes || le currentMinutes endMinutes.

(** [getNextDownloadIds(queueId, currentActiveCount)] (lines 167-180) *)
Definition getNextDownloadIds (queues : gmap string DownloadQueue.t)
    (now : LocalTime) (queueId : string) (currentActiveCount : Z) : list string :=
  match queues !! queueId with
  | None => []
  | Some queue =>
      if negb (DownloadQueue.enabled queue) then []
      else
        let slotsAvailable :=
          Z.max 0 (DownloadQueue.maxConcurrent queue - currentActiveCount) in
        if slotsAvailable =? 0 then []
        else
          match DownloadQueue.schedule queue with
          | Some schedule =>
              if QueueSchedule.enabled schedule && negb (isWithinSchedule schedule now)
              then []
              else take (Z.to_nat slotsAvailable) (DownloadQueue.downloadIds queue)
          | None => take (Z.to_nat slotsAvailable) (DownloadQueue.downloadIds queue)
          end
  end.

(** A time of day written as the schedule editor writes it: two digits,
    a colon, two digits. *)
Definition digit (n : Z) : ascii := ascii_of_nat (Z.to_nat (48 + n)).

Definition pad2 (n : Z) : string :=
  String (digit (n / 10)) (String (digit (n mod 10)) EmptyString).

Definition HHmm (h m : Z) : string := pad2 h +:+ ":" +:+ pad2 m.

(** [h:m], written and split and read as [isWithinSchedule] does, is [h]
    and [m] again. *)
Definition readsBack (h m : Z) : bool :=
  bool_decide (JS.Number <$> JS.split ":" (HHmm h m) = [Some h; Some m]).

End Queue.

(* ===================================================================== *)
(** ** The ingestion endpoint ([electron/browser-monitor.ts]) *)
(* ===================================================================== *)

Module BrowserMessage.
Record t := mk {
  url : option string;
  file : option string;
  method : option string;
  requestHeaders : option (gmap string string);
  responseHeaders : option (gmap string string);
  cookie : option string;
  tabUrl : option string;
  tabTitle : option string;
  tabId : option string;
  vid : option string;
  contentType : option string;
  contentLength : option Z;
  quality : option string
}.
End BrowserMessage.

Inductive MediaType := video | audio | hls | dash | youtube.

Module MediaItem.
Record t := mk {
  id : string;
  name : string;
  description : string;
  tabUrl : string;
  tabId : string;
  dateAdded : Z;             (* the instant [new Date()] read *)
  url : string;
  audioUrl : option string;  (* declared, never set by the monitor *)
  type : MediaType;
  size : Z;
  contentType : string;
  headers : gmap string string;
  cookies : option string
}.
End MediaItem.

Module BrowserMonitorConfig.
Record t := mk {
  enabled : bool;
  fileExtensions : list string;
  videoExtensions : list string;
  blockedHosts : list string;
  mediaTypes : list string;
  tabsWatcher : list string;
  matchingHosts : list string
}.
End BrowserMonitorConfig.

Module Monitor.

Definition DEFAULT_CONFIG : BrowserMonitorConfig.t :=
  BrowserMonitorConfig.mk true
    [ ".zip"; ".rar"; ".7z"; ".tar"; ".gz"; ".bz2"; ".xz";
      ".exe"; ".msi"; ".dmg"; ".deb"; ".rpm"; ".appimage"; ".apk";
      ".pdf"; ".doc"; ".docx"; ".xls"; ".xlsx"; ".ppt"; ".pptx";
      ".mp3"; ".flac"; ".wav"; ".aac"; ".ogg"; ".wma"; ".m4a"; ".opus";
      ".mp4"; ".mkv"; ".avi"; ".mov"; ".wmv"; ".flv"; ".webm"; ".m4v";
      ".iso"; ".img"; ".bin"; ".torrent";
      ".jpg"; ".jpeg"; ".png"; ".gif"; ".bmp"; ".svg"; ".webp";
      ".epub"; ".mobi"; ".azw3" ]
    [ ".mp4"; ".mkv"; ".webm"; ".avi"; ".mov"; ".flv"; ".m4v";
      ".ts"; ".m3u8"; ".mpd"; ".f4m";
      ".mp3"; ".m4a"; ".aac"; ".ogg"; ".opus"; ".flac"; ".wav" ]
    [ "update.googleapis.com"; "safebrowsing.googleapis.com";
      "clients2.google.com"; "clients1.google.com";
      "translate.googleapis.com" ]
    [ "audio/"; "video/" ]
    [ ".youtube."; "/watch?v=" ]
    [ "googlevideo" ].

(** The body of a request, as [JSON.parse] reads it: every handler starts
    by parsing the body, and nothing else looks at it.  Objects are taken
    at their declared type [BrowserMessage]. *)
Inductive Body :=
| SyntaxError                                   (* [JSON.parse] throws *)
| JsonMessage (msg : BrowserMessage.t)          (* one message object *)
| JsonArray (messages : list BrowserMessage.t)  (* an array of messages *)
| JsonOther.                    (* null, a boolean, a number or a string *)

Record Request := {
  req_method : string;
  req_url : option string;
  req_body : Body
}.

Inductive Event :=
| browser_download (url : string) (fileName : option string)
    (headers : gmap string string) (cookies referer tabUrl : option string)
| media_added (media : MediaItem.t)
| media_download (media : MediaItem.t)
| media_updated (media : MediaItem.t)
| browser_batch (links : list (string * option string * gmap string string))
| media_cleared.

Record State := {
  config : BrowserMonitorConfig.t;
  mediaList : list (string * MediaItem.t);   (* a [Map], in insertion order *)
  emitted : list Event
}.

Definition set_mediaList (v : list (string * MediaItem.t)) (st : State) : State :=
  {| config := config st; mediaList := v; emitted := emitted st |}.

Definition emit (e : Event) (st : State) : State :=
  {| config := config st; mediaList := mediaList st; emitted := emitted st ++ [e] |}.

(** [map.set(k, v)]: replace in place, or append. *)
Fixpoint Map_set {A} (k : string) (v : A) (m : list (string * A)) : list (string * A) :=
  match m with
  | [] => [(k, v)]
  | (k', v') :: r =>
      if String.eqb k k' then (k, v) :: r else (k', v') :: Map_set k v r
  end.

Fixpoint Map_get {A} (k : string) (m : list (string * A)) : option A :=
  match m with
  | [] => None
  | (k', v') :: r => if String.eqb k k' then Some v' else Map_get k r
  end.

(** [records.sort((a, b) => time(b) - time(a))]: newest first, and stable,
    so items of the same instant keep their order. *)
Fixpoint insertByDate (m : MediaItem.t) (l : list MediaItem.t) : list MediaItem.t :=
  match l with
  | [] => [m]
  | x :: r =>
      if MediaItem.dateAdded x <=? MediaItem.dateAdded m then m :: l
      else x :: insertByDate m r
  end.

Definition getMediaList (st : State) : list MediaItem.t :=
  foldr insertByDate [] (snd <$> mediaList st).

Definition clearMediaList (st : State) : State :=
  emit media_cleared (set_mediaList [] st).

(** *** Classification *)

Definition isHLS (contentType url : string) : bool :=
  JS.includes contentType "mpegurl" || JS.includes contentType "x-mpegurl" ||
  JS.includes (JS.toLowerCase url) ".m3u8".

Definition isDASH (contentType url : string) : bool :=
  JS.includes contentType "dash+xml" || JS.includes contentType "dash" ||
  JS.includes (JS.toLowerCase url) ".mpd".

Definition isYouTube (url : string) (tabUrl : option string) : bool :=
  (JS.includes url "googlevideo.com" || JS.includes url "youtube.com") ||
  match tabUrl with
  | Some t => JS.includes t "youtube.com/watch"
  | None => false
  end.

(** The STRICT FILTER of [onMediaMessage] on the lower-cased content type. *)
Definition isWebResource (ct : string) : bool :=
  JS.startsWith ct "text/" || JS.includes ct "javascript" || JS.includes ct "json" ||
  JS.includes ct "xml" || JS.startsWith ct "font/" || JS.startsWith ct "image/svg".

(** *** Header hygiene ([cleanHeaders], lines 558-572) *)

Definition blocked : gset string :=
  {[ "accept"; "if-none-match"; "if-modified-since"; "authorization";
     "proxy-authorization"; "connection"; "expect"; "te"; "upgrade";
     "range"; "transfer-encoding"; "content-type"; "content-length";
     "content-encoding" ]}.

(** The name whose assignment on a plain object reaches the setter of
    [Object.prototype] instead of making a property. *)
Definition proto : string := "__proto__".

(** [cleaned[key] = value] for every entry whose lower-cased name is not
    blocked.  For the key [__proto__] the assignment makes no property (the
    setter ignores a string), so that header is lost as well. *)
Definition cleanHeaders (headers : option (gmap string string)) : gmap string string :=
  match headers with
  | None => ∅
  | Some h => filter (λ kv, (JS.toLowerCase kv.1 ∉ blocked) ∧ kv.1 ≠ proto) h
  end.

(** *** Small string helpers of the class *)

Fixpoint stripPrefix (p s : string) : option string :=
  match p, s with
  | EmptyString, _ => Some s
  | String a p', String b s' => if Ascii.eqb a b then stripPrefix p' s' else None
  | String _ _, EmptyString => None
  end.

(** The longest prefix without ["&"] dropped: what [[^&]+] consumes. *)
Fixpoint dropValue (s : string) : string :=
  match s with
  | EmptyString => EmptyString
  | String c s' => if Ascii.eqb c "&" then s else dropValue s'
  end.

(** [s.replace(/<pat>[^&]+/, '')]: the first place where [pat] is followed
    by at least one character other than ["&"] is cut out, with the run of
    such characters. *)
Fixpoint removeFirst (pat : string) (s : string) : string :=
  match s with
  | EmptyString => EmptyString
  | String c s' =>
      match stripPrefix pat s with
      | Some (String d r) =>
          if Ascii.eqb d "&" then String c (removeFirst pat s') else dropValue r
      | _ => String c (removeFirst pat s')
      end
  end.

(** [s.replace(/<suffix>$/, '')] *)
Fixpoint removeSuffix (suffix : string) (s : string) : string :=
  if String.eqb s suffix then EmptyString
  else match s with
       | EmptyString => EmptyString
       | String c s' => String c (removeSuffix suffix s')
       end.

(** [s.split(sep).pop()] *)
Definition lastPart (sep : ascii) (s : string) : string :=
  List.last (JS.split sep s) EmptyString.

Definition doubleQuote : ascii := ascii_of_nat 34.

Definition sanitizeChar (c : ascii) : ascii :=
  if bool_decide (c ∈ [ "<"; ">"; ":"; doubleQuote; "/"; "\"; "|"; "?"; "*" ]%char)
  then "_"%char else c.

Fixpoint mapChars (f : ascii → ascii) (s : string) : string :=
  match s with
  | EmptyString => EmptyString
  | String c s' => String (f c) (mapChars f s')
  end.

Definition sanitizeFileName (name : string) : string :=
  JS.trim (mapChars sanitizeChar name).

(** [searchParams.get(name)] and [searchParams.delete(name)] *)
Fixpoint params_get (name : string) (l : list (string * string)) : option string :=
  match l with
  | [] => None
  | (k, v) :: r => if String.eqb k name then Some v else params_get name r
  end.

Definition params_delete (name : string) (l : list (string * string))
  : list (string * string) :=
  filter (λ kv, kv.1 ≠ name) l.

(** The message [msg] under another address. *)
Definition readdressed (url : string) (msg : BrowserMessage.t) : BrowserMessage.t :=
  BrowserMessage.mk (Some url) (BrowserMessage.file msg) (BrowserMessage.method msg)
    (BrowserMessage.requestHeaders msg) (BrowserMessage.responseHeaders msg)
    (BrowserMessage.cookie msg) (BrowserMessage.tabUrl msg) (BrowserMessage.tabTitle msg)
    (BrowserMessage.tabId msg) (BrowserMessage.vid msg) (BrowserMessage.contentType msg)
    (BrowserMessage.contentLength msg) (BrowserMessage.quality msg).

Section WithPlatform.

Context (P : Platform).

Definition formatSize (bytes : Z) : string :=
  if bytes =? 0 then "0 B" else formatSizeFloat P bytes.

Definition isBlockedUrl (st : State) (url : string) : bool :=
  match URL_parse P url with
  | Some urlObj =>
      existsb (λ host, JS.includes (URL.hostname urlObj) host)
              (BrowserMonitorConfig.blockedHosts (config st))
  | None => false
  end.

Definition shouldInterceptUrl (st : State) (url : string)
    (contentType : option string) : bool :=
  let urlLower := JS.toLowerCase url in
  if existsb (λ ext, JS.includes urlLower ext)
             (BrowserMonitorConfig.fileExtensions (config st))
  then true
  else
    match JS.truthy contentType with
    | Some contentType =>
        let ct := JS.toLowerCase contentType in
        JS.includes ct "application/octet-stream" ||
        JS.includes ct "application/zip" ||
        JS.includes ct "application/x-rar" ||
        JS.includes ct "application/pdf" ||
        JS.includes ct "application/x-msdownload" ||
        JS.includes ct "application/x-iso"
    | None => false
    end.

(** The three [searchParams.delete] calls of [getYouTubeBaseUrl]; the
    update of the parameters rewrites the query of the URL. *)
Definition stripRangeParams (l : list (string * string)) : list (string * string) :=
  params_delete "rbuf" (params_delete "rn" (params_delete "range" l)).

Definition withoutRange (urlObj : URL.t) : URL.t :=
  URL.mk (URL.protocol urlObj) (URL.hostname urlObj) (URL.port urlObj)
    (URL.pathname urlObj)
    (searchParams_serialize P
       (stripRangeParams (searchParams_parse P (URL.search urlObj))))
    (URL.hash urlObj).

(** [getYouTubeBaseUrl(url)] (lines 460-470) *)
Definition getYouTubeBaseUrl (url : string) : string :=
  match URL_parse P url with
  | Some urlObj => URL_toString P (withoutRange urlObj)
  | None => removeFirst "&rn=" (removeFirst "&range=" url)
  end.

(** The table of [getYouTubeQuality], in source order; a key written
    twice keeps its later value, as in an object literal. *)
Definition itagTable : list (string * string) :=
  [ ("18", "360p MP4"); ("22", "720p MP4");
    ("133", "240p"); ("134", "360p"); ("135", "480p");
    ("136", "720p"); ("137", "1080p"); ("138", "4K");
    ("160", "144p"); ("264", "1440p"); ("266", "2160p");
    ("298", "720p60"); ("299", "1080p60"); ("302", "720p60");
    ("303", "1080p60"); ("308", "1440p60"); ("315", "2160p60");
    ("242", "240p VP9"); ("243", "360p VP9"); ("244", "480p VP9");
    ("247", "720p VP9"); ("248", "1080p VP9"); ("271", "1440p VP9");
    ("313", "2160p VP9"); ("302", "720p60 VP9"); ("303", "1080p60 VP9");
    ("139", "Audio 48k"); ("140", "Audio 128k"); ("141", "Audio 256k");
    ("171", "Audio Vorbis"); ("249", "Audio Opus 50k");
    ("250", "Audio Opus 70k"); ("251", "Audio Opus 160k") ].

Definition itagMap : gmap string string :=
  foldl (λ m kv, <[ kv.1 := kv.2 ]> m) ∅ itagTable.

(** [getYouTubeQuality(url)].  An [itag] that names a member of
    [Object.prototype] is outside this table and reads as absent here. *)
Definition getYouTubeQuality (url : string) : string :=
  match URL_parse P url with
  | None => ""
  | Some urlObj =>
      let params := searchParams_parse P (URL.search urlObj) in
      let mime := JS.orElse (params_get "mime" params) "" in
      match JS.truthy (params_get "itag" params) with
      | None => ""
      | Some itag =>
          match itagMap !! itag with
          | Some quality => quality
          | None =>
              if JS.includes mime "video" then "Video (itag " +:+ itag +:+ ")"
              else if JS.includes mime "audio" then "Audio (itag " +:+ itag +:+ ")"
              else "itag " +:+ itag
          end
      end
  end.

Definition getFileNameFromUrl (url : string) : string :=
  match URL_parse P url with
  | None => "media"
  | Some urlObj =>
      let name := lastPart "/" (URL.pathname urlObj) in
      match decodeURIComponent P name with
      | None => "media"
      | Some decoded => JS.orElse (Some decoded) "media"
      end
  end.

Definition bullet : string := " • ".

Fixpoint join (sep : string) (parts : list string) : string :=
  match parts with
  | [] => ""
  | [x] => x
  | x :: r => x +:+ sep +:+ join sep r
  end.

Definition getMediaDescription (msg : BrowserMessage.t) (type : MediaType) : string :=
  let parts0 :=
    match type with
    | youtube => ["YouTube"]
    | hls => ["HLS Stream"]
    | dash => ["DASH Stream"]
    | audio => ["Audio"]
    | video => ["Video"]
    end in
  let parts1 :=
    match BrowserMessage.contentLength msg with
    | Some n => if 0 <? n then parts0 ++ [formatSize n] else parts0
    | None => parts0
    end in
  let parts2 :=
    match JS.truthy (BrowserMessage.quality msg) with
    | Some q => parts1 ++ [q]
    | None => parts1
    end in
  join bullet parts2.

(** *** The handlers

    Each handler runs inside [try { ... } catch { console.error(...) }]: a
    body that does not parse leaves the state as it is.  [now] is the
    instant [new Date()] reads and [newId] what [generateId()] returns. *)

(** [onDownloadMessage(body)] (lines 219-242) *)
Definition onDownloadMessage (st : State) (body : Body) : State :=
  match body with
  | JsonMessage msg =>
      match JS.truthy (BrowserMessage.url msg) with
      | None => st
      | Some url =>
          if isBlockedUrl st url then st
          else if negb (shouldInterceptUrl st url (BrowserMessage.contentType msg)) then st
          else
            emit (browser_download url (BrowserMessage.file msg)
                    (cleanHeaders (BrowserMessage.requestHeaders msg))
                    (BrowserMessage.cookie msg)
                    (BrowserMessage.tabUrl msg) (BrowserMessage.tabUrl msg))
                 st
      end
  | JsonArray _ => st      (* an array has no [url] *)
  | JsonOther => st        (* no [url] either, or a TypeError on null *)
  | SyntaxError => st
  end.

(** [msg.contentType || msg.responseHeaders?.['content-type'] ||
     msg.responseHeaders?.['Content-Type'] || ''] *)
Definition effectiveContentType (msg : BrowserMessage.t) : string :=
  match JS.truthy (BrowserMessage.contentType msg) with
  | Some c => c
  | None =>
      match JS.truthy (BrowserMessage.responseHeaders msg ≫= (.!! "content-type")) with
      | Some c => c
      | None =>
          JS.orElse (BrowserMessage.responseHeaders msg ≫= (.!! "Content-Type")) ""
      end
  end.

Definition mediaType (ct contentType url : string) (tabUrl : option string) : MediaType :=
  if isHLS contentType url then hls
  else if isDASH contentType url then dash
  else if isYouTube url tabUrl then youtube
  else if JS.startsWith ct "audio/" then audio
  else video.

Definition mediaName (type : MediaType) (file : option string) (url : string) : string :=
  match type, JS.truthy file with
  | youtube, Some f =>
      if negb (JS.includes f "/") then removeSuffix " - YouTube" f +:+ ".mp4"
      else getFileNameFromUrl url
  | _, _ => getFileNameFromUrl url
  end.

(** The base address an item already in the list is compared by. *)
Definition existingBase (existing : MediaItem.t) : string :=
  if isYouTube (MediaItem.url existing) (Some "")
  then getYouTubeBaseUrl (MediaItem.url existing)
  else MediaItem.url existing.

(** [onMediaMessage(body)] (lines 244-326) *)
Definition onMediaMessage (now : Z) (newId : string) (st : State) (body : Body)
  : State :=
  match body with
  | JsonMessage msg =>
      match JS.truthy (BrowserMessage.url msg) with
      | None => st
      | Some url =>
          let contentType := effectiveContentType msg in
          let contentLength :=
            match BrowserMessage.contentLength msg with
            | Some n => n
            | None => 0
            end in
          let ct := JS.toLowerCase contentType in
          if isWebResource ct then st
          else
            let isYouTubeStream := isYouTube url (BrowserMessage.tabUrl msg) in
            if negb isYouTubeStream && (0 <? contentLength) &&
               (contentLength <? 500 * 1024)
            then st
            else
              let type := mediaType ct contentType url (BrowserMessage.tabUrl msg) in
              let name := mediaName type (BrowserMessage.file msg) url in
              let description := getMediaDescription msg type in
              let dedupeUrl := if isYouTubeStream then getYouTubeBaseUrl url else url in
              let description' :=
                if isYouTubeStream then
                  match JS.truthy (BrowserMessage.quality msg) with
                  | Some q => description +:+ bullet +:+ q
                  | None =>
                      match JS.truthy (Some (getYouTubeQuality url)) with
                      | Some q => description +:+ bullet +:+ q
                      | None => description
                      end
                  end
                else description in
              let media :=
                MediaItem.mk newId name description'
                  (JS.orElse (BrowserMessage.tabUrl msg) "")
                  (JS.orElse (BrowserMessage.tabId msg) "")
                  now dedupeUrl None type contentLength contentType
                  (cleanHeaders (BrowserMessage.requestHeaders msg))
                  (BrowserMessage.cookie msg) in
              if existsb (λ kv, String.eqb (existingBase kv.2) dedupeUrl) (mediaList st)
              then st
              else emit (media_added media)
                        (set_mediaList (Map_set newId media (mediaList st)) st)
      end
  | JsonArray _ => st
  | JsonOther => st
  | SyntaxError => st
  end.

Definition onVideoDownloadMessage (st : State) (body : Body) : State :=
  match body with
  | JsonMessage msg =>
      match JS.truthy (BrowserMessage.vid msg) with
      | None => st
      | Some vid =>
          match Map_get vid (mediaList st) with
          | Some media => emit (media_download media) st
          | None => st
          end
      end
  | JsonArray _ => st
  | JsonOther => st
  | SyntaxError => st
  end.

Definition renamed (tabTitle : string) (media : MediaItem.t) : MediaItem.t :=
  let ext :=
    if JS.includes (MediaItem.name media) "."
    then "." +:+ lastPart "." (MediaItem.name media) else "" in
  MediaItem.mk (MediaItem.id media) (sanitizeFileName tabTitle +:+ ext)
    (MediaItem.description media) (MediaItem.tabUrl media) (MediaItem.tabId media)
    (MediaItem.dateAdded media) (MediaItem.url media) (MediaItem.audioUrl media)
    (MediaItem.type media)
    (MediaItem.size media) (MediaItem.contentType media) (MediaItem.headers media)
    (MediaItem.cookies media).

Definition onTabUpdateMessage (st : State) (body : Body) : State :=
  match body with
  | JsonMessage msg =>
      match JS.truthy (BrowserMessage.tabUrl msg), JS.truthy (BrowserMessage.tabTitle msg) with
      | Some tabUrl, Some tabTitle =>
          let touched (media : MediaItem.t) := String.eqb (MediaItem.tabUrl media) tabUrl in
          let list' :=
            (λ kv : string * MediaItem.t,
               if touched kv.2 then (kv.1, renamed tabTitle kv.2) else kv)
            <$> mediaList st in
          let events :=
            (λ kv : string * MediaItem.t, media_updated (renamed tabTitle kv.2))
            <$> filter (λ kv : string * MediaItem.t, touched kv.2 = true) (mediaList st) in
          {| config := config st; mediaList := list'; emitted := emitted st ++ events |}
      | _, _ => st
      end
  | JsonArray _ => st
  | JsonOther => st
  | SyntaxError => st
  end.

Definition onBatchMessage (st : State) (body : Body) : State :=
  match body with
  | JsonArray messages =>
      let links :=
        omap (λ msg,
                match JS.truthy (BrowserMessage.url msg) with
                | Some url =>
                    Some (url, BrowserMessage.file msg,
                          cleanHeaders (BrowserMessage.requestHeaders msg))
                | None => None
                end)
             messages in
      match links with
      | [] => st
      | _ => emit (browser_batch links) st
      end
  | JsonMessage _ => st    (* not an array *)
  | JsonOther => st
  | SyntaxError => st
  end.

(** *** The answer *)

Record VideoEntry := {
  v_id : string;
  v_text : string;
  v_info : string;
  v_tabId : string;
  v_size : Z;
  v_type : MediaType
}.

Record SyncSnapshot := {
  s_enabled : bool;
  s_fileExts : list string;
  s_blockedHosts : list string;
  s_requestFileExts : list string;
  s_mediaTypes : list string;
  s_tabsWatcher : list string;
  s_videoList : list VideoEntry;
  s_matchingHosts : list string
}.

Inductive ResponseBody :=
| NoBody
| Text (s : string)
| Json (snapshot : SyncSnapshot).

Record Response := {
  statusCode : Z;
  body : ResponseBody
}.

Definition syncSnapshot (st : State) : SyncSnapshot :=
  {| s_enabled := BrowserMonitorConfig.enabled (config st);
     s_fileExts := BrowserMonitorConfig.fileExtensions (config st);
     s_blockedHosts := BrowserMonitorConfig.blockedHosts (config st);
     s_requestFileExts := BrowserMonitorConfig.videoExtensions (config st);
     s_mediaTypes := BrowserMonitorConfig.mediaTypes (config st);
     s_tabsWatcher := BrowserMonitorConfig.tabsWatcher (config st);
     s_videoList :=
       (λ m, {| v_id := MediaItem.id m; v_text := MediaItem.name m;
                v_info := MediaItem.description m; v_tabId := MediaItem.tabId m;
                v_size := MediaItem.size m; v_type := MediaItem.type m |})
       <$> getMediaList st;
     s_matchingHosts := BrowserMonitorConfig.matchingHosts (config st) |}.

Definition sendSyncResponse (st : State) : Response :=
  {| statusCode := 200; body := Json (syncSnapshot st) |}.

(** The [switch] of [handleRequest] on the request path. *)
Definition dispatch (now : Z) (newId : string) (path : string) (st : State)
    (body : Body) : State :=
  if String.eqb path "/sync" then st
  else if String.eqb path "/download" then onDownloadMessage st body
  else if String.eqb path "/media" then onMediaMessage now newId st body
  else if String.eqb path "/vid" then onVideoDownloadMessage st body
  else if String.eqb path "/tab-update" then onTabUpdateMessage st body
  else if String.eqb path "/clear" then clearMediaList st
  else if String.eqb path "/link" then onBatchMessage st body
  else st.

(** [handleRequest(req, res)] (lines 164-217), once the body has arrived.  The handlers
    catch what they throw, so the [catch] that answers 500 is not reached
    from them. *)
Definition handleRequest (now : Z) (newId : string) (st : State) (req : Request)
  : State * Response :=
  if String.eqb (req_method req) "OPTIONS" then
    (st, {| statusCode := 204; body := NoBody |})
  else
    let path := JS.orElse (req_url req) "/" in
    let st' := dispatch now newId path st (req_body req) in
    (st', sendSyncResponse st').

End WithPlatform.

End Monitor.

(* ===================================================================== *)
(** ** A sample platform *)
(* ===================================================================== *)

(** A small stand-in for Node's [URL] class, exact on plain [http] and
    [https] addresses (no escapes, user info, dot segments or relative
    references).  It serves to run the handlers on concrete messages;
    every statement below holds for any platform. *)

Module Sample.

(** [s] cut at the first [c]: the part before, and the part from [c] on. *)
Fixpoint cutAt (c : ascii) (s : string) : string * string :=
  match s with
  | EmptyString => (EmptyString, EmptyString)
  | String a s' =>
      if Ascii.eqb a c then (EmptyString, s)
      else let '(l, r) := cutAt c s' in (String a l, r)
  end.

Definition dropFirst (s : string) : string :=
  match s with
  | EmptyString => EmptyString
  | String _ r => r
  end.

(** The port of a URL: empty when it is the default of the scheme. *)
Definition explicitPort (protocol port : string) : string :=
  if (String.eqb protocol "https:" && String.eqb port "443") ||
     (String.eqb protocol "http:" && String.eqb port "80")
  then "" else port.

Definition parseAuthority (protocol rest hash : string) : option URL.t :=
  let '(front, search) := cutAt "?" rest in
  let '(authority, path) := cutAt "/" front in
  let '(host, port) := cutAt ":" authority in
  match host with
  | EmptyString => None
  | _ =>
      Some (URL.mk protocol (JS.toLowerCase host)
              (explicitPort protocol (dropFirst port))
              (match path with EmptyString => "/" | _ => path end)
              (match search with "?" => "" | _ => search end)
              (match hash with "#" => "" | _ => hash end))
  end.

Definition parse (s : string) : option URL.t :=
  let '(main, hash) := cutAt "#" s in
  match Monitor.stripPrefix "https://" main, Monitor.stripPrefix "http://" main with
  | Some rest, _ => parseAuthority "https:" rest hash
  | None, Some rest => parseAuthority "http:" rest hash
  | None, None => None
  end.

Definition toString (u : URL.t) : string :=
  URL.protocol u +:+ "//" +:+ URL.hostname u +:+
  (match URL.port u with EmptyString => "" | p => ":" +:+ p end) +:+
  URL.pathname u +:+ URL.search u +:+ URL.hash u.

Definition parsePair (s : string) : string * string :=
  let '(k, v) := cutAt "=" s in (k, dropFirst v).

Definition parseParams (search : string) : list (string * string) :=
  parsePair <$>
    filter (λ s, s ≠ EmptyString) (JS.split "&" (dropFirst search)).

Definition serializeParams (l : list (string * string)) : string :=
  match l with
  | [] => ""
  | _ => "?" +:+ Monitor.join "&" ((λ kv, kv.1 +:+ "=" +:+ kv.2) <$> l)
  end.

Definition resolve (relative base : string) : option string :=
  toString <$> parse relative.

Definition decode (s : string) : option string :=
  if JS.includes s "%" then None else Some s.

(** [formatSize] in exact arithmetic: one decimal, rounded half up. *)
Definition formatFloat (bytes : Z) : string :=
  let '(unit, name) :=
    if bytes <? 1024 then (1, "B")
    else if bytes <? 1024 * 1024 then (1024, "KB")
    else if bytes <? 1024 * 1024 * 1024 then (1024 * 1024, "MB")
    else (1024 * 1024 * 1024, "GB") in
  let tenths := (bytes * 20 + unit) / (2 * unit) in
  pretty (tenths / 10) +:+
  (if tenths mod 10 =? 0 then "" else "." +:+ pretty (tenths mod 10)) +:+
  " " +:+ name.

Definition platform : Platform :=
  {| URL_parse := parse;
     URL_resolve := resolve;
     URL_toString := toString;
     searchParams_parse := parseParams;
     searchParams_serialize := serializeParams;
     decodeURIComponent := decode;
     formatSizeFloat := formatFloat |}.

End Sample.

(* ===================================================================== *)
(** ** Sample downloads, schedules and messages *)
(* ===================================================================== *)

Module Examples.

Definition sampleIds (i : nat) : string := "seg" +:+ pretty i.

(** A megabyte behind a server that honours ranges, four connections
    allowed. *)
Definition added (id url fileName : string) (fileSize : Z) (resumable : bool)
    (headers : option (gmap string string)) : DownloadItem.t :=
  Engine.newDownloadItem id url fileName fileSize other "2026-01-01T00:00:00.000Z"
    "/tmp" resumable 4 headers.

Definition megabyte : DownloadItem.t :=
  added "d0" "http://host/m.bin" "m.bin" 1000000 true None.

(** A download of 100 bytes whose only response ends after 40. *)
Definition shortItem : DownloadItem.t :=
  added "d1" "http://host/f.bin" "f.bin" 100 true None.

Definition st0 : Engine.State :=
  {| Engine.downloads := {[ "d1" := shortItem ]};
     Engine.activeDownloads := ∅;
     Engine.emitted := [] |}.

Definition st1 : Engine.State :=
  (Engine.startDownload Sample.platform 1000 sampleIds "d1" st0).1.

Definition st2 : Engine.State :=
  (Engine.onResponse Sample.platform "d1" 0 206 None st1).1.

Definition st3 : Engine.State :=
  Engine.onData "d1" 0 (repeat Byte.x5a 40) st2.

Definition st4 : Engine.State := Engine.onEnd "d1" 0 st3.

(** The item of [st3]: running, 40 of 100 bytes in. *)
Definition runningItem : DownloadItem.t :=
  Engine.set_status downloading
    (Engine.set_downloaded 40
       (Engine.set_segments [ DownloadSegment.mk "seg0" 0 100 40 Engine.Downloading 40 ]
          shortItem)).

(** A failed download: one segment done, one failed, one cut off. *)
Definition failedItem : DownloadItem.t :=
  Engine.set_error (Some "Some segments failed to download")
    (Engine.set_status failed
       (Engine.set_downloaded 170
          (Engine.set_segments
             [ DownloadSegment.mk "a" 0 100 100 Engine.Finished 0;
               DownloadSegment.mk "b" 100 100 60 Engine.Failed 0;
               DownloadSegment.mk "c" 200 100 10 Engine.Downloading 0 ]
             (added "d2" "http://host/g.bin" "g.bin" 300 true None)))).

Definition stFailed : Engine.State :=
  {| Engine.downloads := {[ "d2" := failedItem ]};
     Engine.activeDownloads := ∅;
     Engine.emitted := [] |}.

(** A download added with credentials of the caller's own. *)
Definition authItem : DownloadItem.t :=
  added "d3" "http://host/private.bin" "private.bin" (-1) false
    (Some {[ "Authorization" := "Bearer t"; "Accept" := "*/*" ]}).

Definition stAuth : Engine.State :=
  {| Engine.downloads := {[ "d3" := authItem ]};
     Engine.activeDownloads := ∅;
     Engine.emitted := [] |}.

Definition wholeFile : DownloadSegment.t := DownloadSegment.mk "seg0" 0 (-1) 0 0 0.

(** Response headers of an empty file, and of a ranged megabyte. *)
Definition emptyFileHeaders : gmap string string := {[ "content-length" := "0" ]}.

Definition rangedHeaders : gmap string string :=
  {[ "accept-ranges" := "bytes"; "content-length" := "1000000" ]}.

Definition rangedProbe : Engine.ProbeResult :=
  {| Engine.probe_fileSize := Some 1000000;
     Engine.probe_resumable := true;
     Engine.probe_finalUrl := "http://host/f.bin" |}.

(** Friday from 22:00, over midnight, to 02:00. *)
Definition fridayNight : QueueSchedule.t :=
  QueueSchedule.mk true (Queue.HHmm 22 0) (Queue.HHmm 2 0) [5].

Definition friday2330 : Queue.LocalTime :=
  {| Queue.getDay := 5; Queue.getHours := 23; Queue.getMinutes := 30 |}.

Definition emptyMonitor : Monitor.State :=
  {| Monitor.config := Monitor.DEFAULT_CONFIG;
     Monitor.mediaList := [];
     Monitor.emitted := [] |}.

Definition malformedDownload : Monitor.Request :=
  {| Monitor.req_method := "POST";
     Monitor.req_url := Some "/download";
     Monitor.req_body := Monitor.SyntaxError |}.

(** A 20 kB clip from a site that is not YouTube. *)
Definition thumbnail : BrowserMessage.t :=
  BrowserMessage.mk (Some "https://cdn.example.com/clip.mp4") None None None None None
    (Some "https://example.com/page") None None None (Some "video/mp4") (Some 20000) None.

(** One ranged request of a YouTube player. *)
Definition chunk (range : string) (contentType : string) : BrowserMessage.t :=
  BrowserMessage.mk
    (Some ("https://rr1---sn-x.googlevideo.com/videoplayback?itag=137&range=" +:+ range))
    (Some "Big Buck Bunny - YouTube") None None None None
    (Some "https://www.youtube.com/watch?v=abc") None (Some "7") None
    (Some contentType) (Some 65536) None.


(** Two such requests, one after the other, on an empty list. *)
Definition afterTwo (contentType : string) : Monitor.State :=
  Monitor.onMediaMessage Sample.platform 2000 "m2"
    (Monitor.onMediaMessage Sample.platform 1000 "m1" emptyMonitor
       (Monitor.JsonMessage (chunk "0-65535" contentType)))
    (Monitor.JsonMessage (chunk "65536-131071" contentType)).

End Examples.

(* ===================================================================== *)
(** ** The download engine: load, pause, resume, cancel, remove, settle *)
(* ===================================================================== *)

Module DownloadProgress.
Record t := mk {
  id : string;
  downloaded : Z;
  progress : Z;
  speed : Z;
  eta : Z;
  segments : list DownloadSegment.t;
  status : DownloadStatus
}.
End DownloadProgress.

Module Lifecycle.

Import DownloadItem.

Definition set_progress (v : Z) (d : DownloadItem.t) : DownloadItem.t :=
  mk (id d) (url d) (fileName d) (fileSize d) (downloaded d) v (speed d)
     (eta d) (status d) (category d) (dateAdded d) (dateCompleted d)
     (savePath d) (resumable d) (segments d) (maxSegments d) (error d)
     (headers d) (userAgent d) (referer d).

Definition set_speed (v : Z) (d : DownloadItem.t) : DownloadItem.t :=
  mk (id d) (url d) (fileName d) (fileSize d) (downloaded d) (progress d) v
     (eta d) (status d) (category d) (dateAdded d) (dateCompleted d)
     (savePath d) (resumable d) (segments d) (maxSegments d) (error d)
     (headers d) (userAgent d) (referer d).

Definition set_eta (v : Z) (d : DownloadItem.t) : DownloadItem.t :=
  mk (id d) (url d) (fileName d) (fileSize d) (downloaded d) (progress d)
     (speed d) v (status d) (category d) (dateAdded d) (dateCompleted d)
     (savePath d) (resumable d) (segments d) (maxSegments d) (error d)
     (headers d) (userAgent d) (referer d).

Definition set_dateCompleted (v : option string) (d : DownloadItem.t) : DownloadItem.t :=
  mk (id d) (url d) (fileName d) (fileSize d) (downloaded d) (progress d)
     (speed d) (eta d) (status d) (category d) (dateAdded d) v (savePath d)
     (resumable d) (segments d) (maxSegments d) (error d) (headers d)
     (userAgent d) (referer d).

(** The events of the operations of this module, in the order they are
    emitted; each operation returns them beside the state. *)
Inductive Event :=
| download_paused (item : DownloadItem.t)
| download_progress (progress : DownloadProgress.t)
| download_cancelled (id : string)
| download_removed (id : string)
| download_completed (item : DownloadItem.t)
| download_failed (id : string) (error : string).

(** [emitProgress(item)] (lines 585-596) *)
Definition emitProgress (item : DownloadItem.t) : Event :=
  download_progress
    (DownloadProgress.mk (id item) (downloaded item) (progress item) (speed item)
       (eta item) (segments item) (status item)).

(** *** Load (lines 133-151)

    [data] is what [JSON.parse] reads from [downloads.json], taken at its
    declared type; [None] when the file is missing or does not parse. *)

Definition recovered (item : DownloadItem.t) : DownloadItem.t :=
  match status item with
  | downloading | assembling =>
      set_eta 0 (set_speed 0 (Engine.set_status paused item))
  | _ => item
  end.

Definition loadState (data : option (list DownloadItem.t))
  : gmap string DownloadItem.t :=
  match data with
  | Some items => foldl (λ m item, <[ id item := recovered item ]> m) ∅ items
  | None => ∅
  end.

(** The engine as its constructor leaves it. *)
Definition newEngine (data : option (list DownloadItem.t)) : Engine.State :=
  {| Engine.downloads := loadState data;
     Engine.activeDownloads := ∅;
     Engine.emitted := [] |}.

(** *** Pause (lines 601-625) *)

(** [controller.abort()] on every controller of an active download. *)
Definition abortAll (a : Engine.ActiveDownload) : Engine.ActiveDownload :=
  Engine.set_abortControllers ((λ _ : bool, true) <$> Engine.abortControllers a) a.

Definition pauseDownload (id : string) (st : Engine.State)
  : Engine.State * list Event * option DownloadItem.t :=
  match Engine.downloads st !! id with
  | None => (st, [], None)
  | Some item =>
      let item' := set_eta 0 (set_speed 0 (Engine.set_status paused item)) in
      ({| Engine.downloads := <[ id := item' ]> (Engine.downloads st);
          Engine.activeDownloads := alter abortAll id (Engine.activeDownloads st);
          Engine.emitted := Engine.emitted st |},
       [ download_paused item'; emitProgress item' ],
       Some item')
  end.

(** *** Resume (lines 630-643), up to the first [await] of the
    [startDownload] it ends with *)

Definition resumeSegment (segment : DownloadSegment.t) : DownloadSegment.t :=
  if DownloadSegment.state segment =? Engine.Failed
  then Engine.seg_set_state Engine.NotStarted segment
  else segment.

Definition resumeDownload (P : Platform) (now : Z) (ids : nat → string)
    (id : string) (st : Engine.State) : Engine.State * Engine.Settled :=
  match Engine.downloads st !! id with
  | None => (st, Engine.Returned None)
  | Some item =>
      match status item with
      | paused | failed =>
          Engine.startDownload P now ids id
            {| Engine.downloads :=
                 <[ id := Engine.set_segments (resumeSegment <$> segments item) item ]>
                   (Engine.downloads st);
               Engine.activeDownloads := Engine.activeDownloads st;
               Engine.emitted := Engine.emitted st |}
      | _ => (st, Engine.Returned (Some item))
      end
  end.

(** *** Cancel (lines 648-673) and remove (lines 678-692) *)

Definition cancelDownload (id : string) (st : Engine.State)
  : Engine.State * list Event * bool :=
  match Engine.downloads st !! id with
  | None => (st, [], false)
  | Some item =>
      let item' := set_speed 0 (Engine.set_status stopped item) in
      ({| Engine.downloads := <[ id := item' ]> (Engine.downloads st);
          Engine.activeDownloads := alter abortAll id (Engine.activeDownloads st);
          Engine.emitted := Engine.emitted st |},
       [ download_cancelled id ],
       true)
  end.

(** [removeDownload(id, deleteFile)]; the file it may unlink is not part
    of the state.  The [await] on [cancelDownload], which has settled by
    then, only defers the rest. *)
Definition removeDownload (id : string) (st : Engine.State)
  : Engine.State * list Event * bool :=
  let '(st1, events, _) := cancelDownload id st in
  ({| Engine.downloads := delete id (Engine.downloads st1);
      Engine.activeDownloads := delete id (Engine.activeDownloads st1);
      Engine.emitted := Engine.emitted st1 |},
   events ++ [ download_removed id ],
   true).

(** *** The end of [startDownload] (lines 507-557)

    What runs once every worker has settled.  [io] is the outcome of the
    file work ([None] when it succeeds, the message of the error it throws
    otherwise), [nowIso] what [new Date().toISOString()] returns, and
    [noSegment] the message of the [TypeError] that reading the [id] of a
    missing first segment raises.  The continuation holds the item itself;
    it is embedded for a download the engine still lists, and is [None]
    otherwise. *)

Definition allDone (item : DownloadItem.t) : bool :=
  forallb (λ s, DownloadSegment.state s =? Engine.Finished) (segments item).

Definition isHalted (item : DownloadItem.t) : bool :=
  match status item with
  | paused | stopped => true
  | _ => false
  end.

(** [err.message || 'Download failed'] *)
Definition failureMessage (message : string) : string :=
  JS.orElse (Some message) "Download failed".

(** The [catch] block. *)
Definition caught (message : string) (item : DownloadItem.t)
  : DownloadItem.t * list Event :=
  if isHalted item then (item, [])
  else
    let error := failureMessage message in
    (Engine.set_error (Some error) (Engine.set_status failed item),
     [ download_failed (id item) error ]).

(** The success path after the file work. *)
Definition complete (nowIso : string) (item : DownloadItem.t)
  : DownloadItem.t * list Event :=
  let item' :=
    set_dateCompleted (Some nowIso)
      (set_eta 0 (set_speed 0 (set_progress 100 (Engine.set_status completed item)))) in
  (item', [ download_completed item' ]).

(** The [finally] block. *)
Definition finish (id : string) (st : Engine.State) (r : DownloadItem.t * list Event)
  : Engine.State * list Event :=
  let item' := set_speed 0 r.1 in
  ({| Engine.downloads := <[ id := item' ]> (Engine.downloads st);
      Engine.activeDownloads := delete id (Engine.activeDownloads st);
      Engine.emitted := Engine.emitted st |},
   r.2 ++ [ emitProgress item' ]).

(** From the join of the workers to the end, or to the [await] inside
    [assembleFile] when there are several segments. *)
Definition onWorkersSettled (noSegment nowIso : string) (io : option string)
    (id : string) (st : Engine.State) : option (Engine.State * list Event) :=
  match Engine.downloads st !! id with
  | None => None
  | Some item =>
      if allDone item then
        match segments item with
        | [] => Some (finish id st (caught noSegment item))
        | [_] =>
            match io with
            | None => Some (finish id st (complete nowIso item))
            | Some message => Some (finish id st (caught message item))
            end
        | _ :: _ :: _ =>
            let item' := Engine.set_status assembling item in
            Some ({| Engine.downloads := <[ id := item' ]> (Engine.downloads st);
                     Engine.activeDownloads := Engine.activeDownloads st;
                     Engine.emitted := Engine.emitted st |},
                  [ emitProgress item' ])
        end
      else if isHalted item then Some (finish id st (item, []))
      else
        let error := "Some segments failed to download" in
        Some (finish id st
                (Engine.set_error (Some error) (Engine.set_status failed item),
                 [ download_failed id error ]))
  end.

(** From the end of [assembleFile] to the end. *)
Definition onAssembled (nowIso : string) (io : option string)
    (id : string) (st : Engine.State) : option (Engine.State * list Event) :=
  match Engine.downloads st !! id with
  | None => None
  | Some item =>
      match io with
      | None => Some (finish id st (complete nowIso item))
      | Some message => Some (finish id st (caught message item))
      end
  end.

(** The rejection handler [startDownload] installs on every worker (lines
    499-502).  It runs when [downloadSegment] rejects: at once after the
    start when [new URL(item.url)] or [client.request] throws, later on an
    error, a timeout or an answer of 400 or more. *)
Definition onRejected (dl : string) (i : nat) (st : Engine.State) : Engine.State :=
  Engine.update_item (Engine.update_segment (Engine.seg_set_state Engine.Failed) i) dl st.

(** *** Notions the properties are stated with *)

(** The item [startDownload] leaves behind when it starts one. *)
Definition started (ids : nat → string) (item : DownloadItem.t) : DownloadItem.t :=
  Engine.set_error None
    (Engine.set_status downloading
       (match segments item with
        | [] => Engine.set_segments (Engine.initializeSegments ids item) item
        | _ => item
        end)).


(** Segments that still have to be fetched, with their indices. *)
Definition unfinished (item : DownloadItem.t) : list (nat * DownloadSegment.t) :=
  filter (λ p, DownloadSegment.state p.2 ≠ Engine.Finished)
         (imap (λ i s, (i, s)) (segments item)).

(** The operations of the engine and the callbacks of its workers, as
    one type, to state what all of them keep. *)
Inductive Operation :=
| StartDownload (now : Z) (ids : nat → string) (id : string)
| RetryDownload (now : Z) (ids : nat → string) (id : string)
| ResumeDownload (now : Z) (ids : nat → string) (id : string)
| PauseDownload (id : string)
| CancelDownload (id : string)
| RemoveDownload (id : string)
| OnResponse (dl : string) (i : nat) (statusCode : Z) (location : option string)
| OnData (dl : string) (i : nat) (chunk : list Byte.byte)
| OnEnd (dl : string) (i : nat)
| OnError (dl : string) (i : nat)
| OnTimeout (dl : string) (i : nat)
| OnRejected (dl : string) (i : nat)
| OnWorkersSettled (noSegment nowIso : string) (io : option string) (id : string)
| OnAssembled (nowIso : string) (io : option string) (id : string).

Definition run (P : Platform) (op : Operation) (st : Engine.State) : Engine.State :=
  match op with
  | StartDownload now ids id => (Engine.startDownload P now ids id st).1
  | RetryDownload now ids id => (Engine.retryDownload P now ids id st).1
  | ResumeDownload now ids id => (resumeDownload P now ids id st).1
  | PauseDownload id => (pauseDownload id st).1.1
  | CancelDownload id => (cancelDownload id st).1.1
  | RemoveDownload id => (removeDownload id st).1.1
  | OnResponse dl i statusCode location =>
      (Engine.onResponse P dl i statusCode location st).1
  | OnData dl i chunk => Engine.onData dl i chunk st
  | OnEnd dl i => Engine.onEnd dl i st
  | OnError dl i => Engine.onError dl i st
  | OnTimeout dl i => Engine.onTimeout dl i st
  | OnRejected dl i => onRejected dl i st
  | OnWorkersSettled noSegment nowIso io id =>
      match onWorkersSettled noSegment nowIso io id st with
      | Some r => r.1
      | None => st
      end
  | OnAssembled nowIso io id =>
      match onAssembled nowIso io id st with
      | Some r => r.1
      | None => st
      end
  end.



End Lifecycle.

(* ===================================================================== *)
(** ** The queue manager: its queues and their members *)
(* ===================================================================== *)

(** The rest of [electron/queue-manager.ts].  The queues are a [Map] in
    insertion order, an association list as for the media list. *)

Module QueueUpdates.
(** A [Partial<DownloadQueue>]: [None] is a property that is absent. *)
Record t := mk {
  id : option string;
  name : option string;
  downloadIds : option (list string);
  maxConcurrent : option Z;
  enabled : option bool;
  schedule : option (option QueueSchedule.t)
}.
End QueueUpdates.

Module QueueManager.

Inductive Event :=
| queue_created (queue : DownloadQueue.t)
| queue_updated (queue : DownloadQueue.t)
| queue_deleted (id : string)
| queue_schedule_check (queueId : string) (active : bool) (queueName : string).

Record State := {
  queues : list (string * DownloadQueue.t);
  emitted : list Event
}.

Definition set_downloadIds (v : list string) (q : DownloadQueue.t) : DownloadQueue.t :=
  DownloadQueue.mk (DownloadQueue.id q) (DownloadQueue.name q) v
    (DownloadQueue.maxConcurrent q) (DownloadQueue.enabled q) (DownloadQueue.schedule q).

Definition set_schedule (v : option QueueSchedule.t) (q : DownloadQueue.t)
  : DownloadQueue.t :=
  DownloadQueue.mk (DownloadQueue.id q) (DownloadQueue.name q)
    (DownloadQueue.downloadIds q) (DownloadQueue.maxConcurrent q)
    (DownloadQueue.enabled q) v.

(** [map.delete(k)]: whether the key was there, and the map without it. *)
Fixpoint Map_delete {A} (k : string) (m : list (string * A)) : bool * list (string * A) :=
  match m with
  | [] => (false, [])
  | (k', v') :: r =>
      if String.eqb k k' then (true, r)
      else let '(found, r') := Map_delete k r in (found, (k', v') :: r')
  end.

Definition newQueue (id name : string) (maxConcurrent : Z) : DownloadQueue.t :=
  DownloadQueue.mk id name [] maxConcurrent true None.

(** The constructor (lines 40-58): [loaded] is what [queues.json] holds,
    [None] when it is missing or does not parse; [freshId] is the id made
    for the default queue. *)
Definition loadQueues (loaded : option (list DownloadQueue.t))
  : list (string * DownloadQueue.t) :=
  match loaded with
  | Some data => foldl (λ m q, Monitor.Map_set (DownloadQueue.id q) q m) [] data
  | None => []
  end.

Definition newManager (loaded : option (list DownloadQueue.t)) (freshId : string) : State :=
  match loadQueues loaded with
  | [] =>
      {| queues := [ (freshId, newQueue freshId "Default Queue" 3) ]; emitted := [] |}
  | qs => {| queues := qs; emitted := [] |}
  end.

Definition getQueues (st : State) : list DownloadQueue.t := snd <$> queues st.

Definition getQueue (st : State) (id : string) : option DownloadQueue.t :=
  Monitor.Map_get id (queues st).

(** [getDefaultQueue()]: the first queue; [None] is [undefined]. *)
Definition getDefaultQueue (st : State) : option DownloadQueue.t :=
  head (getQueues st).

Definition emit (e : Event) (st : State) : State :=
  {| queues := queues st; emitted := emitted st ++ [e] |}.

Definition set_queues (v : list (string * DownloadQueue.t)) (st : State) : State :=
  {| queues := v; emitted := emitted st |}.

(** [createQueue(name, maxConcurrent)] (lines 87-100) *)
Definition createQueue (freshId name : string) (maxConcurrent : Z) (st : State)
  : State * DownloadQueue.t :=
  let queue := newQueue freshId name maxConcurrent in
  (emit (queue_created queue)
     (set_queues (Monitor.Map_set freshId queue (queues st)) st),
   queue).

(** [Object.assign(queue, updates)] *)
Definition assign (updates : QueueUpdates.t) (q : DownloadQueue.t) : DownloadQueue.t :=
  DownloadQueue.mk
    (default (DownloadQueue.id q) (QueueUpdates.id updates))
    (default (DownloadQueue.name q) (QueueUpdates.name updates))
    (default (DownloadQueue.downloadIds q) (QueueUpdates.downloadIds updates))
    (default (DownloadQueue.maxConcurrent q) (QueueUpdates.maxConcurrent updates))
    (default (DownloadQueue.enabled q) (QueueUpdates.enabled updates))
    (default (DownloadQueue.schedule q) (QueueUpdates.schedule updates)).

(** [updateQueue(id, updates)] (lines 102-109) *)
Definition updateQueue (id : string) (updates : QueueUpdates.t) (st : State)
  : State * option DownloadQueue.t :=
  match getQueue st id with
  | None => (st, None)
  | Some queue =>
      let queue' := assign updates queue in
      (emit (queue_updated queue')
         (set_queues (Monitor.Map_set id queue' (queues st)) st),
       Some queue')
  end.

(** [deleteQueue(id)] (lines 111-119) *)
Definition deleteQueue (id : string) (st : State) : State * bool :=
  if (List.length (queues st) <=? 1)%nat then (st, false)
  else
    match Map_delete id (queues st) with
    | (true, qs) => (emit (queue_deleted id) (set_queues qs st), true)
    | (false, _) => (st, false)
    end.

(** The loop that pushes every id the queue does not include yet. *)
Definition pushNew (ids : list string) (members : list string) : list string :=
  foldl (λ l id, if bool_decide (id ∈ l) then l else l ++ [id]) members ids.

Definition without (ids : list string) (q : DownloadQueue.t) : DownloadQueue.t :=
  set_downloadIds (filter (λ id, id ∉ ids) (DownloadQueue.downloadIds q)) q.

(** [addToQueue(queueId, downloadIds)] (lines 121-141) *)
Definition addToQueue (queueId : string) (downloadIds : list string) (st : State)
  : State * bool :=
  match getQueue st queueId with
  | None => (st, false)
  | Some _ =>
      let removed :=
        (λ kv : string * DownloadQueue.t, (kv.1, without downloadIds kv.2))
        <$> queues st in
      match Monitor.Map_get queueId removed with
      | None => (st, false)
      | Some queue =>
          let queue' :=
            set_downloadIds (pushNew downloadIds (DownloadQueue.downloadIds queue)) queue in
          (emit (queue_updated queue')
             (set_queues (Monitor.Map_set queueId queue' removed) st),
           true)
      end
  end.

(** [removeFromQueue(queueId, downloadId)] (lines 143-149) *)
Definition removeFromQueue (queueId downloadId : string) (st : State) : State * bool :=
  match getQueue st queueId with
  | None => (st, false)
  | Some queue =>
      (set_queues (Monitor.Map_set queueId (without [downloadId] queue) (queues st)) st,
       true)
  end.

(** [removeFinishedDownload(downloadId)] (lines 151-156) *)
Definition removeFinishedDownload (downloadId : string) (st : State) : State :=
  set_queues
    ((λ kv : string * DownloadQueue.t, (kv.1, without [downloadId] kv.2)) <$> queues st)
    st.

(** [setSchedule(queueId, schedule)] (lines 158-165) *)
Definition setSchedule (queueId : string) (schedule : option QueueSchedule.t)
    (st : State) : State * bool :=
  match getQueue st queueId with
  | None => (st, false)
  | Some queue =>
      let queue' := set_schedule schedule queue in
      (emit (queue_updated queue')
         (set_queues (Monitor.Map_set queueId queue' (queues st)) st),
       true)
  end.

(** [checkSchedules()] (lines 182-193) *)
Definition checkSchedules (now : Queue.LocalTime) (st : State) : State :=
  {| queues := queues st;
     emitted :=
       emitted st ++
       omap (λ kv : string * DownloadQueue.t,
               match DownloadQueue.schedule kv.2 with
               | Some schedule =>
                   if QueueSchedule.enabled schedule
                   then Some (queue_schedule_check (DownloadQueue.id kv.2)
                                (Queue.isWithinSchedule schedule now)
                                (DownloadQueue.name kv.2))
                   else None
               | None => None
               end)
            (queues st) |}.

(** [getNextDownloadIds(queueId, currentActiveCount)] on the manager's own
    map. *)
Definition getNextDownloadIds (st : State) (now : Queue.LocalTime)
    (queueId : string) (currentActiveCount : Z) : list string :=
  Queue.getNextDownloadIds (list_to_map (queues st)) now queueId currentActiveCount.

(** *** Notions the properties are stated with *)

(** The operations that change the queues, as one type. *)
Inductive Operation :=
| CreateQueue (freshId name : string) (maxConcurrent : Z)
| UpdateQueue (id : string) (updates : QueueUpdates.t)
| DeleteQueue (id : string)
| AddToQueue (queueId : string) (downloadIds : list string)
| RemoveFromQueue (queueId downloadId : string)
| RemoveFinishedDownload (downloadId : string)
| SetSchedule (queueId : string) (schedule : option QueueSchedule.t)
| CheckSchedules (now : Queue.LocalTime).

Definition run (op : Operation) (st : State) : State :=
  match op with
  | CreateQueue freshId name maxConcurrent => (createQueue freshId name maxConcurrent st).1
  | UpdateQueue id updates => (updateQueue id updates st).1
  | DeleteQueue id => (deleteQueue id st).1
  | AddToQueue queueId downloadIds => (addToQueue queueId downloadIds st).1
  | RemoveFromQueue queueId downloadId => (removeFromQueue queueId downloadId st).1
  | RemoveFinishedDownload downloadId => removeFinishedDownload downloadId st
  | SetSchedule queueId schedule => (setSchedule queueId schedule st).1
  | CheckSchedules now => checkSchedules now st
  end.

(** The members of all queues, queue after queue. *)
Definition membersOf (m : list (string * DownloadQueue.t)) : list string :=
  concat ((λ kv : string * DownloadQueue.t, DownloadQueue.downloadIds kv.2) <$> m).

Definition members (st : State) : list string := membersOf (queues st).

(** Invariant I4, with the keys of the map distinct: no download is a
    member twice, of one queue or of two. *)
Definition exclusive (st : State) : Prop :=
  NoDup (fst <$> queues st) ∧ NoDup (members st).

End QueueManager.

(* ===================================================================== *)
(** ** What the monitor holds and hands on *)
(* ===================================================================== *)

(** Notions the properties of the ingestion endpoint are stated with. *)

Module MediaStore.

(** No header of [h] has a blocked name, in any case of letters. *)
Definition cleanMap (h : gmap string string) : Prop :=
  ∀ k, is_Some (h !! k) → JS.toLowerCase k ∉ Monitor.blocked.

(** The headers an event carries are clean. *)
Definition cleanEvent (e : Monitor.Event) : Prop :=
  match e with
  | Monitor.browser_download _ _ headers _ _ _ => cleanMap headers
  | Monitor.media_added media => cleanMap (MediaItem.headers media)
  | Monitor.media_download media => cleanMap (MediaItem.headers media)
  | Monitor.media_updated media => cleanMap (MediaItem.headers media)
  | Monitor.browser_batch links =>
      Forall (λ link : string * option string * gmap string string, cleanMap link.2) links
  | Monitor.media_cleared => True
  end.

Definition clean (st : Monitor.State) : Prop :=
  Forall (λ kv : string * MediaItem.t, cleanMap (MediaItem.headers kv.2))
         (Monitor.mediaList st) ∧
  Forall cleanEvent (Monitor.emitted st).

(** The addresses of the media held, in the order of the map. *)
Definition urls (st : Monitor.State) : list string :=
  (λ kv : string * MediaItem.t, MediaItem.url kv.2) <$> Monitor.mediaList st.

(** Newest first. *)
Definition newestFirst (l : list MediaItem.t) : Prop :=
  StronglySorted (λ a b, MediaItem.dateAdded b <= MediaItem.dateAdded a) l.

(** The characters [sanitizeFileName] replaces. *)
Definition reserved : list ascii :=
  [ "<"; ">"; ":"; Monitor.doubleQuote; "/"; "\"; "|"; "?"; "*" ]%char.

Section WithPlatform.

Context (P : Platform).

Import Monitor.

(** What one request can do to the state, handler by handler: the
    properties below are shown once for each of these. *)
Inductive Effect (now : Z) (newId : string) (path : string) (body : Body)
    (st : State) : State → Prop :=
| Untouched : Effect now newId path body st st
| Intercepted url file headers cookies referer tabUrl :
    Effect now newId path body st
      (emit (browser_download url file (cleanHeaders headers) cookies referer tabUrl) st)
| Added msg url media :
    body = JsonMessage msg →
    JS.truthy (BrowserMessage.url msg) = Some url →
    MediaItem.headers media = cleanHeaders (BrowserMessage.requestHeaders msg) →
    MediaItem.url media
    = (if isYouTube url (BrowserMessage.tabUrl msg) then getYouTubeBaseUrl P url else url) →
    existsb (λ kv : string * MediaItem.t,
               String.eqb (existingBase P kv.2) (MediaItem.url media))
            (mediaList st) = false →
    Effect now newId path body st
      (emit (media_added media) (set_mediaList (Map_set newId media (mediaList st)) st))
| Requested vid media :
    Map_get vid (mediaList st) = Some media →
    Effect now newId path body st (emit (media_download media) st)
| Renamed tabUrl tabTitle :
    Effect now newId path body st
      {| config := config st;
         mediaList :=
           (λ kv : string * MediaItem.t,
              if String.eqb (MediaItem.tabUrl kv.2) tabUrl
              then (kv.1, renamed tabTitle kv.2) else kv) <$> mediaList st;
         emitted :=
           emitted st ++
           ((λ kv : string * MediaItem.t, media_updated (renamed tabTitle kv.2)) <$>
            filter (λ kv : string * MediaItem.t,
                      String.eqb (MediaItem.tabUrl kv.2) tabUrl = true) (mediaList st)) |}
| Cleared : path = "/clear" → Effect now newId path body st (clearMediaList st)
| Batched messages :
    Effect now newId path body st
      (emit (browser_batch
               (omap (λ msg,
                        match JS.truthy (BrowserMessage.url msg) with
                        | Some url =>
                            Some (url, BrowserMessage.file msg,
                                  cleanHeaders (BrowserMessage.requestHeaders msg))
                        | None => None
                        end) messages)) st).

End WithPlatform.

End MediaStore.

(* ===================================================================== *)
(** ** More samples: downloads at rest, queues, requests *)
(* ===================================================================== *)

Module MoreExamples.

(** What [downloads.json] holds after a crash in mid-download. *)
Definition crashedFile : list DownloadItem.t :=
  [ Examples.runningItem; Examples.failedItem ].

(** The failed download of [Examples], paused instead. *)
Definition pausedItem : DownloadItem.t :=
  Engine.set_error None (Engine.set_status paused Examples.failedItem).

Definition stPaused : Engine.State :=
  {| Engine.downloads := {[ "d2" := pausedItem ]};
     Engine.activeDownloads := ∅;
     Engine.emitted := [] |}.

(** The same download when its workers settle, one of them failed. *)
Definition brokenItem : DownloadItem.t :=
  Engine.set_error None (Engine.set_status downloading Examples.failedItem).

Definition stBroken : Engine.State :=
  {| Engine.downloads := {[ "d2" := brokenItem ]};
     Engine.activeDownloads := ∅;
     Engine.emitted := [] |}.

Definition gUrl : URL.t := URL.mk "http:" "host" "" "/g.bin" "" "".

(** Two queues: three downloads wait in the first, one in the second,
    which runs on Friday nights. *)
Definition dayQueue : DownloadQueue.t :=
  DownloadQueue.mk "q1" "Default Queue" [ "a"; "b"; "c" ] 2 true None.

Definition nightQueue : DownloadQueue.t :=
  DownloadQueue.mk "q2" "Night" [ "d" ] 1 true (Some Examples.fridayNight).

Definition twoQueues : QueueManager.State :=
  {| QueueManager.queues := [ ("q1", dayQueue); ("q2", nightQueue) ];
     QueueManager.emitted := [] |}.

(** A clip large enough to be listed, reported by the browser. *)
Definition film : BrowserMessage.t :=
  BrowserMessage.mk (Some "https://cdn.example.com/film.mp4") None None
    (Some {[ "Authorization" := "Bearer t"; "Referer" := "https://example.com/" ]})
    None None (Some "https://example.com/page") None None None
    (Some "video/mp4") (Some 9000000) None.

Definition filmRequest : Monitor.Request :=
  {| Monitor.req_method := "POST";
     Monitor.req_url := Some "/media";
     Monitor.req_body := Monitor.JsonMessage film |}.

(** A file of 2^55 + 8 bytes behind a server that honours ranges, four
    connections allowed. *)
Definition petabytes : DownloadItem.t :=
  Examples.added "d9" "http://host/p.bin" "p.bin" 36028797018963976 true None.


(** A server that states the size of a megabyte and no ranges. *)
Definition sizedHeaders : gmap string string :=
  {[ "content-length" := pretty 1000000%N ]}.

End MoreExamples.

(* ===================================================================== *)
(** * Properties *)
(* ===================================================================== *)

(* --------------------------------------------------------------------- *)
(** ** Numbers below 2^53 *)
(* --------------------------------------------------------------------- *)

Section Numbers.

(** An integer of magnitude up to 2^53 is a double. *)
Lemma toDouble_safe (z : Z) : Z.abs z <= 2 ^ 53 → JS.toDouble z = z.
Proof.
  intros H. unfold JS.toDouble.
  destruct (Z.leb_spec (Z.abs z) (2 ^ 53)); [reflexivity | lia].
Qed.

(** Rounding a quotient of [P] upwards does not reach the next multiple
    of [P] as long as the dividend is below [2 * P * Q]. *)
Lemma round_up_floor (a b P Q : Z) :
  0 < b → 0 < P → 0 < Q →
  Q * b <= a → a < 2 * (P * Q) →
  b <= 2 * ((a * P) mod b) →
  (a * P / b + 1) / P = a / b.
Proof.
  intros Hb HP HQ Hlow Hup Hr.
  pose proof (Z.div_mod (a * P) b ltac:(lia)) as Hq.
  pose proof (Z.mod_pos_bound (a * P) b Hb) as Hrb.
  pose proof (Z.div_mod a b ltac:(lia)) as Ht.
  pose proof (Z.mod_pos_bound a b Hb) as Hub.
  set (q := a * P / b) in *. set (r := (a * P) mod b) in *.
  set (t := a / b) in *. set (u := a mod b) in *.
  symmetry. apply Z.div_unique with (r := q + 1 - t * P).
  - left. split.
    + assert (t * P <= q); [|lia].
      apply Z.div_le_lower_bound; [lia|]. nia.
    + assert (q + 1 < (t + 1) * P); [|lia].
      destruct (Z_lt_le_dec (q + 1) ((t + 1) * P)) as [Hlt|Hge]; [exact Hlt|].
      exfalso.
      assert (H1 : P * (b - u) <= b - r) by nia.
      assert (H2 : P <= b - r) by nia.
      assert (H3 : 2 * P <= b) by lia.
      nia.
  - lia.
Qed.

Lemma floorDiv_safe (a b : Z) :
  0 < b → b <= a → a < 2 ^ 53 → JS.floorDiv a b = a / b.
Proof.
  intros Hb Hba Ha. unfold JS.floorDiv.
  replace ((a <=? 0) || (b <=? 0)) with false
    by (symmetry; apply orb_false_iff; split; apply Z.leb_gt; lia).
  unfold JS.nearest.
  set (l := Z.log2 a - Z.log2 b).
  assert (Hl : 0 <= l) by (pose proof (Z.log2_le_mono b a Hba); lia).
  assert (Hla : Z.log2 a < 53) by (apply Z.log2_lt_pow2; lia).
  pose proof (Z.log2_nonneg b) as Hlb.
  pose proof (Z.log2_spec a ltac:(lia)) as [Ha1 Ha2].
  pose proof (Z.log2_spec b Hb) as [Hb1 Hb2].
  replace (0 <=? l) with true by (symmetry; apply Z.leb_le; exact Hl).
  set (k := if b * 2 ^ l <=? a then l else l - 1).
  assert (Hk : 0 <= k <= 52 ∧ 2 ^ k * b <= a).
  { subst k. destruct (Z.leb_spec (b * 2 ^ l) a) as [Hc|Hc].
    - split; [lia | lia].
    - assert (l <> 0) by (intros E; rewrite E in Hc; simpl in Hc; lia).
      split; [lia|].
      assert (Hpow : 2 ^ (l - 1) * 2 ^ (Z.log2 b + 1) = 2 ^ Z.log2 a).
      { rewrite <- Z.pow_add_r by lia. f_equal. lia. }
      assert (0 < 2 ^ (l - 1)) by (apply Z.pow_pos_nonneg; lia).
      nia. }
  destruct Hk as [Hk Hlow]. clearbody k. clear Ha1 Ha2 Hb1 Hb2 Hla Hlb Hl. clear l.
  assert (Hsplit : 2 ^ (52 - k) * 2 ^ k = 2 ^ 52).
  { rewrite <- Z.pow_add_r by lia. f_equal. lia. }
  assert (HP : 0 < 2 ^ (52 - k)) by (apply Z.pow_pos_nonneg; lia).
  assert (HQ : 0 < 2 ^ k) by (apply Z.pow_pos_nonneg; lia).
  destruct (Z.leb_spec 0 (k - 52)) as [He|He].
  - assert (k = 52) by lia. subst k.
    replace (52 - 52) with 0 by lia. rewrite Z.pow_0_r, !Z.mul_1_r.
    assert (b = 1) by lia. subst b.
    rewrite Z.mod_1_r, Z.div_1_r. simpl. reflexivity.
  - replace (- (k - 52)) with (52 - k) by lia.
    set (P := 2 ^ (52 - k)) in *. set (Q := 2 ^ k) in *.
    assert (Hq0 : a * P / b / P = a / b).
    { rewrite Z.div_div by lia. rewrite Z.div_mul_cancel_r by lia. reflexivity. }
    destruct ((b <? 2 * ((a * P) mod b)) ||
              ((b =? 2 * ((a * P) mod b)) && Z.odd (a * P / b))) eqn:Hround.
    + assert (Hhalf : b <= 2 * ((a * P) mod b)).
      { apply orb_true_iff in Hround as [H|H].
        - apply Z.ltb_lt in H. lia.
        - apply andb_true_iff in H as [H _]. apply Z.eqb_eq in H. lia. }
      apply round_up_floor with (Q := Q); lia.
    + exact Hq0.
Qed.

Lemma floorDiv_small (a b : Z) :
  0 < a → a < b → a < 2 ^ 53 → JS.floorDiv a b = 0.
Proof.
  intros Ha Hab Hsafe. unfold JS.floorDiv.
  replace ((a <=? 0) || (b <=? 0)) with false
    by (symmetry; apply orb_false_iff; split; apply Z.leb_gt; lia).
  unfold JS.nearest.
  set (l := Z.log2 a - Z.log2 b).
  assert (Hl : l <= 0) by (pose proof (Z.log2_le_mono a b ltac:(lia)); lia).
  pose proof (Z.log2_nonneg a) as Hla.
  pose proof (Z.log2_spec a Ha) as [Ha1 Ha2].
  pose proof (Z.log2_spec b ltac:(lia)) as [Hb1 Hb2].
  set (k := if (if 0 <=? l then b * 2 ^ l <=? a else b <=? a * 2 ^ (- l))
            then l else l - 1).
  assert (Hk : k <= -1 ∧ a * 2 ^ (- k - 1) < b ∧ b <= a * 2 ^ (- k)).
  { subst k. destruct (Z.leb_spec 0 l) as [H0|H0].
    - assert (l = 0) by lia.
      assert (Hlb : Z.log2 b = Z.log2 a) by lia.
      replace l with 0 by lia. rewrite Z.pow_0_r, Z.mul_1_r.
      destruct (Z.leb_spec b a); [lia|].
      replace (- (0 - 1) - 1) with 0 by lia. replace (- (0 - 1)) with 1 by lia.
      rewrite Z.pow_0_r, Z.pow_1_r. split; [lia|]. split; [lia|].
      rewrite Hlb in Hb2. rewrite Z.pow_succ_r in Hb2 by lia. lia.
    - assert (Hpos : 0 < 2 ^ (- l - 1)) by (apply Z.pow_pos_nonneg; lia).
      assert (Hstep : 2 ^ (- l) = 2 * 2 ^ (- l - 1)).
      { rewrite <- Z.pow_succ_r by lia. f_equal. lia. }
      assert (Hexp : 2 ^ (- l) * 2 ^ Z.log2 a = 2 ^ Z.log2 b).
      { rewrite <- Z.pow_add_r by lia. f_equal. lia. }
      destruct (Z.leb_spec b (a * 2 ^ (- l))) as [Hc|Hc].
      + split; [lia|]. split; [|exact Hc].
        rewrite Z.pow_succ_r in Ha2 by lia. nia.
      + replace (- (l - 1) - 1) with (- l) by lia.
        replace (- (l - 1)) with (Z.succ (- l)) by lia.
        rewrite Z.pow_succ_r by lia.
        split; [lia|]. split; [exact Hc|].
        rewrite Z.pow_succ_r in Hb2 by lia. nia. }
  destruct Hk as (Hk & Hup & Hlow).
  clearbody k. clear Ha1 Ha2 Hb1 Hb2 Hla Hl. clear l.
  replace (0 <=? k - 52) with false by (symmetry; apply Z.leb_gt; lia).
  replace (- (k - 52)) with (53 + (- k - 1)) by lia.
  set (j := - k - 1) in *.
  assert (Hj : 0 <= j) by lia.
  replace (- k) with (Z.succ j) in Hlow by lia.
  rewrite Z.pow_succ_r in Hlow by lia.
  rewrite Z.pow_add_r by lia.
  set (J := 2 ^ j) in *.
  assert (HJ : 0 < J) by (apply Z.pow_pos_nonneg; lia).
  set (T := 2 ^ 53) in *.
  assert (HT : T = 9007199254740992) by reflexivity.
  clearbody T.
  pose proof (Z.div_mod (a * (T * J)) b ltac:(lia)) as Hq.
  pose proof (Z.mod_pos_bound (a * (T * J)) b ltac:(lia)) as Hr.
  set (q := a * (T * J) / b) in *. set (r := (a * (T * J)) mod b) in *.
  assert (Hq0 : 0 <= q) by (apply Z.div_pos; nia).
  assert (Hq1 : q < T).
  { apply Z.div_lt_upper_bound; [lia|]. nia. }
  apply Z.div_small.
  destruct ((b <? 2 * r) || ((b =? 2 * r) && Z.odd q)) eqn:Hround; [|nia].
  assert (Hhalf : b <= 2 * r).
  { apply orb_true_iff in Hround as [H|H].
    - apply Z.ltb_lt in H. lia.
    - apply andb_true_iff in H as [H _]. apply Z.eqb_eq in H. lia. }
  split; [lia|].
  destruct (Z_lt_le_dec (q + 1) (T * J)) as [Hlt|Hge]; [exact Hlt|].
  exfalso.
  assert (HJ1 : J = 1) by nia. rewrite HJ1 in *.
  assert (Hq2 : q = T - 1) by lia.
  assert (Hgap : T * (b - a) <= b - r) by nia.
  nia.
Qed.

(** Below 2^53 the floor of a quotient of doubles is the quotient of the
    integers. *)
Lemma floorDiv_exact (a b : Z) :
  0 < a → a < 2 ^ 53 → 0 < b → JS.floorDiv a b = a / b.
Proof.
  intros Ha Hsafe Hb. destruct (Z_lt_le_dec a b) as [Hlt|Hle].
  - rewrite floorDiv_small by assumption. symmetry. apply Z.div_small. lia.
  - apply floorDiv_safe; assumption.
Qed.

(** Sums, differences and products that stay within 2^53 are exact. *)
Lemma add_exact (a b : Z) : Z.abs (a + b) <= 2 ^ 53 → JS.add a b = a + b.
Proof. apply toDouble_safe. Qed.

Lemma sub_exact (a b : Z) : Z.abs (a - b) <= 2 ^ 53 → JS.sub a b = a - b.
Proof. apply toDouble_safe. Qed.

Lemma mul_exact (a b : Z) : Z.abs (a * b) <= 2 ^ 53 → JS.mul a b = a * b.
Proof. apply toDouble_safe. Qed.

(** Below 2^53 a number is written as its decimal numeral. *)
Lemma numberToString_safe (z : Z) :
  0 <= z → z < 2 ^ 53 → JS.numberToString z = pretty z.
Proof.
  intros H0 H1. unfold JS.numberToString, JS.positiveToString.
  destruct (Z.ltb_spec z 0); [lia|].
  destruct (Z.ltb_spec z (2 ^ 53)); [reflexivity | lia].
Qed.

End Numbers.

(* --------------------------------------------------------------------- *)
(** ** Segmenter *)
(* --------------------------------------------------------------------- *)

Section Segmenter.

Import DownloadItem.

Lemma segmentCount_bounds (F M : Z) :
  0 < F → 1 ≤ M →
  1 ≤ Z.min M (Z.max 1 (F / (256 * 1024))) ≤ F.
Proof.
  intros HF HM.
  assert (F / (256 * 1024) ≤ F).
  { apply Z.div_le_upper_bound; lia. }
  lia.
Qed.

Lemma segmentSize_bounds (F N : Z) :
  1 ≤ N ≤ F → 1 ≤ F / N ∧ N * (F / N) ≤ F.
Proof.
  intros HN. split.
  - apply Z.div_le_lower_bound; lia.
  - apply Z.mul_div_le; lia.
Qed.

(** Below 2^53 the segments are those of exact arithmetic. *)
Lemma initializeSegments_exact ids item :
  0 < fileSize item → fileSize item < 2 ^ 53 → resumable item = true →
  let N := Z.min (maxSegments item) (Z.max 1 (fileSize item / (256 * 1024))) in
  let S := fileSize item / N in
  Engine.initializeSegments ids item =
  (λ i : Z,
     Engine.newSegment (ids (Z.to_nat i)) (i * S)
       (if i =? N - 1 then fileSize item - i * S else S))
  <$> seqZ 0 N.
Proof.
  intros HF Hsafe HR N S. unfold Engine.initializeSegments.
  replace (fileSize item <=? 0) with false by (symmetry; apply Z.leb_gt; lia).
  rewrite HR. simpl negb. simpl orb. cbv iota.
  rewrite (floorDiv_exact (fileSize item) (256 * 1024)) by lia.
  fold N.
  apply list_fmap_ext. intros n i Hi.
  apply lookup_seqZ in Hi as [-> Hn]. rewrite Z.add_0_l.
  assert (HNF : 1 ≤ N ≤ fileSize item).
  { assert (fileSize item / (256 * 1024) ≤ fileSize item)
      by (apply Z.div_le_upper_bound; lia).
    subst N. lia. }
  rewrite (floorDiv_exact (fileSize item) N) by lia. fold S.
  pose proof (segmentSize_bounds _ _ HNF) as [HS HNS]. fold S in HS, HNS.
  assert (Hoff : 0 ≤ Z.of_nat n * S ≤ fileSize item) by nia.
  rewrite mul_exact by lia.
  rewrite sub_exact by lia.
  reflexivity.
Qed.

(** The segments of a resumable download of known size, by index. *)
Lemma initializeSegments_lookup ids item (i : nat) seg :
  0 < fileSize item → fileSize item < 2 ^ 53 → resumable item = true →
  let N := Z.min (maxSegments item) (Z.max 1 (fileSize item / (256 * 1024))) in
  let S := fileSize item / N in
  Engine.initializeSegments ids item !! i = Some seg ↔
  Z.of_nat i < N ∧
  seg = Engine.newSegment (ids i) (Z.of_nat i * S)
          (if Z.of_nat i =? N - 1 then fileSize item - Z.of_nat i * S else S).
Proof.
  intros HF Hsafe HR N S.
  rewrite (initializeSegments_exact ids item HF Hsafe HR).
  fold N. fold S.
  rewrite list_lookup_fmap.
  split.
  - intros H. destruct (seqZ 0 N !! i) as [z|] eqn:E; [|discriminate].
    apply lookup_seqZ in E as [-> Hlt]. simpl in H. injection H as <-.
    split; [lia|]. rewrite Z.add_0_l, Nat2Z.id. reflexivity.
  - intros [Hlt ->].
    assert (E : seqZ 0 N !! i = Some (0 + Z.of_nat i)) by (apply lookup_seqZ; lia).
    rewrite E. simpl. rewrite Z.add_0_l, Nat2Z.id. reflexivity.
Qed.

Lemma initializeSegments_length ids item :
  0 < fileSize item → fileSize item < 2 ^ 53 → resumable item = true →
  1 ≤ maxSegments item →
  Z.of_nat (List.length (Engine.initializeSegments ids item)) =
  Z.min (maxSegments item) (Z.max 1 (fileSize item / (256 * 1024))).
Proof.
  intros HF Hsafe HR HM.
  rewrite (initializeSegments_exact ids item HF Hsafe HR).
  rewrite length_fmap, length_seqZ.
  pose proof (segmentCount_bounds _ _ HF HM). lia.
Qed.

(** C2, as stated, fails: sizes are doubles.  A resumable download of
    2^55 + 8 bytes, four connections allowed, gets four segments of
    9007199254740994 bytes; the offset of the fourth, the product
    3 * 9007199254740994 = 27021597764222982, is not a double and is
    rounded to 27021597764222984, so that two bytes of the file lie in no
    segment. *)
Lemma initializeSegments_leaves_gap :
  0 < DownloadItem.fileSize MoreExamples.petabytes ∧
  DownloadItem.resumable MoreExamples.petabytes = true ∧
  (λ s, (DownloadSegment.offset s, DownloadSegment.length s)) <$>
    Engine.initializeSegments Examples.sampleIds MoreExamples.petabytes
  = [ (0, 9007199254740994);
      (9007199254740994, 9007199254740994);
      (18014398509481988, 9007199254740994);
      (27021597764222984, 9007199254740992) ] ∧
  0 ≤ 27021597764222982 < DownloadItem.fileSize MoreExamples.petabytes ∧
  ¬ ∃ (i : nat) seg,
      Engine.initializeSegments Examples.sampleIds MoreExamples.petabytes !! i = Some seg ∧
      Engine.inRange seg 27021597764222982.
Proof.
  split; [reflexivity|]. split; [reflexivity|].
  split; [vm_compute; reflexivity|].
  split; [vm_compute; split; [discriminate | reflexivity]|].
  intros (i & seg & Hi & [Hlo Hhi]).
  assert (Hsegs : Engine.initializeSegments Examples.sampleIds MoreExamples.petabytes
                  = [ Engine.newSegment "seg0" 0 9007199254740994;
                      Engine.newSegment "seg1" 9007199254740994 9007199254740994;
                      Engine.newSegment "seg2" 18014398509481988 9007199254740994;
                      Engine.newSegment "seg3" 27021597764222984 9007199254740992 ])
    by (vm_compute; reflexivity).
  rewrite Hsegs in Hi.
  destruct i as [|[|[|[|i]]]]; simpl in Hi; try discriminate Hi;
    injection Hi as <-; simpl in Hlo, Hhi; lia.
Qed.

(** C2, amended.  For a download of known size [0 < fileSize < 2^53], the
    sizes a double holds to the byte, that is resumable, with
    [maxSegments] at least 1 (its range is 1 to 32),
    [initializeSegments] yields
    [N = min(maxSegments, max(1, floor(fileSize / (256*1024))))] segments;
    segment [i] starts at [i * floor(fileSize / N)], fresh; every segment
    but the last is [floor(fileSize / N)] bytes long and the last one
    carries the remainder up to [fileSize]; no byte lies in two segments,
    and the bytes that lie in some segment are exactly those of
    [[0, fileSize)]. *)
Theorem initializeSegments_partition ids item :
  0 < fileSize item → fileSize item < 2 ^ 53 →
  resumable item = true → 1 ≤ maxSegments item →
  let N := Z.min (maxSegments item) (Z.max 1 (fileSize item / (256 * 1024))) in
  let segs := Engine.initializeSegments ids item in
  Z.of_nat (List.length segs) = N ∧
  (∀ (i : nat) seg, segs !! i = Some seg →
     DownloadSegment.offset seg = Z.of_nat i * (fileSize item / N) ∧
     DownloadSegment.downloaded seg = 0 ∧
     DownloadSegment.state seg = Engine.NotStarted) ∧
  (∀ (i : nat) seg, segs !! i = Some seg → Z.of_nat i ≠ N - 1 →
     DownloadSegment.length seg = fileSize item / N) ∧
  (∀ (i : nat) seg, segs !! i = Some seg → Z.of_nat i = N - 1 →
     DownloadSegment.length seg = fileSize item - (N - 1) * (fileSize item / N) ∧
     DownloadSegment.offset seg + DownloadSegment.length seg = fileSize item) ∧
  (∀ (i j : nat) a b, i ≠ j → segs !! i = Some a → segs !! j = Some b →
     ∀ x, ¬ (Engine.inRange a x ∧ Engine.inRange b x)) ∧
  (∀ x, 0 ≤ x < fileSize item ↔
        ∃ (i : nat) seg, segs !! i = Some seg ∧ Engine.inRange seg x).
Proof.
  intros HF Hsafe HR HM N segs.
  pose proof (segmentCount_bounds _ _ HF HM) as HN. fold N in HN.
  pose proof (segmentSize_bounds _ _ HN) as [HS HNS].
  set (S := fileSize item / N) in *.
  assert (Hlk : ∀ (i : nat) seg, segs !! i = Some seg ↔
            Z.of_nat i < N ∧
            seg = Engine.newSegment (ids i) (Z.of_nat i * S)
                    (if Z.of_nat i =? N - 1 then fileSize item - Z.of_nat i * S else S)).
  { intros i seg. apply initializeSegments_lookup; assumption. }
  split; [apply initializeSegments_length; assumption|].
  split.
  { intros i seg H. apply Hlk in H as [_ ->]. auto. }
  split.
  { intros i seg H Hne. apply Hlk in H as [_ ->]. simpl.
    destruct (Z.eqb_spec (Z.of_nat i) (N - 1)); [contradiction | reflexivity]. }
  split.
  { intros i seg H He. apply Hlk in H as [_ ->]. simpl.
    rewrite He, Z.eqb_refl. lia. }
  split.
  { intros i j a b Hij Ha Hb x [[Ha1 Ha2] [Hb1 Hb2]].
    apply Hlk in Ha as [Hi ->]. apply Hlk in Hb as [Hj ->].
    simpl in *.
    destruct (Z.eqb_spec (Z.of_nat i) (N - 1)), (Z.eqb_spec (Z.of_nat j) (N - 1)); nia. }
  intros x. split.
  - intros Hx.
    destruct (Z_lt_le_dec (x / S) (N - 1)) as [Hlt|Hge].
    + assert (0 ≤ x / S) by (apply Z.div_pos; lia).
      exists (Z.to_nat (x / S)), (Engine.newSegment (ids (Z.to_nat (x / S))) (x / S * S) S).
      split.
      * apply Hlk. rewrite Z2Nat.id by lia. split; [lia|].
        destruct (Z.eqb_spec (x / S) (N - 1)); [lia | reflexivity].
      * unfold Engine.inRange; simpl.
        pose proof (Z.mul_div_le x S ltac:(lia)).
        pose proof (Z.mul_succ_div_gt x S ltac:(lia)). lia.
    + exists (Z.to_nat (N - 1)),
        (Engine.newSegment (ids (Z.to_nat (N - 1))) ((N - 1) * S)
           (fileSize item - (N - 1) * S)).
      split.
      * apply Hlk. rewrite Z2Nat.id by lia. split; [lia|].
        rewrite Z.eqb_refl. reflexivity.
      * unfold Engine.inRange; simpl.
        assert ((N - 1) * S ≤ x).
        { apply Z.le_trans with (x / S * S); [nia|].
          rewrite Z.mul_comm. apply Z.mul_div_le. lia. }
        lia.
  - intros (i & seg & H & Hin). apply Hlk in H as [Hi ->].
    unfold Engine.inRange in Hin; simpl in Hin.
    destruct (Z.eqb_spec (Z.of_nat i) (N - 1)); nia.
Qed.

End Segmenter.

(** The partition theorem at a megabyte with four connections allowed:
    the number of segments. *)
Lemma initializeSegments_partition_witness :
  Z.of_nat (List.length (Engine.initializeSegments Examples.sampleIds Examples.megabyte)) =
  Z.min (DownloadItem.maxSegments Examples.megabyte)
        (Z.max 1 (DownloadItem.fileSize Examples.megabyte / (256 * 1024))).
Proof.
  apply (initializeSegments_partition Examples.sampleIds Examples.megabyte);
    [ simpl; lia | simpl; lia | reflexivity | simpl; lia ].
Defined.

(** A megabyte holds three quarter-mebibytes, so three segments are made
    even when four are allowed. *)
Example megabyte_segments :
  (λ s, (DownloadSegment.offset s, DownloadSegment.length s)) <$>
    Engine.initializeSegments Examples.sampleIds Examples.megabyte
  = [ (0, 333333); (333333, 333333); (666666, 333334) ].
Proof. vm_compute. reflexivity. Qed.

(* --------------------------------------------------------------------- *)
(** ** Segment worker: end of the response *)
(* --------------------------------------------------------------------- *)

Lemma segmentAt_update_item f dl i st :
  Engine.segmentAt dl i (Engine.update_item (Engine.update_segment f i) dl st) =
  f <$> Engine.segmentAt dl i st.
Proof.
  unfold Engine.segmentAt, Engine.update_item, Engine.update_segment. simpl.
  rewrite lookup_alter_eq.
  destruct (Engine.downloads st !! dl) as [item|]; simpl; [|reflexivity].
  rewrite list_lookup_alter_eq. reflexivity.
Qed.

Lemma segmentAt_update_item_ne f dl i j st :
  j ≠ i →
  Engine.segmentAt dl j (Engine.update_item (Engine.update_segment f i) dl st) =
  Engine.segmentAt dl j st.
Proof.
  intros Hj. unfold Engine.segmentAt, Engine.update_item, Engine.update_segment. simpl.
  rewrite lookup_alter_eq.
  destruct (Engine.downloads st !! dl) as [item|]; simpl; [|reflexivity].
  rewrite list_lookup_alter_ne by congruence. reflexivity.
Qed.

Lemma segment_id_at_segmentAt dl i st seg :
  Engine.segmentAt dl i st = Some seg →
  Engine.segment_id_at dl i st = Some (DownloadSegment.id seg).
Proof.
  unfold Engine.segment_id_at, Engine.segmentAt. intros H.
  destruct (Engine.downloads st !! dl) as [item|]; simpl in *; [|discriminate].
  rewrite H. reflexivity.
Qed.

(** C1, as stated, fails: a download of 100 bytes is started, its one
    segment is answered, 40 bytes arrive and the response ends.  The
    segment is then finished, although its length is known and its byte
    count differs from it. *)
Lemma onEnd_finishes_short_read :
  ∃ seg,
    Engine.segmentAt "d1" 0 Examples.st4 = Some seg ∧
    DownloadSegment.state seg = Engine.Finished ∧
    ¬ (DownloadSegment.length seg = -1 ∨
       DownloadSegment.downloaded seg = DownloadSegment.length seg).
Proof.
  exists (DownloadSegment.mk "seg0" 0 100 40 Engine.Finished 40).
  split; [vm_compute; reflexivity|]. split; [reflexivity|]. simpl. lia.
Qed.

(** C1, amended.  When the response of a segment worker ends, the segment
    is marked finished whatever its length and its byte count: its other
    fields stay as they are, and so do the other segments. *)
Theorem onEnd_always_finished dl i st seg :
  Engine.segmentAt dl i st = Some seg →
  Engine.segmentAt dl i (Engine.onEnd dl i st) =
    Some (Engine.seg_set_state Engine.Finished seg) ∧
  (∀ j, j ≠ i →
     Engine.segmentAt dl j (Engine.onEnd dl i st) = Engine.segmentAt dl j st).
Proof.
  intros H. unfold Engine.onEnd.
  rewrite (segment_id_at_segmentAt dl i st seg H). split.
  - change (Engine.segmentAt dl i (Engine.forget_controller dl (DownloadSegment.id seg) ?s))
      with (Engine.segmentAt dl i s).
    rewrite segmentAt_update_item, H. reflexivity.
  - intros j Hj.
    change (Engine.segmentAt dl j (Engine.forget_controller dl (DownloadSegment.id seg) ?s))
      with (Engine.segmentAt dl j s).
    apply segmentAt_update_item_ne, Hj.
Qed.

(** The amended C1 on the sample run: 40 of 100 bytes, then the end. *)
Lemma onEnd_always_finished_witness :
  Engine.segmentAt "d1" 0 (Engine.onEnd "d1" 0 Examples.st3) =
    Some (Engine.seg_set_state Engine.Finished
            (DownloadSegment.mk "seg0" 0 100 40 Engine.Downloading 40)).
Proof.
  apply (onEnd_always_finished "d1" 0%nat Examples.st3). vm_compute. reflexivity.
Defined.

(* --------------------------------------------------------------------- *)
(** ** Start and retry *)
(* --------------------------------------------------------------------- *)

Section Supervisor.

Import DownloadItem.

Context (P : Platform).

(** C10.  [startDownload] on a download whose status is [downloading]
    resolves at once with that very item: the engine state, and with it
    every field of the item, its segments, the active records and the
    event log, is left as it was, and no worker is started. *)
Theorem startDownload_downloading_noop now ids id st item :
  Engine.downloads st !! id = Some item →
  status item = downloading →
  Engine.startDownload P now ids id st = (st, Engine.Returned (Some item)).
Proof.
  intros Hitem Hstatus. unfold Engine.startDownload.
  rewrite Hitem, Hstatus. reflexivity.
Qed.







End Supervisor.

(** C10 on the sample run: starting the running download again. *)
Lemma startDownload_downloading_noop_witness :
  Engine.startDownload Sample.platform 2000 Examples.sampleIds "d1" Examples.st3 =
  (Examples.st3, Engine.Returned (Some Examples.runningItem)).
Proof.
  apply (startDownload_downloading_noop Sample.platform 2000 Examples.sampleIds "d1"
           Examples.st3 Examples.runningItem).
  - vm_compute. reflexivity.
  - reflexivity.
Defined.


Example retry_of_failed :
  (λ item, (DownloadItem.downloaded item,
            (λ s, (DownloadSegment.state s, DownloadSegment.downloaded s))
              <$> DownloadItem.segments item))
  <$> Engine.downloads
        (Engine.retryDownload Sample.platform 5000 Examples.sampleIds "d2"
           Examples.stFailed).1 !! "d2"
  = Some (100, [ (2, 100); (0, 0); (0, 0) ]).
Proof. vm_compute. reflexivity. Qed.

(* --------------------------------------------------------------------- *)
(** ** Probe *)
(* --------------------------------------------------------------------- *)

Lemma pretty_N_char_digit (d : N) :
  (d < 10)%N →
  JS.isDigit (pretty_N_char d) = true ∧ JS.digitValue (pretty_N_char d) = Z.of_N d.
Proof.
  intros Hd.
  assert (Hcases : d ∈ [0; 1; 2; 3; 4; 5; 6; 7; 8; 9]%N).
  { apply list_elem_of_In.
    change (In d (N.of_nat <$> seq 0 10)).
    apply list_elem_of_In, list_elem_of_fmap. exists (N.to_nat d).
    split; [lia|]. apply elem_of_seq. lia. }
  repeat (apply elem_of_cons in Hcases as [->|Hcases]; [split; reflexivity|]).
  apply elem_of_nil in Hcases. contradiction.
Qed.

(** Reading the numeral of [x] in front of [s] multiplies the accumulator
    by a power of ten, adds [x], and goes on with [s]. *)
Lemma readDigits_pretty_N_go (x : N) :
  (0 < x)%N →
  ∃ k : Z, 0 ≤ k ∧ ∀ s seen acc,
    JS.readDigits (pretty_N_go x s) seen acc =
    JS.readDigits s true (acc * 10 ^ k + Z.of_N x).
Proof.
  induction x as [x IH] using (well_founded_induction N.lt_wf_0). intros Hx.
  destruct (pretty_N_char_digit (x mod 10)%N) as [Hdig Hval].
  { apply N.mod_lt. discriminate. }
  destruct (decide (x / 10 = 0)%N) as [Hz|Hnz].
  - exists 1. split; [lia|]. intros s seen acc.
    rewrite pretty_N_go_step, Hz, pretty_N_go_0 by assumption.
    simpl JS.readDigits. rewrite Hdig, Hval. f_equal.
    assert (Hsmall : (x mod 10 = x)%N).
    { apply N.mod_small, N.div_small_iff; [discriminate | exact Hz]. }
    rewrite Hsmall, Z.pow_1_r. ring.
  - destruct (IH (x / 10)%N) as (k & Hk & Hread).
    { apply N.div_lt; [assumption | reflexivity]. }
    { apply N.neq_0_lt_0, Hnz. }
    exists (k + 1). split; [lia|]. intros s seen acc.
    rewrite pretty_N_go_step, Hread by assumption.
    simpl JS.readDigits. rewrite Hdig, Hval. f_equal.
    rewrite Z.pow_add_r, Z.pow_1_r by lia.
    assert (Hdm : Z.of_N x = 10 * Z.of_N (x / 10) + Z.of_N (x mod 10)).
    { rewrite (N.div_mod x 10) at 1 by discriminate.
      rewrite N2Z.inj_add, N2Z.inj_mul. reflexivity. }
    rewrite Hdm. ring.
Qed.

Lemma pretty_N_go_head (x : N) (s : string) :
  (0 < x)%N →
  ∃ c rest, pretty_N_go x s = String c rest ∧ JS.isDigit c = true.
Proof.
  revert s. induction x as [x IH] using (well_founded_induction N.lt_wf_0).
  intros s Hx. rewrite pretty_N_go_step by assumption.
  destruct (decide (x / 10 = 0)%N) as [Hz|Hnz].
  - rewrite Hz, pretty_N_go_0. eexists _, _. split; [reflexivity|].
    apply pretty_N_char_digit, N.mod_lt. discriminate.
  - apply IH; [apply N.div_lt; [assumption | reflexivity] | apply N.neq_0_lt_0, Hnz].
Qed.

Lemma digit_plain (c : ascii) :
  JS.isDigit c = true →
  JS.isWhiteSpace c = false ∧ (nat_of_ascii c < 128)%nat ∧
  c ≠ "-"%char ∧ c ≠ "+"%char.
Proof.
  destruct c as [[] [] [] [] [] [] [] []]; vm_compute; intros H;
    try discriminate H; repeat split; first [discriminate | lia].
Qed.

(** An ASCII character that is not white space stops [trimStart]. *)
Lemma trimStart_plain (c : ascii) (rest : string) :
  JS.isWhiteSpace c = false → (nat_of_ascii c < 128)%nat →
  JS.trimStart (String c rest) = String c rest.
Proof.
  intros Hws Hascii. cbn [JS.trimStart]. rewrite Hws.
  destruct rest as [|b s2]; [reflexivity|].
  assert (H2 : JS.isWhiteSpace2 c b = false).
  { unfold JS.isWhiteSpace2.
    destruct (Nat.eqb_spec (nat_of_ascii c) 194); [lia | reflexivity]. }
  rewrite H2. destruct s2 as [|d s3]; [reflexivity|].
  assert (H3 : JS.isWhiteSpace3 c b d = false).
  { unfold JS.isWhiteSpace3. cbv zeta.
    destruct (Nat.eqb_spec (nat_of_ascii c) 225); [lia|].
    destruct (Nat.eqb_spec (nat_of_ascii c) 226); [lia|].
    destruct (Nat.eqb_spec (nat_of_ascii c) 227); [lia|].
    destruct (Nat.eqb_spec (nat_of_ascii c) 239); [lia|]. reflexivity. }
  rewrite H3. reflexivity.
Qed.

(** [parseInt] reads the decimal numeral of [n] back as [n], below
    2^53. *)
Lemma parseInt_pretty (n : N) :
  (n < 2 ^ 53)%N → JS.parseInt (pretty n) = Some (Z.of_N n).
Proof.
  intros Hsafe.
  assert (HsafeZ : Z.of_N n < 2 ^ 53).
  { change (2 ^ 53) with (Z.of_N (2 ^ 53)%N). lia. }
  unfold pretty, pretty_N. case_decide as Hn; [subst; reflexivity|].
  assert (Hpos : (0 < n)%N) by lia.
  destruct (pretty_N_go_head n "" Hpos) as (c & rest & Hs & Hc).
  destruct (readDigits_pretty_N_go n Hpos) as (k & _ & Hread).
  destruct (digit_plain c Hc) as (Hws & Hascii & Hminus & Hplus).
  unfold JS.parseInt. rewrite Hs, (trimStart_plain c rest Hws Hascii).
  assert (Hsign :
    (match String c rest with
     | String "-"%char r => (-1, r)
     | String "+"%char r => (1, r)
     | _ => (1, String c rest)
     end) = (1, String c rest)).
  { destruct c as [[] [] [] [] [] [] [] []]; try reflexivity; congruence. }
  rewrite Hsign, <- Hs, Hread. cbv beta iota. f_equal.
  rewrite toDouble_safe by lia. lia.
Qed.

(** A [Content-Length] that is the decimal numeral of [n] probes as the
    size [n], below 2^53. *)
Lemma probeResponse_size P url statusCode (resHeaders : gmap string string) (n : N) r :
  (n < 2 ^ 53)%N →
  resHeaders !! "content-length" = Some (pretty n) →
  Engine.probeResponse P url statusCode resHeaders = Engine.ProbeResolved r →
  Engine.probe_fileSize r = Some (Z.of_N n).
Proof.
  intros Hsafe Hcl. unfold Engine.probeResponse.
  destruct (Engine.isRedirect _ _); [discriminate|].
  intros [= <-]. cbn [Engine.probe_fileSize]. rewrite Hcl.
  assert (Hne : pretty n ≠ "").
  { intros He. pose proof (parseInt_pretty n Hsafe) as Hp. rewrite He in Hp.
    discriminate. }
  unfold JS.orElse. destruct (pretty n) eqn:E; [contradiction|].
  cbn [JS.truthy]. rewrite <- E. apply parseInt_pretty, Hsafe.
Qed.

(** C3, as stated, fails: a server that answers [Content-Length: 0] and
    no [Accept-Ranges] is probed as not resumable, while the size, 0, is
    parseable and not negative, so that the specification's flag is
    true. *)
Lemma probe_empty_file_not_resumable :
  Engine.probeResponse Sample.platform "http://host/empty" 200 Examples.emptyFileHeaders =
    Engine.ProbeResolved
      {| Engine.probe_fileSize := Some 0;
         Engine.probe_resumable := false;
         Engine.probe_finalUrl := "http://host/empty" |} ∧
  Engine.resumable_per_spec (Examples.emptyFileHeaders !! "accept-ranges")
                            (Examples.emptyFileHeaders !! "content-length") = true.
Proof. split; vm_compute; reflexivity. Qed.

(** The same divergence on the other disjunct: [Accept-Ranges: Bytes] is
    compared with [bytes] exactly. *)
Example probe_capital_Bytes :
  Engine.probeResponse Sample.platform "http://host/f" 200
    {[ "accept-ranges" := "Bytes" ]} =
    Engine.ProbeResolved
      {| Engine.probe_fileSize := Some (-1);
         Engine.probe_resumable := false;
         Engine.probe_finalUrl := "http://host/f" |} ∧
  Engine.resumable_per_spec (Some "Bytes") None = true.
Proof. split; vm_compute; reflexivity. Qed.

(** C3, amended.  When a probe resolves, the size it reports is
    [parseInt] of the [Content-Length] header, or -1 when the header is
    absent or empty; the resumable flag is true if and only if the
    [Accept-Ranges] header is exactly [bytes] or that size is a number
    greater than 0. *)
Theorem probeResponse_resumable P url statusCode (resHeaders : gmap string string) r :
  Engine.probeResponse P url statusCode resHeaders = Engine.ProbeResolved r →
  Engine.probe_fileSize r =
    JS.parseInt (JS.orElse (resHeaders !! "content-length") "-1") ∧
  (JS.truthy (resHeaders !! "content-length") = None →
   Engine.probe_fileSize r = Some (-1)) ∧
  (Engine.probe_resumable r = true ↔
     resHeaders !! "accept-ranges" = Some "bytes" ∨
     ∃ n, Engine.probe_fileSize r = Some n ∧ 0 < n).
Proof.
  unfold Engine.probeResponse.
  destruct (Engine.isRedirect _ _); [discriminate|].
  intros [= <-]. cbn [Engine.probe_fileSize Engine.probe_resumable].
  split; [reflexivity|]. split.
  { intros Hcl. unfold JS.orElse. rewrite Hcl. reflexivity. }
  rewrite orb_true_iff, bool_decide_eq_true.
  unfold JS.gt.
  destruct (JS.parseInt _) as [n|].
  - rewrite Z.ltb_lt. split; intros [H|H]; auto.
    + right. exists n. auto.
    + destruct H as (m & [= <-] & Hm). auto.
  - split; intros [H|H]; auto; [discriminate|].
    destruct H as (m & [=] & _).
Qed.

(** The amended C3 at a server that announces ranges and a megabyte. *)
Lemma probeResponse_resumable_witness :
  Engine.probe_resumable Examples.rangedProbe = true ↔
    Examples.rangedHeaders !! "accept-ranges" = Some "bytes" ∨
    ∃ n, Engine.probe_fileSize Examples.rangedProbe = Some n ∧ 0 < n.
Proof.
  apply (probeResponse_resumable Sample.platform "http://host/f.bin" 200
           Examples.rangedHeaders Examples.rangedProbe).
  vm_compute. reflexivity.
Defined.

(* --------------------------------------------------------------------- *)
(** ** Header hygiene *)
(* --------------------------------------------------------------------- *)

(** The [Range] of a resumable segment whose bounds are safe. *)
Lemma requestHeaders_Range item segment :
  DownloadItem.resumable item = true →
  0 < DownloadSegment.length segment →
  0 ≤ DownloadSegment.offset segment →
  0 ≤ DownloadSegment.downloaded segment →
  DownloadSegment.offset segment + DownloadSegment.downloaded segment < 2 ^ 53 →
  DownloadSegment.offset segment + DownloadSegment.length segment < 2 ^ 53 →
  Engine.requestHeaders item segment !! "Range" =
    Some ("bytes=" +:+
          pretty (DownloadSegment.offset segment + DownloadSegment.downloaded segment)
          +:+ "-" +:+
          pretty (DownloadSegment.offset segment + DownloadSegment.length segment - 1)).
Proof.
  intros Hres Hlen Hoff Hdown Hstart Hend. unfold Engine.requestHeaders.
  assert (Hpos : (0 <? DownloadSegment.length segment) = true) by (apply Z.ltb_lt; lia).
  rewrite Hres, Hpos. cbn [andb]. rewrite lookup_insert_eq.
  rewrite (add_exact (DownloadSegment.offset segment) (DownloadSegment.downloaded segment))
    by lia.
  rewrite (add_exact (DownloadSegment.offset segment) (DownloadSegment.length segment))
    by lia.
  rewrite sub_exact by lia.
  rewrite !numberToString_safe by lia.
  reflexivity.
Qed.

(** C6, as stated, fails: a download added with an [Authorization] header
    of the caller's own, not resumable, is started; the one request that
    leaves carries that header, whose lower-cased name is on the list, and
    carries no [Range]. *)
Lemma worker_forwards_authorization :
  ∃ req,
    (Engine.startDownload Sample.platform 1000 Examples.sampleIds "d3"
       Examples.stAuth).2 = Engine.Pending [req] ∧
    Engine.req_headers req !! "Authorization" = Some "Bearer t" ∧
    JS.toLowerCase "Authorization" ∈ Monitor.blocked ∧
    Engine.req_headers req !! "Range" = None.
Proof.
  eexists. split; [vm_compute; reflexivity|].
  split; [vm_compute; reflexivity|].
  split; [vm_compute; set_solver | vm_compute; reflexivity].
Qed.

(** C6, amended.  The fourteen names are stripped, without regard to
    case, by [cleanHeaders], which the ingestion endpoint applies to the
    request headers of every browser message it hands on: a header is kept
    exactly when its lower-cased name is not on the list and its name is
    not [__proto__].  The segment worker forwards the headers of the
    download as they are, over a default [User-Agent], and sets [Range] of
    its own exactly when the download is resumable and the segment has a
    positive length: to [bytes=<start>-<end>] with the sums
    [offset + downloaded] and [offset + length - 1] of JavaScript numbers,
    which are the exact sums, written in decimal, as long as offset and
    byte count are not negative and both sums stay below 2^53. *)
Theorem header_hygiene :
  (∀ (h : gmap string string) (k : string),
     Monitor.cleanHeaders (Some h) !! k =
       if bool_decide (JS.toLowerCase k ∈ Monitor.blocked ∨ k = Monitor.proto)
       then None else h !! k) ∧
  Monitor.cleanHeaders None = ∅ ∧
  (∀ item segment (k : string), k ≠ "Range" →
     Engine.requestHeaders item segment !! k =
       match default ∅ (DownloadItem.headers item) !! k with
       | Some v => Some v
       | None => if bool_decide (k = "User-Agent") then Some Engine.userAgent else None
       end) ∧
  (∀ item segment,
     Engine.requestHeaders item segment !! "Range" =
       if DownloadItem.resumable item && (0 <? DownloadSegment.length segment)
       then Some ("bytes=" +:+
                  JS.numberToString
                    (JS.add (DownloadSegment.offset segment)
                       (DownloadSegment.downloaded segment))
                  +:+ "-" +:+
                  JS.numberToString
                    (JS.sub (JS.add (DownloadSegment.offset segment)
                               (DownloadSegment.length segment)) 1))
       else default ∅ (DownloadItem.headers item) !! "Range") ∧
  (∀ item segment,
     DownloadItem.resumable item = true →
     0 < DownloadSegment.length segment →
     0 ≤ DownloadSegment.offset segment →
     0 ≤ DownloadSegment.downloaded segment →
     DownloadSegment.offset segment + DownloadSegment.downloaded segment < 2 ^ 53 →
     DownloadSegment.offset segment + DownloadSegment.length segment < 2 ^ 53 →
     Engine.requestHeaders item segment !! "Range" =
       Some ("bytes=" +:+
             pretty (DownloadSegment.offset segment + DownloadSegment.downloaded segment)
             +:+ "-" +:+
             pretty (DownloadSegment.offset segment + DownloadSegment.length segment - 1))).
Proof.
  split.
  { intros h k. unfold Monitor.cleanHeaders.
    rewrite map_lookup_filter. destruct (h !! k) as [v|] eqn:E; simpl.
    - case_bool_decide as Hb.
      + rewrite option_guard_False; [reflexivity | simpl; tauto].
      + rewrite option_guard_True; [reflexivity | simpl; tauto].
    - case_bool_decide; reflexivity. }
  split; [reflexivity|].
  assert (Hbase : ∀ item (k : string),
            (default ∅ (DownloadItem.headers item) ∪ {[ "User-Agent" := Engine.userAgent ]}) !! k =
            match default ∅ (DownloadItem.headers item) !! k with
            | Some v => Some v
            | None => if bool_decide (k = "User-Agent") then Some Engine.userAgent else None
            end).
  { intros item k. rewrite lookup_union.
    destruct (default ∅ (DownloadItem.headers item) !! k) as [v|]; simpl.
    - destruct (_ !! k); reflexivity.
    - case_bool_decide as Hk.
      + subst k. rewrite lookup_singleton_eq. reflexivity.
      + rewrite lookup_singleton_ne by congruence. reflexivity. }
  split.
  { intros item segment k Hk. unfold Engine.requestHeaders.
    destruct (DownloadItem.resumable item && (0 <? DownloadSegment.length segment)).
    + rewrite lookup_insert_ne by congruence. apply Hbase.
    + apply Hbase. }
  split.
  { intros item segment. unfold Engine.requestHeaders.
    destruct (DownloadItem.resumable item && (0 <? DownloadSegment.length segment)).
    + rewrite lookup_insert_eq. reflexivity.
    + rewrite Hbase. destruct (default ∅ (DownloadItem.headers item) !! "Range"); [reflexivity|].
      case_bool_decide; [discriminate | reflexivity]. }
  intros item segment Hres Hlen Hoff Hdown Hstart Hend.
  apply requestHeaders_Range; assumption.
Qed.

(** The amended C6 at the download with credentials: the worker forwards
    [Authorization] as the download holds it. *)
Lemma header_hygiene_witness :
  Engine.requestHeaders Examples.authItem Examples.wholeFile !! "Authorization" =
    match default ∅ (DownloadItem.headers Examples.authItem) !! "Authorization" with
    | Some v => Some v
    | None =>
        if bool_decide ("Authorization" = "User-Agent") then Some Engine.userAgent else None
    end.
Proof.
  apply (proj1 (proj2 (proj2 header_hygiene)) Examples.authItem Examples.wholeFile
           "Authorization").
  discriminate.
Defined.

Example cleanHeaders_sample :
  map_to_list
    (Monitor.cleanHeaders
       (Some {[ "Authorization" := "x"; "Cookie" := "c"; "RANGE" := "bytes=0-1" ]}))
  = [ ("Cookie", "c") ].
Proof. vm_compute. reflexivity. Qed.

(* --------------------------------------------------------------------- *)
(** ** Schedule window *)
(* --------------------------------------------------------------------- *)

Section Schedule.

Import Queue.

Lemma HHmm_table :
  forallb (λ h, forallb (readsBack h) (seqZ 0 60)) (seqZ 0 24) = true.
Proof. vm_compute. reflexivity. Qed.

Lemma HHmm_reads_back (h m : Z) :
  0 ≤ h < 24 → 0 ≤ m < 60 →
  JS.Number <$> JS.split ":" (HHmm h m) = [Some h; Some m].
Proof.
  intros Hh Hm. pose proof HHmm_table as T.
  rewrite forallb_forall in T.
  specialize (T h). rewrite forallb_forall in T.
  assert (Hin : ∀ x n, 0 ≤ x < n → In x (seqZ 0 n)).
  { intros x n Hx. apply list_elem_of_In, elem_of_seqZ. lia. }
  specialize (T (Hin h 24 Hh) m (Hin m 60 Hm)).
  unfold readsBack in T. apply bool_decide_eq_true in T. exact T.
Qed.

(** C7.  For a schedule whose start and end are times of day written
    HH:mm, and any local time, [isWithinSchedule] holds if and only if the
    weekday is one of [days] and, in minutes of the day, the current time
    lies in [[start, end]], bounds included, when [start <= end], and is at
    or after [start] or at or before [end] when [start > end]. *)
Theorem isWithinSchedule_window (enabled : bool) (sH sM eH eM : Z) (days : list Z)
    (now : LocalTime) :
  0 ≤ sH < 24 → 0 ≤ sM < 60 → 0 ≤ eH < 24 → 0 ≤ eM < 60 →
  let schedule := QueueSchedule.mk enabled (HHmm sH sM) (HHmm eH eM) days in
  let start := sH * 60 + sM in
  let end_ := eH * 60 + eM in
  let current := getHours now * 60 + getMinutes now in
  isWithinSchedule schedule now = true ↔
    getDay now ∈ days ∧
    ((start ≤ end_ ∧ start ≤ current ≤ end_) ∨
     (end_ < start ∧ (start ≤ current ∨ current ≤ end_))).
Proof.
  intros HsH HsM HeH HeM schedule start end_ current.
  unfold isWithinSchedule.
  cbn [QueueSchedule.days QueueSchedule.startTime QueueSchedule.endTime schedule].
  rewrite (HHmm_reads_back sH sM HsH HsM), (HHmm_reads_back eH eM HeH HeM).
  cbn [num_at lookup list_lookup mjoin option_join mul60_add le].
  fold start end_ current.
  case_bool_decide as Hday; cbn [negb].
  - destruct (Z.leb_spec start end_) as [Hle|Hgt].
    + rewrite andb_true_iff, !Z.leb_le. intuition lia.
    + rewrite orb_true_iff, !Z.leb_le. intuition lia.
  - split; [discriminate | tauto].
Qed.

(** A queue whose schedule is enabled hands out nothing outside the
    window. *)
Lemma getNextDownloadIds_outside queues now queueId active queue schedule :
  queues !! queueId = Some queue →
  DownloadQueue.schedule queue = Some schedule →
  QueueSchedule.enabled schedule = true →
  isWithinSchedule schedule now = false →
  getNextDownloadIds queues now queueId active = [].
Proof.
  intros Hq Hs He Hw. unfold getNextDownloadIds. rewrite Hq, Hs, He, Hw.
  destruct (negb _); [reflexivity|]. destruct (_ =? 0); reflexivity.
Qed.

End Schedule.

(** C7 at the window 22:00 to 02:00 on Fridays, Friday 23:30. *)
Lemma isWithinSchedule_window_witness :
  Queue.isWithinSchedule Examples.fridayNight Examples.friday2330 = true ↔
    5 ∈ [5] ∧
    ((22 * 60 + 0 ≤ 2 * 60 + 0 ∧ 22 * 60 + 0 ≤ 23 * 60 + 30 ≤ 2 * 60 + 0) ∨
     (2 * 60 + 0 < 22 * 60 + 0 ∧
      (22 * 60 + 0 ≤ 23 * 60 + 30 ∨ 23 * 60 + 30 ≤ 2 * 60 + 0))).
Proof.
  apply (isWithinSchedule_window true 22 0 2 0 [5] Examples.friday2330); lia.
Defined.

Example friday_2330 :
  Queue.isWithinSchedule Examples.fridayNight Examples.friday2330 = true.
Proof. vm_compute. reflexivity. Qed.

Example friday_0100 :
  Queue.isWithinSchedule Examples.fridayNight
    {| Queue.getDay := 5; Queue.getHours := 1; Queue.getMinutes := 0 |} = true.
Proof. vm_compute. reflexivity. Qed.

Example saturday_0100 :
  Queue.isWithinSchedule Examples.fridayNight
    {| Queue.getDay := 6; Queue.getHours := 1; Queue.getMinutes := 0 |} = false.
Proof. vm_compute. reflexivity. Qed.

(* --------------------------------------------------------------------- *)
(** ** Ingestion endpoint: media filter *)
(* --------------------------------------------------------------------- *)

Lemma prefix_toLowerCase (p s : string) :
  String.prefix p s = true →
  String.prefix (JS.toLowerCase p) (JS.toLowerCase s) = true.
Proof.
  revert p. induction s as [|b s IH]; intros [|a p]; simpl; try (intros; congruence).
  destruct (ascii_dec a b) as [->|]; [|discriminate].
  intros H. destruct (ascii_dec (JS.lowerChar b) (JS.lowerChar b)); [auto | congruence].
Qed.

Lemma includes_toLowerCase (s sub : string) :
  JS.includes s sub = true →
  JS.includes (JS.toLowerCase s) (JS.toLowerCase sub) = true.
Proof.
  induction s as [|c s IH]; simpl; rewrite !orb_true_iff.
  - intros [H|H]; [|discriminate]. left.
    apply (prefix_toLowerCase sub EmptyString H).
  - intros [H|H].
    + left. apply (prefix_toLowerCase sub (String c s) H).
    + right. auto.
Qed.

Lemma startsWith_lower (s p : string) :
  JS.toLowerCase p = p →
  JS.startsWith s p = true → JS.startsWith (JS.toLowerCase s) p = true.
Proof.
  intros Hp H. unfold JS.startsWith in *. rewrite <- Hp.
  apply prefix_toLowerCase, H.
Qed.

Lemma includes_lower (s sub : string) :
  JS.toLowerCase sub = sub →
  JS.includes s sub = true → JS.includes (JS.toLowerCase s) sub = true.
Proof.
  intros Hp H. rewrite <- Hp. apply includes_toLowerCase, H.
Qed.

Section Media.

Context (P : Platform).

(** C9.  For a [/media] message that is not classified as YouTube, if the
    reported content length is positive and below 500*1024, or the
    effective content type starts with [text/], [font/] or [image/svg] or
    contains [javascript], [json] or [xml], then the media list is left as
    it was and nothing is emitted. *)
Theorem onMediaMessage_rejects_small_and_web now newId st msg :
  (∀ u, BrowserMessage.url msg = Some u →
        Monitor.isYouTube u (BrowserMessage.tabUrl msg) = false) →
  let ct := Monitor.effectiveContentType msg in
  (∃ n, BrowserMessage.contentLength msg = Some n ∧ 0 < n < 500 * 1024) ∨
  JS.startsWith ct "text/" = true ∨ JS.startsWith ct "font/" = true ∨
  JS.startsWith ct "image/svg" = true ∨ JS.includes ct "javascript" = true ∨
  JS.includes ct "json" = true ∨ JS.includes ct "xml" = true →
  let st' := Monitor.onMediaMessage P now newId st (Monitor.JsonMessage msg) in
  Monitor.mediaList st' = Monitor.mediaList st ∧
  Monitor.emitted st' = Monitor.emitted st.
Proof.
  intros Hyt ct Hcase st'.
  enough (st' = st) as -> by (split; reflexivity).
  subst st'. unfold Monitor.onMediaMessage.
  destruct (JS.truthy (BrowserMessage.url msg)) as [u|] eqn:Hu; [|reflexivity].
  assert (Hurl : BrowserMessage.url msg = Some u).
  { destruct (BrowserMessage.url msg) as [[|c s]|]; simpl in Hu; congruence. }
  fold ct.
  destruct (Monitor.isWebResource (JS.toLowerCase ct)) eqn:Hweb; [reflexivity|].
  rewrite (Hyt u Hurl). cbn [negb andb].
  destruct Hcase as [(n & Hn & Hlt) | Hweb'].
  - rewrite Hn.
    replace (0 <? n) with true by (symmetry; apply Z.ltb_lt; lia).
    replace (n <? 500 * 1024) with true by (symmetry; apply Z.ltb_lt; lia).
    reflexivity.
  - exfalso. unfold Monitor.isWebResource in Hweb.
    repeat (apply orb_false_elim in Hweb as [Hweb ?]).
    destruct Hweb' as [Hc|[Hc|[Hc|[Hc|[Hc|Hc]]]]];
      first [ apply (startsWith_lower _ _ eq_refl) in Hc
            | apply (includes_lower _ _ eq_refl) in Hc ];
      congruence.
Qed.

End Media.

(** C9 at a 20 kB clip from a site that is not YouTube. *)
Lemma onMediaMessage_rejects_small_and_web_witness :
  let st' := Monitor.onMediaMessage Sample.platform 1000 "m1" Examples.emptyMonitor
               (Monitor.JsonMessage Examples.thumbnail) in
  Monitor.mediaList st' = [] ∧ Monitor.emitted st' = [].
Proof.
  apply (onMediaMessage_rejects_small_and_web Sample.platform 1000 "m1"
           Examples.emptyMonitor Examples.thumbnail).
  - intros u [= <-]. vm_compute. reflexivity.
  - left. exists 20000. split; [reflexivity | lia].
Defined.

(* --------------------------------------------------------------------- *)
(** ** Ingestion endpoint: the answer *)
(* --------------------------------------------------------------------- *)

(** C4, as stated, fails: a [POST /download] whose body is not JSON is
    answered 200 with the sync snapshot, not 400. *)
Lemma malformed_body_answered_200 :
  Monitor.handleRequest Sample.platform 1000 "m1" Examples.emptyMonitor
    Examples.malformedDownload =
    (Examples.emptyMonitor,
     {| Monitor.statusCode := 200;
        Monitor.body := Monitor.Json (Monitor.syncSnapshot Examples.emptyMonitor) |}) ∧
  Monitor.statusCode
    (Monitor.handleRequest Sample.platform 1000 "m1" Examples.emptyMonitor
       Examples.malformedDownload).2 ≠ 400.
Proof. split; [vm_compute; reflexivity | vm_compute; discriminate]. Qed.

Section Endpoint.

Context (P : Platform).

Lemma dispatch_SyntaxError now newId path st :
  path ≠ "/clear" →
  Monitor.dispatch P now newId path st Monitor.SyntaxError = st.
Proof.
  intros Hclear. unfold Monitor.dispatch.
  destruct (String.eqb path "/sync"); [reflexivity|].
  destruct (String.eqb path "/download"); [reflexivity|].
  destruct (String.eqb path "/media"); [reflexivity|].
  destruct (String.eqb path "/vid"); [reflexivity|].
  destruct (String.eqb path "/tab-update"); [reflexivity|].
  destruct (String.eqb_spec path "/clear"); [contradiction|].
  destruct (String.eqb path "/link"); reflexivity.
Qed.

(** C4, amended.  Every request other than [OPTIONS] is answered 200 with
    the sync snapshot (the configuration and the media list as the request
    leaves them), also when its body is malformed: the handler catches the
    parse error, and on every path but [/clear], which reads no body, a
    malformed body leaves the media list and the event log as they were,
    so that nothing reaches the download engine. *)
Theorem handleRequest_answers_sync now newId st req :
  Monitor.req_method req ≠ "OPTIONS" →
  let st' := (Monitor.handleRequest P now newId st req).1 in
  let res := (Monitor.handleRequest P now newId st req).2 in
  Monitor.statusCode res = 200 ∧
  Monitor.body res = Monitor.Json (Monitor.syncSnapshot st') ∧
  (Monitor.req_body req = Monitor.SyntaxError →
   JS.orElse (Monitor.req_url req) "/" ≠ "/clear" →
   st' = st).
Proof.
  intros Hm st' res. subst st' res. unfold Monitor.handleRequest.
  destruct (String.eqb_spec (Monitor.req_method req) "OPTIONS"); [contradiction|].
  cbn [fst snd]. split; [reflexivity|]. split; [reflexivity|].
  intros -> Hpath. apply dispatch_SyntaxError, Hpath.
Qed.

(** A preflight is answered 204 and changes nothing. *)
Lemma handleRequest_OPTIONS now newId st req :
  Monitor.req_method req = "OPTIONS" →
  Monitor.handleRequest P now newId st req =
    (st, {| Monitor.statusCode := 204; Monitor.body := Monitor.NoBody |}).
Proof. intros H. unfold Monitor.handleRequest. rewrite H. reflexivity. Qed.

End Endpoint.

(** The amended C4 at the malformed [POST /download]. *)
Lemma handleRequest_answers_sync_witness :
  let st' := (Monitor.handleRequest Sample.platform 1000 "m1" Examples.emptyMonitor
                Examples.malformedDownload).1 in
  let res := (Monitor.handleRequest Sample.platform 1000 "m1" Examples.emptyMonitor
                Examples.malformedDownload).2 in
  Monitor.statusCode res = 200 ∧
  Monitor.body res = Monitor.Json (Monitor.syncSnapshot st') ∧
  (Monitor.req_body Examples.malformedDownload = Monitor.SyntaxError →
   JS.orElse (Monitor.req_url Examples.malformedDownload) "/" ≠ "/clear" →
   st' = Examples.emptyMonitor).
Proof.
  apply (handleRequest_answers_sync Sample.platform 1000 "m1" Examples.emptyMonitor
           Examples.malformedDownload).
  discriminate.
Defined.

(* --------------------------------------------------------------------- *)
(** ** Ingestion endpoint: YouTube ranges *)
(* --------------------------------------------------------------------- *)






Section Dedup.

Context (P : Platform).






End Dedup.


(* ===================================================================== *)
(** * Further properties *)
(* ===================================================================== *)

(* --------------------------------------------------------------------- *)
(** ** Load *)
(* --------------------------------------------------------------------- *)

Lemma recovered_status item :
  DownloadItem.status (Lifecycle.recovered item) ≠ downloading ∧
  DownloadItem.status (Lifecycle.recovered item) ≠ assembling.
Proof.
  unfold Lifecycle.recovered.
  destruct (DownloadItem.status item) eqn:E; simpl; rewrite ?E; split; discriminate.
Qed.

Lemma loadState_snoc items item :
  Lifecycle.loadState (Some (items ++ [item])) =
  <[ DownloadItem.id item := Lifecycle.recovered item ]> (Lifecycle.loadState (Some items)).
Proof. unfold Lifecycle.loadState. rewrite foldl_app. reflexivity. Qed.

(** X1.  After [loadState], no download is [downloading] or [assembling]:
    every download the engine holds is a record of the file under its id,
    a record found in one of these two states set to [paused] with speed
    and eta 0 and every other record as it was; byte counters and segments
    are never touched. *)
Theorem loadState_recovers items id item :
  Lifecycle.loadState (Some items) !! id = Some item →
  DownloadItem.status item ≠ downloading ∧
  DownloadItem.status item ≠ assembling ∧
  ∃ orig,
    orig ∈ items ∧ DownloadItem.id orig = id ∧
    item = Lifecycle.recovered orig ∧
    DownloadItem.segments item = DownloadItem.segments orig ∧
    DownloadItem.downloaded item = DownloadItem.downloaded orig ∧
    (DownloadItem.status orig ≠ downloading →
     DownloadItem.status orig ≠ assembling → item = orig) ∧
    (DownloadItem.status orig = downloading ∨ DownloadItem.status orig = assembling →
     DownloadItem.status item = paused ∧ DownloadItem.speed item = 0 ∧
     DownloadItem.eta item = 0).
Proof.
  revert item. induction items as [|x items IH] using rev_ind; intros item.
  - intros H. discriminate.
  - rewrite loadState_snoc.
    destruct (decide (DownloadItem.id x = id)) as [Hid|Hid].
    + rewrite Hid, lookup_insert_eq. intros [= <-].
      destruct (recovered_status x) as [H1 H2]. split; [exact H1|]. split; [exact H2|].
      exists x. split; [apply elem_of_app; right; apply list_elem_of_singleton; reflexivity|].
      split; [exact Hid|]. split; [reflexivity|].
      unfold Lifecycle.recovered.
      destruct (DownloadItem.status x) eqn:E; simpl;
        (split; [reflexivity|]; split; [reflexivity|]; split;
         [ intros; first [reflexivity | congruence]
         | intros [?|?]; first [congruence | repeat split; reflexivity] ]).
    + rewrite lookup_insert_ne by exact Hid. intros H.
      destruct (IH item H) as (H1 & H2 & orig & Hin & Hrest).
      split; [exact H1|]. split; [exact H2|].
      exists orig. split; [apply elem_of_app; left; exact Hin | exact Hrest].
Qed.

(* --------------------------------------------------------------------- *)
(** ** Pause, resume, cancel, remove *)
(* --------------------------------------------------------------------- *)

(** X2.  [pauseDownload] on a download the engine holds sets its status
    to [paused], leaves its byte counter and its segments as they were,
    and aborts every registered controller: a chunk that arrives afterwards
    for a worker whose controller is registered changes nothing. *)
Theorem pauseDownload_halts id st item :
  Engine.downloads st !! id = Some item →
  let st' := (Lifecycle.pauseDownload id st).1.1 in
  ∃ item',
    Engine.downloads st' !! id = Some item' ∧
    (Lifecycle.pauseDownload id st).2 = Some item' ∧
    DownloadItem.status item' = paused ∧
    DownloadItem.downloaded item' = DownloadItem.downloaded item ∧
    DownloadItem.segments item' = DownloadItem.segments item ∧
    (∀ (i : nat) seg a chunk,
       DownloadItem.segments item !! i = Some seg →
       Engine.activeDownloads st !! id = Some a →
       is_Some (Engine.abortControllers a !! DownloadSegment.id seg) →
       Engine.onData id i chunk st' = st').
Proof.
  intros Hitem st'. subst st'. unfold Lifecycle.pauseDownload. rewrite Hitem.
  cbn [fst snd]. eexists. split; [apply lookup_insert_eq|].
  split; [reflexivity|]. split; [reflexivity|]. split; [reflexivity|].
  split; [reflexivity|].
  intros i seg a chunk Hseg Ha [b Hb].
  unfold Engine.onData.
  match goal with |- (if ?c then _ else _) = _ => assert (Hab : c = true) end.
  { unfold Engine.aborted, Engine.segment_id_at. cbn [Engine.downloads Engine.activeDownloads].
    rewrite lookup_insert_eq. simpl. rewrite Hseg. simpl.
    rewrite lookup_alter_eq, Ha. simpl.
    rewrite lookup_fmap, Hb. reflexivity. }
  rewrite Hab. reflexivity.
Qed.

Lemma resumeSegment_keeps segment :
  DownloadSegment.id (Lifecycle.resumeSegment segment) = DownloadSegment.id segment ∧
  DownloadSegment.offset (Lifecycle.resumeSegment segment) = DownloadSegment.offset segment ∧
  DownloadSegment.length (Lifecycle.resumeSegment segment) = DownloadSegment.length segment ∧
  DownloadSegment.downloaded (Lifecycle.resumeSegment segment) =
    DownloadSegment.downloaded segment ∧
  (DownloadSegment.state segment = Engine.Failed →
   DownloadSegment.state (Lifecycle.resumeSegment segment) = Engine.NotStarted) ∧
  (DownloadSegment.state segment ≠ Engine.Failed →
   Lifecycle.resumeSegment segment = segment).
Proof.
  unfold Lifecycle.resumeSegment.
  destruct (Z.eqb_spec (DownloadSegment.state segment) Engine.Failed); simpl;
    repeat split; try reflexivity; try congruence; intros; congruence.
Qed.

(** What [startDownload] leaves under [id] when it starts a download. *)
Lemma startDownload_started P now ids id st item :
  Engine.downloads st !! id = Some item →
  DownloadItem.status item ≠ downloading →
  Engine.downloads (Engine.startDownload P now ids id st).1 !! id =
    Some (Lifecycle.started ids item) ∧
  (∀ other, other ≠ id →
     Engine.downloads (Engine.startDownload P now ids id st).1 !! other =
     Engine.downloads st !! other).
Proof.
  intros Hitem Hs. unfold Engine.startDownload. rewrite Hitem.
  destruct (DownloadItem.status item) eqn:E; try congruence;
    (match goal with
     | |- context [Engine.spawnWorkers ?a ?b ?c ?d] =>
         destruct (Engine.spawnWorkers a b c d) as [active' requests]
     end;
     cbn [fst Engine.downloads]; split;
     [ rewrite lookup_insert_eq; reflexivity
     | intros other Ho; rewrite lookup_insert_ne by congruence; reflexivity ]).
Qed.

(** X3.  [resumeDownload] does nothing to a download that is neither
    paused nor failed, and returns it.  On a paused or failed download it
    starts the download again: no byte count is lost, neither of the
    download nor of a segment; offsets and lengths stay; a failed segment
    is not started, every other segment keeps its state. *)
Theorem resumeDownload_keeps_bytes P now ids id st item :
  Engine.downloads st !! id = Some item →
  (DownloadItem.status item ≠ paused → DownloadItem.status item ≠ failed →
   Lifecycle.resumeDownload P now ids id st = (st, Engine.Returned (Some item))) ∧
  (DownloadItem.status item = paused ∨ DownloadItem.status item = failed →
   DownloadItem.segments item ≠ [] →
   ∃ item',
     Engine.downloads (Lifecycle.resumeDownload P now ids id st).1 !! id = Some item' ∧
     DownloadItem.status item' = downloading ∧
     DownloadItem.error item' = None ∧
     DownloadItem.downloaded item' = DownloadItem.downloaded item ∧
     DownloadItem.segments item' = Lifecycle.resumeSegment <$> DownloadItem.segments item ∧
     ∀ (i : nat) seg, DownloadItem.segments item !! i = Some seg →
       ∃ seg', DownloadItem.segments item' !! i = Some seg' ∧
         DownloadSegment.downloaded seg' = DownloadSegment.downloaded seg ∧
         DownloadSegment.offset seg' = DownloadSegment.offset seg ∧
         DownloadSegment.length seg' = DownloadSegment.length seg ∧
         (DownloadSegment.state seg = Engine.Failed →
          DownloadSegment.state seg' = Engine.NotStarted) ∧
         (DownloadSegment.state seg ≠ Engine.Failed → seg' = seg)).
Proof.
  intros Hitem. split.
  - intros Hp Hf. unfold Lifecycle.resumeDownload. rewrite Hitem.
    destruct (DownloadItem.status item); congruence.
  - intros Hs Hne. unfold Lifecycle.resumeDownload. rewrite Hitem.
    set (item1 := Engine.set_segments
                    (Lifecycle.resumeSegment <$> DownloadItem.segments item) item).
    set (st1 := {| Engine.downloads := <[id:=item1]> (Engine.downloads st);
                   Engine.activeDownloads := Engine.activeDownloads st;
                   Engine.emitted := Engine.emitted st |}).
    assert (Hst : Engine.startDownload P now ids id st1 =
                  match DownloadItem.status item with
                  | paused | failed => Engine.startDownload P now ids id st1
                  | _ => (st, Engine.Returned (Some item))
                  end).
    { destruct Hs as [-> | ->]; reflexivity. }
    rewrite <- Hst. clear Hst.
    destruct (startDownload_started P now ids id st1 item1) as [Hl _].
    { apply lookup_insert_eq. }
    { simpl. destruct Hs as [-> | ->]; discriminate. }
    exists (Lifecycle.started ids item1). split; [exact Hl|].
    assert (Hsegs : DownloadItem.segments (Lifecycle.started ids item1) =
                    Lifecycle.resumeSegment <$> DownloadItem.segments item).
    { unfold Lifecycle.started. simpl.
      destruct (DownloadItem.segments item) as [|s l]; [congruence | reflexivity]. }
    split; [reflexivity|]. split; [reflexivity|].
    split.
    { unfold Lifecycle.started. simpl.
      destruct (DownloadItem.segments item); reflexivity. }
    split; [exact Hsegs|].
    intros i seg Hseg. exists (Lifecycle.resumeSegment seg).
    rewrite Hsegs, list_lookup_fmap, Hseg. split; [reflexivity|].
    destruct (resumeSegment_keeps seg) as (_ & H2 & H3 & H4 & H5 & H6). auto.
Qed.

(** X4.  [removeDownload] always answers true and emits
    [download:removed], also for an id the engine does not hold; afterwards
    the engine holds neither a download nor an active record under that id,
    and every other download is as it was. *)
Theorem removeDownload_forgets id st :
  let '(st', events, answer) := Lifecycle.removeDownload id st in
  answer = true ∧
  List.last events (Lifecycle.download_removed "") = Lifecycle.download_removed id ∧
  Engine.downloads st' !! id = None ∧
  Engine.activeDownloads st' !! id = None ∧
  (∀ other, other ≠ id → Engine.downloads st' !! other = Engine.downloads st !! other) ∧
  (Engine.downloads st !! id = None → events = [Lifecycle.download_removed id]).
Proof.
  unfold Lifecycle.removeDownload, Lifecycle.cancelDownload.
  destruct (Engine.downloads st !! id) as [item|] eqn:Hitem; cbn [Engine.downloads Engine.activeDownloads].
  - split; [reflexivity|]. split; [reflexivity|].
    split; [apply lookup_delete_eq|]. split; [apply lookup_delete_eq|].
    split; [|discriminate].
    intros other Ho. rewrite lookup_delete_ne, lookup_insert_ne by congruence. reflexivity.
  - split; [reflexivity|]. split; [reflexivity|].
    split; [apply lookup_delete_eq|]. split; [apply lookup_delete_eq|].
    split; [|reflexivity].
    intros other Ho. rewrite lookup_delete_ne by congruence. reflexivity.
Qed.

(* --------------------------------------------------------------------- *)
(** ** Workers started, bytes counted, downloads settled *)
(* --------------------------------------------------------------------- *)

Lemma spawnWorkers_requests P item u segs active :
  URL_parse P (DownloadItem.url item) = Some u →
  (Engine.spawnWorkers P item segs active).2 =
  (λ p : nat * DownloadSegment.t,
     {| Engine.req_method := "GET";
        Engine.req_url := u;
        Engine.req_headers := Engine.requestHeaders item p.2;
        Engine.req_timeout := 30000;
        Engine.req_download := DownloadItem.id item;
        Engine.req_segment := p.1 |}) <$> segs.
Proof.
  intros Hu. revert active. induction segs as [|[i seg] segs IH]; intros active.
  - reflexivity.
  - simpl. unfold Engine.downloadSegment at 1. rewrite Hu.
    specialize (IH (Engine.set_abortControllers
                      (<[DownloadSegment.id seg:=false]> (Engine.abortControllers active))
                      active)).
    destruct (Engine.spawnWorkers P item segs _) as [active2 rs].
    simpl in *. rewrite IH. reflexivity.
Qed.

Lemma spawnWorkers_unparsable P item segs active :
  URL_parse P (DownloadItem.url item) = None →
  Engine.spawnWorkers P item segs active = (active, []).
Proof.
  intros Hu. induction segs as [|[i seg] segs IH]; [reflexivity|].
  simpl. unfold Engine.downloadSegment at 1. rewrite Hu, IH. reflexivity.
Qed.

Lemma startDownload_settled P now ids id st item :
  Engine.downloads st !! id = Some item →
  DownloadItem.status item ≠ downloading →
  (Engine.startDownload P now ids id st).2 =
  Engine.Pending
    (Engine.spawnWorkers P (Lifecycle.started ids item)
       (Lifecycle.unfinished (Lifecycle.started ids item))
       {| Engine.abortControllers := ∅;
          Engine.startTime := now;
          Engine.bytesAtStart := DownloadItem.downloaded (Lifecycle.started ids item);
          Engine.lastSpeedCalcTime := now;
          Engine.lastSpeedCalcBytes := DownloadItem.downloaded (Lifecycle.started ids item)
       |}).2.
Proof.
  intros Hitem Hs. unfold Engine.startDownload. rewrite Hitem.
  destruct (DownloadItem.status item) eqn:E; try congruence;
    (unfold Lifecycle.unfinished, Lifecycle.started;
     match goal with
     | |- context [Engine.spawnWorkers ?a ?b ?c ?d] =>
         destruct (Engine.spawnWorkers a b c d) as [active' requests]
     end; reflexivity).
Qed.

(** X5.  When [startDownload] starts a download whose address parses, it
    issues one GET per segment that is not finished, in segment order, and
    none for a finished segment; the request of a segment carries the
    headers [requestHeaders] builds for it, so that a resumable segment of
    positive length is asked from [offset + downloaded] on.  When the
    address does not parse, no request leaves. *)
Theorem startDownload_requests P now ids id st item :
  Engine.downloads st !! id = Some item →
  DownloadItem.status item ≠ downloading →
  let item' := Lifecycle.started ids item in
  (∀ u, URL_parse P (DownloadItem.url item) = Some u →
     ∃ requests,
       (Engine.startDownload P now ids id st).2 = Engine.Pending requests ∧
       Engine.req_segment <$> requests = fst <$> Lifecycle.unfinished item' ∧
       (∀ req, req ∈ requests →
          ∃ seg,
            DownloadItem.segments item' !! Engine.req_segment req = Some seg ∧
            DownloadSegment.state seg ≠ Engine.Finished ∧
            Engine.req_method req = "GET" ∧
            Engine.req_url req = u ∧
            Engine.req_headers req = Engine.requestHeaders item' seg) ∧
       (∀ (i : nat) seg,
          DownloadItem.segments item' !! i = Some seg →
          DownloadSegment.state seg ≠ Engine.Finished →
          ∃ req, req ∈ requests ∧ Engine.req_segment req = i)) ∧
  (URL_parse P (DownloadItem.url item) = None →
   (Engine.startDownload P now ids id st).2 = Engine.Pending []).
Proof.
  intros Hitem Hs item'. rewrite (startDownload_settled P now ids id st item Hitem Hs).
  fold item'.
  assert (Hurl : DownloadItem.url item' = DownloadItem.url item).
  { unfold item', Lifecycle.started. simpl. destruct (DownloadItem.segments item); reflexivity. }
  assert (Hunf : ∀ p, p ∈ Lifecycle.unfinished item' ↔
                      DownloadItem.segments item' !! p.1 = Some p.2 ∧
                      DownloadSegment.state p.2 ≠ Engine.Finished).
  { intros [i seg]. unfold Lifecycle.unfinished.
    rewrite list_elem_of_filter, list_elem_of_lookup. simpl. split.
    - intros [Hst [j Hj]]. rewrite list_lookup_imap in Hj.
      apply fmap_Some in Hj as (d & Hd & Heq). injection Heq as -> ->. auto.
    - intros [Hl Hst]. split; [exact Hst|]. exists i.
      rewrite list_lookup_imap, Hl. reflexivity. }
  split.
  - intros u Hu. rewrite <- Hurl in Hu.
    rewrite (spawnWorkers_requests P item' u _ _ Hu).
    eexists. split; [reflexivity|]. split.
    { rewrite <- list_fmap_compose. reflexivity. }
    split.
    + intros req Hreq. apply list_elem_of_fmap in Hreq as ([i seg] & -> & Hp).
      apply Hunf in Hp as [Hl Hst]. exists seg. simpl. auto.
    + intros i seg Hl Hst. eexists. split.
      * apply list_elem_of_fmap. exists (i, seg). split; [reflexivity|].
        apply Hunf. auto.
      * reflexivity.
  - intros Hu. rewrite <- Hurl in Hu.
    rewrite (spawnWorkers_unparsable P item' _ _ Hu). reflexivity.
Qed.



Lemma allDone_Forall item :
  Lifecycle.allDone item = true ↔
  Forall (λ s, DownloadSegment.state s = Engine.Finished) (DownloadItem.segments item).
Proof.
  unfold Lifecycle.allDone. rewrite forallb_forall, Forall_forall.
  split; intros H s Hs.
  - apply Z.eqb_eq, H, list_elem_of_In, Hs.
  - apply Z.eqb_eq, H, list_elem_of_In, Hs.
Qed.

(** X7.  When the workers of a download have all settled: the download
    is completed, or handed to the assembler, only if it has segments and
    every one of them is finished; if a segment is not finished and the
    download is paused or stopped, its status stays and no failure is
    emitted; if a segment is not finished and the download is neither, it
    is failed with the error 'Some segments failed to download'.  Byte
    counts and segments are never touched. *)
Theorem onWorkersSettled_outcome noSegment nowIso io id st item :
  Engine.downloads st !! id = Some item →
  ∃ st' events item',
    Lifecycle.onWorkersSettled noSegment nowIso io id st = Some (st', events) ∧
    Engine.downloads st' !! id = Some item' ∧
    DownloadItem.segments item' = DownloadItem.segments item ∧
    DownloadItem.downloaded item' = DownloadItem.downloaded item ∧
    (DownloadItem.status item' = completed ∨ DownloadItem.status item' = assembling →
     DownloadItem.segments item ≠ [] ∧
     Forall (λ s, DownloadSegment.state s = Engine.Finished) (DownloadItem.segments item)) ∧
    (Lifecycle.allDone item = false → Lifecycle.isHalted item = true →
     DownloadItem.status item' = DownloadItem.status item ∧
     events = [ Lifecycle.emitProgress item' ]) ∧
    (Lifecycle.allDone item = false → Lifecycle.isHalted item = false →
     DownloadItem.status item' = failed ∧
     DownloadItem.error item' = Some "Some segments failed to download" ∧
     events = [ Lifecycle.download_failed id "Some segments failed to download";
                Lifecycle.emitProgress item' ]) ∧
    (DownloadItem.status item' ≠ assembling → Engine.activeDownloads st' !! id = None).
Proof.
  intros Hitem. unfold Lifecycle.onWorkersSettled. rewrite Hitem.
  assert (Hcaught : ∀ message,
            DownloadItem.status (Lifecycle.caught message item).1 ≠ completed ∧
            DownloadItem.status (Lifecycle.caught message item).1 ≠ assembling ∧
            DownloadItem.segments (Lifecycle.caught message item).1 =
              DownloadItem.segments item ∧
            DownloadItem.downloaded (Lifecycle.caught message item).1 =
              DownloadItem.downloaded item).
  { intros message. unfold Lifecycle.caught.
    destruct (Lifecycle.isHalted item) eqn:E; simpl; [|repeat split; discriminate].
    unfold Lifecycle.isHalted in E.
    destruct (DownloadItem.status item); try discriminate; repeat split; discriminate. }
  destruct (Lifecycle.allDone item) eqn:Hall.
  - pose proof (proj1 (allDone_Forall item) Hall) as Hfin.
    destruct (DownloadItem.segments item) as [|s [|s2 l]] eqn:Hsegs.
    + destruct (Hcaught noSegment) as (H1 & H2 & H3 & H4).
      eexists _, _, _. split; [reflexivity|]. cbn [Lifecycle.finish fst snd Engine.downloads Engine.activeDownloads].
      split; [apply lookup_insert_eq|]. simpl. rewrite H3, H4.
      split; [reflexivity|]. split; [reflexivity|].
      split; [intros [?|?]; congruence|].
      split; [discriminate|]. split; [discriminate|].
      intros _. apply lookup_delete_eq.
    + destruct io as [message|].
      * destruct (Hcaught message) as (H1 & H2 & H3 & H4).
        eexists _, _, _. split; [reflexivity|]. cbn [Lifecycle.finish fst snd Engine.downloads Engine.activeDownloads].
        split; [apply lookup_insert_eq|]. simpl. rewrite H3, H4.
        split; [reflexivity|]. split; [reflexivity|].
        split; [intros [?|?]; congruence|].
        split; [discriminate|]. split; [discriminate|].
        intros _. apply lookup_delete_eq.
      * eexists _, _, _. split; [reflexivity|]. cbn [Lifecycle.finish fst snd Engine.downloads Engine.activeDownloads].
        split; [apply lookup_insert_eq|]. simpl. rewrite ?Hsegs.
        split; [reflexivity|]. split; [reflexivity|].
        split; [intros _; split; [discriminate | exact Hfin]|].
        split; [discriminate|]. split; [discriminate|].
        intros _. apply lookup_delete_eq.
    + eexists _, _, _. split; [reflexivity|]. cbn [fst snd Engine.downloads Engine.activeDownloads].
      split; [apply lookup_insert_eq|]. simpl. rewrite ?Hsegs.
      split; [reflexivity|]. split; [reflexivity|].
      split; [intros _; split; [discriminate | exact Hfin]|].
      split; [discriminate|]. split; [discriminate|].
      intros H. contradiction H. reflexivity.
  - destruct (Lifecycle.isHalted item) eqn:Hh.
    + eexists _, _, _. split; [reflexivity|]. cbn [Lifecycle.finish fst snd Engine.downloads Engine.activeDownloads].
      split; [apply lookup_insert_eq|]. simpl.
      split; [reflexivity|]. split; [reflexivity|].
      split.
      { unfold Lifecycle.isHalted in Hh.
        destruct (DownloadItem.status item); try discriminate; intros [?|?]; discriminate. }
      split; [intros _ _; split; reflexivity|]. split; [discriminate|].
      intros _. apply lookup_delete_eq.
    + eexists _, _, _. split; [reflexivity|]. cbn [Lifecycle.finish fst snd Engine.downloads Engine.activeDownloads].
      split; [apply lookup_insert_eq|]. simpl.
      split; [reflexivity|]. split; [reflexivity|].
      split; [intros [?|?]; discriminate|].
      split; [discriminate|]. split; [intros _ _; repeat split; reflexivity|].
      intros _. apply lookup_delete_eq.
Qed.

(* --------------------------------------------------------------------- *)
(** ** The byte counter is the sum over the segments, always *)
(* --------------------------------------------------------------------- *)











(* --------------------------------------------------------------------- *)
(** ** Compositions *)
(* --------------------------------------------------------------------- *)

(** X9.  A download that is paused or stopped is not failed by the end of
    its workers or of the assembly, whatever they met: its status is not
    set to [failed], its error stays, and no [download:failed] is
    emitted. *)
Theorem halted_never_failed noSegment nowIso io id st item r :
  Engine.downloads st !! id = Some item →
  Lifecycle.isHalted item = true →
  Lifecycle.onWorkersSettled noSegment nowIso io id st = Some r ∨
  Lifecycle.onAssembled nowIso io id st = Some r →
  ∃ item',
    Engine.downloads r.1 !! id = Some item' ∧
    DownloadItem.status item' ≠ failed ∧
    DownloadItem.error item' = DownloadItem.error item ∧
    ∀ i e, Lifecycle.download_failed i e ∉ r.2.
Proof.
  intros Hitem Hh Hr.
  assert (Hs : DownloadItem.status item ≠ failed).
  { unfold Lifecycle.isHalted in Hh. destruct (DownloadItem.status item); congruence. }
  assert (Hcaught : ∀ message,
            Lifecycle.caught message item = (item, [])).
  { intros message. unfold Lifecycle.caught. rewrite Hh. reflexivity. }
  assert (Hfinish : ∀ r0 : DownloadItem.t * list Lifecycle.Event,
            DownloadItem.status r0.1 ≠ failed →
            DownloadItem.error r0.1 = DownloadItem.error item →
            (∀ i e, Lifecycle.download_failed i e ∉ r0.2) →
            ∃ item',
              Engine.downloads (Lifecycle.finish id st r0).1 !! id = Some item' ∧
              DownloadItem.status item' ≠ failed ∧
              DownloadItem.error item' = DownloadItem.error item ∧
              ∀ i e, Lifecycle.download_failed i e ∉ (Lifecycle.finish id st r0).2).
  { intros [i0 ev0] H1 H2 H3. simpl in *. eexists. split; [apply lookup_insert_eq|].
    split; [exact H1|]. split; [exact H2|].
    intros i e. rewrite elem_of_app, list_elem_of_singleton.
    intros [Hin|Heq]; [exact (H3 i e Hin) | discriminate Heq]. }
  assert (Hnone : ∀ i e, Lifecycle.download_failed i e ∉ ([] : list Lifecycle.Event)).
  { intros i e. apply not_elem_of_nil. }
  assert (Hcomplete : ∀ i e,
            Lifecycle.download_failed i e ∉ (Lifecycle.complete nowIso item).2).
  { intros i e. simpl. rewrite list_elem_of_singleton. discriminate. }
  destruct Hr as [Hr|Hr].
  - unfold Lifecycle.onWorkersSettled in Hr. rewrite Hitem in Hr.
    destruct (Lifecycle.allDone item).
    + destruct (DownloadItem.segments item) as [|s [|s' l]].
      * rewrite Hcaught in Hr. injection Hr as <-. apply Hfinish; auto.
      * destruct io as [message|]; injection Hr as <-.
        -- rewrite Hcaught. apply Hfinish; auto.
        -- apply Hfinish; [discriminate | reflexivity | exact Hcomplete].
      * injection Hr as <-. simpl. eexists. split; [apply lookup_insert_eq|].
        split; [discriminate|]. split; [reflexivity|].
        intros i e. rewrite list_elem_of_singleton. discriminate.
    + rewrite Hh in Hr. injection Hr as <-. apply Hfinish; auto.
  - unfold Lifecycle.onAssembled in Hr. rewrite Hitem in Hr.
    destruct io as [message|]; injection Hr as <-.
    + rewrite Hcaught. apply Hfinish; auto.
    + apply Hfinish; [discriminate | reflexivity | exact Hcomplete].
Qed.

Lemma unfinished_lookup item (i : nat) seg :
  DownloadItem.segments item !! i = Some seg →
  DownloadSegment.state seg ≠ Engine.Finished →
  (i, seg) ∈ Lifecycle.unfinished item.
Proof.
  intros Hseg Hst. unfold Lifecycle.unfinished.
  apply list_elem_of_filter. split; [exact Hst|].
  apply list_elem_of_lookup. exists i. rewrite list_lookup_imap, Hseg. reflexivity.
Qed.

(** X10.  Pause, then resume: a download continues where it stopped.  For
    a resumable download whose address parses, the requests that leave
    when a paused download is resumed include, for each segment of
    positive length that was not finished and whose bytes lie below 2^53
    (offset and byte count not negative, [offset + downloaded] and
    [offset + length] below 2^53, where the sums of JavaScript numbers are
    exact), one whose [Range] starts at the first byte the segment lacks,
    [offset + downloaded], and ends at its last byte. *)
Theorem pause_resume_continues P now ids id st item u (i : nat) seg :
  Engine.downloads st !! id = Some item →
  URL_parse P (DownloadItem.url item) = Some u →
  DownloadItem.resumable item = true →
  DownloadItem.segments item !! i = Some seg →
  DownloadSegment.state seg ≠ Engine.Finished →
  0 < DownloadSegment.length seg →
  0 ≤ DownloadSegment.offset seg →
  0 ≤ DownloadSegment.downloaded seg →
  DownloadSegment.offset seg + DownloadSegment.downloaded seg < 2 ^ 53 →
  DownloadSegment.offset seg + DownloadSegment.length seg < 2 ^ 53 →
  ∃ requests req,
    (Lifecycle.resumeDownload P now ids id (Lifecycle.pauseDownload id st).1.1).2
    = Engine.Pending requests ∧
    req ∈ requests ∧
    Engine.req_segment req = i ∧
    Engine.req_headers req !! "Range" =
    Some ("bytes=" +:+
          pretty (DownloadSegment.offset seg + DownloadSegment.downloaded seg) +:+
          "-" +:+
          pretty (DownloadSegment.offset seg + DownloadSegment.length seg - 1)).
Proof.
  intros Hitem Hu Hres Hseg Hst Hlen Hoff Hdown Hstart Hend.
  unfold Lifecycle.pauseDownload. rewrite Hitem. cbn [fst].
  set (item1 := Lifecycle.set_eta 0 (Lifecycle.set_speed 0 (Engine.set_status paused item))).
  unfold Lifecycle.resumeDownload. cbn [Engine.downloads].
  rewrite lookup_insert_eq.
  change (DownloadItem.status item1) with paused. cbv iota.
  set (item2 := Engine.set_segments
                  (Lifecycle.resumeSegment <$> DownloadItem.segments item1) item1).
  match goal with |- context [Engine.startDownload P now ids id ?s] => set (st2 := s) end.
  assert (Hl2 : Engine.downloads st2 !! id = Some item2) by apply lookup_insert_eq.
  assert (Hs2 : DownloadItem.status item2 ≠ downloading) by discriminate.
  rewrite (startDownload_settled P now ids id st2 item2 Hl2 Hs2).
  assert (Hsegs : DownloadItem.segments (Lifecycle.started ids item2) =
                  Lifecycle.resumeSegment <$> DownloadItem.segments item).
  { unfold Lifecycle.started, item2, item1. simpl.
    destruct (DownloadItem.segments item) as [|s l]; [discriminate Hseg | reflexivity]. }
  assert (Hu' : URL_parse P (DownloadItem.url (Lifecycle.started ids item2)) = Some u).
  { unfold Lifecycle.started, item2, item1. simpl.
    destruct (Lifecycle.resumeSegment <$> DownloadItem.segments item); exact Hu. }
  rewrite (spawnWorkers_requests P _ u _ _ Hu').
  destruct (resumeSegment_keeps seg) as (_ & Ho & Hn & Hd & Hf & Hk).
  eexists. eexists. split; [reflexivity|]. split.
  - apply list_elem_of_fmap. exists (i, Lifecycle.resumeSegment seg).
    split; [reflexivity|].
    apply unfinished_lookup.
    + rewrite Hsegs, list_lookup_fmap, Hseg. reflexivity.
    + destruct (Z.eq_dec (DownloadSegment.state seg) Engine.Failed) as [Hfail|Hok].
      * rewrite (Hf Hfail). discriminate.
      * rewrite (Hk Hok). exact Hst.
  - split; [reflexivity|]. cbn [Engine.req_headers snd].
    assert (Hr : DownloadItem.resumable (Lifecycle.started ids item2) = true).
    { unfold Lifecycle.started, item2, item1. simpl.
      destruct (Lifecycle.resumeSegment <$> DownloadItem.segments item); exact Hres. }
    rewrite (requestHeaders_Range _ (Lifecycle.resumeSegment seg) Hr) by lia.
    rewrite Hn, Ho, Hd. reflexivity.
Qed.

(** X11.  A size stated as a decimal numeral is read back exactly, below
    2^53, where every integer is a JavaScript number: when a response that
    is not a redirect carries the numeral of [n < 2^53] as its
    [Content-Length], the probe resolves with the size [n], resumable when
    [Accept-Ranges] is [bytes] or [n] is positive, at the address probed. *)
Theorem probeResponse_reads_size P url statusCode (resHeaders : gmap string string)
    (n : N) :
  (n < 2 ^ 53)%N →
  resHeaders !! "content-length" = Some (pretty n) →
  Engine.isRedirect statusCode (resHeaders !! "location") = false →
  Engine.probeResponse P url statusCode resHeaders =
  Engine.ProbeResolved
    {| Engine.probe_fileSize := Some (Z.of_N n);
       Engine.probe_resumable :=
         bool_decide (resHeaders !! "accept-ranges" = Some "bytes") || (0 <? Z.of_N n);
       Engine.probe_finalUrl := url |}.
Proof.
  intros Hsafe Hcl Hred. unfold Engine.probeResponse. rewrite Hred, Hcl.
  assert (Hparse : JS.parseInt (JS.orElse (Some (pretty n)) "-1") = Some (Z.of_N n)).
  { assert (Hne : pretty n ≠ "").
    { intros He. pose proof (parseInt_pretty n Hsafe) as Hp. rewrite He in Hp.
      discriminate. }
    unfold JS.orElse. destruct (pretty n) eqn:E; [contradiction|].
    cbn [JS.truthy]. rewrite <- E. apply parseInt_pretty, Hsafe. }
  rewrite Hparse. reflexivity.
Qed.

(** X24.  A download of unknown size, or from a server without ranges, is
    fetched as one stream.  When such a download has no segments yet and
    its address parses, starting it makes one segment from byte 0 (as long
    as the file when the size is known, of length -1 otherwise) and issues
    one request, whose headers are the download's own over the default
    User-Agent: the engine adds no [Range]. *)
Theorem startDownload_single_stream P now ids id st item u :
  Engine.downloads st !! id = Some item →
  DownloadItem.status item ≠ downloading →
  DownloadItem.segments item = [] →
  DownloadItem.fileSize item <= 0 ∨ DownloadItem.resumable item = false →
  URL_parse P (DownloadItem.url item) = Some u →
  let segment :=
    Engine.newSegment (ids 0%nat) 0
      (if 0 <? DownloadItem.fileSize item then DownloadItem.fileSize item else -1) in
  ∃ item' req,
    Engine.downloads (Engine.startDownload P now ids id st).1 !! id = Some item' ∧
    DownloadItem.segments item' = [segment] ∧
    (Engine.startDownload P now ids id st).2 = Engine.Pending [req] ∧
    Engine.req_segment req = 0%nat ∧
    Engine.req_url req = u ∧
    Engine.req_headers req =
      default ∅ (DownloadItem.headers item) ∪ {[ "User-Agent" := Engine.userAgent ]}.
Proof.
  intros Hitem Hs Hsegs Hsingle Hu segment.
  destruct (startDownload_started P now ids id st item Hitem Hs) as [Hl _].
  assert (Hinit : Engine.initializeSegments ids item = [segment]).
  { unfold Engine.initializeSegments.
    assert (Hc : (DownloadItem.fileSize item <=? 0) || negb (DownloadItem.resumable item)
                 = true).
    { destruct Hsingle as [Hle| ->]; [|apply orb_true_r].
      apply Z.leb_le in Hle. rewrite Hle. reflexivity. }
    rewrite Hc. reflexivity. }
  assert (Hst : DownloadItem.segments (Lifecycle.started ids item) = [segment]).
  { unfold Lifecycle.started. rewrite Hsegs. simpl. exact Hinit. }
  assert (Hu' : URL_parse P (DownloadItem.url (Lifecycle.started ids item)) = Some u).
  { unfold Lifecycle.started. rewrite Hsegs. exact Hu. }
  exists (Lifecycle.started ids item). eexists.
  split; [exact Hl|]. split; [exact Hst|].
  rewrite (startDownload_settled P now ids id st item Hitem Hs).
  rewrite (spawnWorkers_requests P _ u _ _ Hu').
  unfold Lifecycle.unfinished. rewrite Hst. simpl.
  split; [reflexivity|]. split; [reflexivity|]. split; [reflexivity|].
  unfold Engine.requestHeaders.
  assert (Hno : DownloadItem.resumable (Lifecycle.started ids item) &&
                (0 <? DownloadSegment.length segment) = false).
  { unfold Lifecycle.started. rewrite Hsegs. simpl.
    destruct Hsingle as [Hle| ->]; [|reflexivity].
    assert (Hlt : (0 <? DownloadItem.fileSize item) = false) by (apply Z.ltb_ge; lia).
    rewrite Hlt. apply andb_false_r. }
  rewrite Hno. unfold Lifecycle.started. rewrite Hsegs. reflexivity.
Qed.

(* ===================================================================== *)
(** ** The queue manager *)
(* ===================================================================== *)

Section Queues.

Import QueueManager.

Lemma Map_get_split {A} (k : string) (m : list (string * A)) (v : A) :
  Monitor.Map_get k m = Some v →
  ∃ m1 m2, m = m1 ++ (k, v) :: m2 ∧ (k ∉ m1.*1) ∧
           ∀ w, Monitor.Map_set k w m = m1 ++ (k, w) :: m2.
Proof.
  induction m as [|[k' v'] m IH]; simpl; [discriminate|].
  destruct (String.eqb k k') eqn:E.
  - apply String.eqb_eq in E as <-. intros [= ->].
    exists [], m. split; [reflexivity|]. split; [apply not_elem_of_nil|].
    intros w. reflexivity.
  - apply String.eqb_neq in E. intros H.
    destruct (IH H) as (m1 & m2 & -> & Hk & Hset).
    exists ((k', v') :: m1), m2. split; [reflexivity|]. split.
    + simpl. rewrite not_elem_of_cons. split; assumption.
    + intros w. rewrite Hset. reflexivity.
Qed.

Lemma Map_get_None {A} (k : string) (m : list (string * A)) :
  Monitor.Map_get k m = None →
  (k ∉ m.*1) ∧ ∀ w, Monitor.Map_set k w m = m ++ [(k, w)].
Proof.
  induction m as [|[k' v'] m IH]; simpl.
  - intros _. split; [apply not_elem_of_nil | reflexivity].
  - destruct (String.eqb k k') eqn:E; [discriminate|].
    apply String.eqb_neq in E. intros H. destruct (IH H) as [Hk Hset]. split.
    + rewrite not_elem_of_cons. split; assumption.
    + intros w. rewrite Hset. reflexivity.
Qed.

Lemma Map_get_Map_set_eq {A} (k : string) (w : A) (m : list (string * A)) :
  Monitor.Map_get k (Monitor.Map_set k w m) = Some w.
Proof.
  induction m as [|[k' v'] m IH]; simpl.
  - rewrite String.eqb_refl. reflexivity.
  - destruct (String.eqb k k') eqn:E; simpl.
    + rewrite String.eqb_refl. reflexivity.
    + rewrite E. exact IH.
Qed.

Lemma Map_get_Map_set_ne {A} (k k0 : string) (w : A) (m : list (string * A)) :
  k ≠ k0 → Monitor.Map_get k (Monitor.Map_set k0 w m) = Monitor.Map_get k m.
Proof.
  intros Hne. induction m as [|[k' v'] m IH]; simpl.
  - apply String.eqb_neq in Hne. rewrite Hne. reflexivity.
  - destruct (String.eqb k0 k') eqn:E; simpl.
    + apply String.eqb_eq in E as <-.
      apply String.eqb_neq in Hne. rewrite Hne. reflexivity.
    + rewrite IH. reflexivity.
Qed.

Lemma Map_get_fmap {A B} (f : A → B) (k : string) (m : list (string * A)) :
  Monitor.Map_get k ((λ kv : string * A, (kv.1, f kv.2)) <$> m)
  = f <$> Monitor.Map_get k m.
Proof.
  induction m as [|[k' v'] m IH]; simpl; [reflexivity|].
  destruct (String.eqb k k'); [reflexivity | exact IH].
Qed.

Lemma keys_fmap {A B} (f : A → B) (m : list (string * A)) :
  ((λ kv : string * A, (kv.1, f kv.2)) <$> m).*1 = (m.*1).
Proof.
  induction m as [|[k' v'] m IH]; csimpl; [reflexivity|]. f_equal. exact IH.
Qed.

Lemma Map_set_length {A} (k : string) (w : A) (m : list (string * A)) :
  (List.length m <= List.length (Monitor.Map_set k w m))%nat.
Proof.
  induction m as [|[k' v'] m IH]; simpl; [lia|].
  destruct (String.eqb k k'); simpl; lia.
Qed.

Lemma Map_delete_split {A} (k : string) (m : list (string * A)) :
  match Map_delete k m with
  | (true, r) => ∃ m1 v m2, m = m1 ++ (k, v) :: m2 ∧ r = m1 ++ m2
  | (false, r) => r = m
  end.
Proof.
  induction m as [|[k' v'] m IH]; simpl; [reflexivity|].
  destruct (String.eqb k k') eqn:E.
  - apply String.eqb_eq in E as <-. exists [], v', m. split; reflexivity.
  - destruct (Map_delete k m) as [[|] r].
    + destruct IH as (m1 & v & m2 & -> & ->).
      exists ((k', v') :: m1), v, m2. split; reflexivity.
    + rewrite IH. reflexivity.
Qed.

Lemma membersOf_app (a b : list (string * DownloadQueue.t)) :
  membersOf (a ++ b) = membersOf a ++ membersOf b.
Proof. unfold membersOf. rewrite fmap_app, concat_app. reflexivity. Qed.

Lemma membersOf_cons (k : string) (q : DownloadQueue.t)
    (m : list (string * DownloadQueue.t)) :
  membersOf ((k, q) :: m) = DownloadQueue.downloadIds q ++ membersOf m.
Proof. reflexivity. Qed.

Lemma membersOf_without (ids : list string) (m : list (string * DownloadQueue.t)) :
  membersOf ((λ kv : string * DownloadQueue.t, (kv.1, without ids kv.2)) <$> m)
  = filter (λ id, id ∉ ids) (membersOf m).
Proof.
  induction m as [|[k q] m IH]; csimpl; [reflexivity|].
  rewrite !membersOf_cons, IH, filter_app. reflexivity.
Qed.

Lemma pushNew_spec (ids l : list string) :
  ∃ new, pushNew ids l = l ++ new ∧ NoDup new ∧
         ∀ x, x ∈ new ↔ x ∈ ids ∧ x ∉ l.
Proof.
  unfold pushNew. revert l. induction ids as [|id ids IH]; intros l; simpl.
  - exists []. rewrite app_nil_r. split; [reflexivity|]. split; [constructor|].
    intros x. rewrite elem_of_nil. split; [tauto|]. intros [H _]. exact H.
  - case_bool_decide as Hin.
    + destruct (IH l) as (new & -> & Hnd & Hnew).
      exists new. split; [reflexivity|]. split; [exact Hnd|].
      intros x. rewrite Hnew, elem_of_cons. split; [tauto|].
      intros [[->|H] Hx]; [contradiction | tauto].
    + destruct (IH (l ++ [id])) as (new & -> & Hnd & Hnew).
      exists (id :: new). rewrite <- app_assoc. split; [reflexivity|]. split.
      * constructor; [|exact Hnd]. rewrite Hnew, elem_of_app, list_elem_of_singleton.
        tauto.
      * intros x. rewrite !elem_of_cons, Hnew, elem_of_app, list_elem_of_singleton.
        destruct (decide (x = id)) as [->|Hne]; tauto.
Qed.

Lemma exclusive_Map_set (k : string) (w : DownloadQueue.t)
    (m : list (string * DownloadQueue.t)) :
  NoDup (m.*1) → NoDup (membersOf m) →
  NoDup (DownloadQueue.downloadIds w) →
  (∀ x, x ∈ DownloadQueue.downloadIds w → x ∈ membersOf m →
        ∃ q, Monitor.Map_get k m = Some q ∧ x ∈ DownloadQueue.downloadIds q) →
  NoDup ((Monitor.Map_set k w m).*1) ∧ NoDup (membersOf (Monitor.Map_set k w m)).
Proof.
  intros Hkeys Hmem Hw Hin.
  destruct (Monitor.Map_get k m) as [q|] eqn:Hget.
  - destruct (Map_get_split k m q Hget) as (m1 & m2 & -> & Hk & Hset).
    rewrite Hset. split.
    + revert Hkeys. rewrite !fmap_app, !fmap_cons. simpl. tauto.
    + revert Hmem Hin.
      rewrite !membersOf_app, !membersOf_cons, !NoDup_app.
      intros (HA & HAd & HD & HDd & HB) Hin.
      split; [exact HA|]. split.
      * intros x Hx. rewrite elem_of_app. intros [Hxw|HxB].
        -- destruct (Hin x Hxw) as (q' & [= <-] & Hxq).
           { rewrite !elem_of_app. left. exact Hx. }
           apply (HAd x Hx). rewrite elem_of_app. left. exact Hxq.
        -- apply (HAd x Hx). rewrite elem_of_app. right. exact HxB.
      * split; [exact Hw|]. split; [|exact HB].
        intros x Hxw HxB.
        destruct (Hin x Hxw) as (q' & [= <-] & Hxq).
        { rewrite !elem_of_app. right. right. exact HxB. }
        exact (HDd x Hxq HxB).
  - destruct (Map_get_None k m Hget) as [Hk Hset]. rewrite Hset. split.
    + rewrite fmap_app, NoDup_app. split; [exact Hkeys|]. split.
      * intros x Hx. simpl. rewrite list_elem_of_singleton. intros ->. exact (Hk Hx).
      * simpl. apply NoDup_singleton.
    + rewrite membersOf_app, NoDup_app. split; [exact Hmem|]. split.
      * intros x Hx. rewrite membersOf_cons. unfold membersOf at 1. simpl.
        rewrite app_nil_r. intros Hxw.
        destruct (Hin x Hxw Hx) as (q' & Hq' & _). discriminate.
      * rewrite membersOf_cons. unfold membersOf. simpl. rewrite app_nil_r. exact Hw.
Qed.

Lemma Map_get_members (k : string) (q : DownloadQueue.t)
    (m : list (string * DownloadQueue.t)) :
  Monitor.Map_get k m = Some q →
  ∀ x, x ∈ DownloadQueue.downloadIds q → x ∈ membersOf m.
Proof.
  intros Hget x Hx.
  destruct (Map_get_split k m q Hget) as (m1 & m2 & -> & _ & _).
  rewrite membersOf_app, membersOf_cons, !elem_of_app. right. left. exact Hx.
Qed.

Lemma Map_get_NoDup (k : string) (q : DownloadQueue.t)
    (m : list (string * DownloadQueue.t)) :
  Monitor.Map_get k m = Some q → NoDup (membersOf m) →
  NoDup (DownloadQueue.downloadIds q).
Proof.
  intros Hget.
  destruct (Map_get_split k m q Hget) as (m1 & m2 & -> & _ & _).
  rewrite membersOf_app, membersOf_cons, !NoDup_app. tauto.
Qed.

(** Replacing a queue by one with a part of its members. *)
Lemma exclusive_Map_set_part (k : string) (q w : DownloadQueue.t)
    (m : list (string * DownloadQueue.t)) :
  NoDup (m.*1) → NoDup (membersOf m) →
  Monitor.Map_get k m = Some q →
  NoDup (DownloadQueue.downloadIds w) →
  (∀ x, x ∈ DownloadQueue.downloadIds w → x ∈ DownloadQueue.downloadIds q) →
  NoDup ((Monitor.Map_set k w m).*1) ∧ NoDup (membersOf (Monitor.Map_set k w m)).
Proof.
  intros Hkeys Hmem Hget Hw Hsub.
  apply exclusive_Map_set; [assumption..|].
  intros x Hx _. exists q. split; [exact Hget | exact (Hsub x Hx)].
Qed.

Lemma filter_not_in (ids l : list string) (x : string) :
  x ∈ filter (λ id, id ∉ ids) l ↔ x ∈ l ∧ x ∉ ids.
Proof. rewrite list_elem_of_filter. tauto. Qed.

Lemma addToQueue_queues (queueId : string) (ids : list string) (st : State)
    (q : DownloadQueue.t) :
  getQueue st queueId = Some q →
  let removed :=
    (λ kv : string * DownloadQueue.t, (kv.1, without ids kv.2)) <$> queues st in
  let queue' :=
    set_downloadIds
      (pushNew ids (filter (λ id, id ∉ ids) (DownloadQueue.downloadIds q)))
      (without ids q) in
  addToQueue queueId ids st
  = (emit (queue_updated queue')
       (set_queues (Monitor.Map_set queueId queue' removed) st), true).
Proof.
  intros Hget. unfold addToQueue. rewrite Hget, Map_get_fmap.
  unfold getQueue in Hget. rewrite Hget. reflexivity.
Qed.

(** X12.  [addToQueue] moves downloads.  When the target queue is unknown
    the call returns [false] and changes nothing, no download leaves its
    queue.  Otherwise it returns [true]; the target keeps its other members
    in their order and gets after them every id of the call exactly once;
    every other queue loses the ids of the call and nothing else. *)
Theorem addToQueue_moves (queueId : string) (ids : list string) (st : State) :
  match getQueue st queueId with
  | None => addToQueue queueId ids st = (st, false)
  | Some q =>
      let st' := (addToQueue queueId ids st).1 in
      (addToQueue queueId ids st).2 = true ∧
      (∃ q' new,
          getQueue st' queueId = Some q' ∧
          DownloadQueue.downloadIds q'
          = filter (λ id, id ∉ ids) (DownloadQueue.downloadIds q) ++ new ∧
          NoDup new ∧ ∀ x, x ∈ new ↔ x ∈ ids) ∧
      ∀ k, k ≠ queueId → getQueue st' k = without ids <$> getQueue st k
  end.
Proof.
  destruct (getQueue st queueId) as [q|] eqn:Hget.
  - rewrite (addToQueue_queues queueId ids st q Hget). simpl.
    split; [reflexivity|]. split.
    + destruct (pushNew_spec ids
                  (filter (λ id, id ∉ ids) (DownloadQueue.downloadIds q)))
        as (new & Hpush & Hnd & Hnew).
      eexists. exists new. split; [apply Map_get_Map_set_eq|].
      split; [exact Hpush|]. split; [exact Hnd|].
      intros x. rewrite Hnew, filter_not_in. tauto.
    + intros k Hk. unfold getQueue. simpl.
      rewrite Map_get_Map_set_ne by exact Hk. apply Map_get_fmap.
  - unfold addToQueue. rewrite Hget. reflexivity.
Qed.

(** X13.  Invariant I4 on the manager: when the queues' keys are distinct
    and no download is a member twice, of one queue or of two, this still
    holds after any operation of the manager that does not assign the
    member list from outside ([updateQueue] with a [downloadIds] property
    does). *)
Theorem run_keeps_exclusive (op : Operation) (st : State) :
  exclusive st →
  (∀ id updates, op = UpdateQueue id updates →
                 QueueUpdates.downloadIds updates = None) →
  exclusive (run op st).
Proof.
  intros [Hkeys Hmem] Hup. unfold exclusive, members in *.
  destruct op as [freshId name maxConcurrent | id updates | id | queueId ids
                 | queueId downloadId | downloadId | queueId schedule | now]; simpl.
  - apply exclusive_Map_set; [assumption | assumption | constructor |].
    simpl. intros x Hx. apply elem_of_nil in Hx. contradiction.
  - unfold updateQueue. destruct (getQueue st id) as [q|] eqn:Hget;
      [|split; assumption].
    simpl. apply (exclusive_Map_set_part id q); [assumption..| |].
    + unfold assign. simpl. rewrite (Hup id updates eq_refl). simpl.
      exact (Map_get_NoDup id q _ Hget Hmem).
    + unfold assign. simpl. rewrite (Hup id updates eq_refl). simpl. tauto.
  - unfold deleteQueue. destruct (List.length (queues st) <=? 1)%nat;
      [split; assumption|].
    pose proof (Map_delete_split id (queues st)) as Hdel.
    destruct (Map_delete id (queues st)) as [[|] r]; [|split; assumption].
    destruct Hdel as (m1 & v & m2 & Hq & ->). simpl.
    rewrite Hq in Hkeys, Hmem. revert Hkeys Hmem.
    rewrite !fmap_app, !fmap_cons, !membersOf_app, !membersOf_cons, !NoDup_app,
      !NoDup_cons.
    intros (HA & HAd & HD & HB) (HA' & HAd' & HD' & HDd' & HB').
    split.
    + split; [exact HA|]. split; [|exact HB].
      intros x Hx HxB. apply (HAd x Hx). rewrite elem_of_cons. right. exact HxB.
    + split; [exact HA'|]. split; [|exact HB'].
      intros x Hx HxB. apply (HAd' x Hx). rewrite elem_of_app. right. exact HxB.
  - destruct (getQueue st queueId) as [q|] eqn:Hget.
    + rewrite (addToQueue_queues queueId ids st q Hget). simpl.
      assert (Hget' : Monitor.Map_get queueId
                ((λ kv : string * DownloadQueue.t, (kv.1, without ids kv.2))
                 <$> queues st) = Some (without ids q)).
      { rewrite Map_get_fmap. unfold getQueue in Hget. rewrite Hget. reflexivity. }
      destruct (pushNew_spec ids
                  (filter (λ id, id ∉ ids) (DownloadQueue.downloadIds q)))
        as (new & Hpush & Hnd & Hnew).
      apply exclusive_Map_set.
      * rewrite keys_fmap. exact Hkeys.
      * rewrite membersOf_without. apply NoDup_filter. exact Hmem.
      * simpl. rewrite Hpush, NoDup_app. split.
        -- apply NoDup_filter. exact (Map_get_NoDup queueId q _ Hget Hmem).
        -- split; [|exact Hnd]. intros x Hx. rewrite Hnew. tauto.
      * simpl. rewrite Hpush. intros x. rewrite elem_of_app, membersOf_without.
        intros [Hx|Hx] Hm.
        -- exists (without ids q). split; [exact Hget' | exact Hx].
        -- apply Hnew in Hx as [Hx _]. apply filter_not_in in Hm as [_ Hm].
           contradiction.
    + unfold addToQueue. rewrite Hget. split; assumption.
  - unfold removeFromQueue. destruct (getQueue st queueId) as [q|] eqn:Hget;
      [|split; assumption].
    simpl. apply (exclusive_Map_set_part queueId q); [assumption..| |].
    + simpl. apply NoDup_filter. exact (Map_get_NoDup queueId q _ Hget Hmem).
    + simpl. intros x Hx. apply list_elem_of_filter in Hx as [_ Hx]. exact Hx.
  - split.
    + rewrite keys_fmap. exact Hkeys.
    + rewrite membersOf_without. apply NoDup_filter. exact Hmem.
  - unfold setSchedule. destruct (getQueue st queueId) as [q|] eqn:Hget;
      [|split; assumption].
    simpl. apply (exclusive_Map_set_part queueId q); [assumption..| |].
    + simpl. exact (Map_get_NoDup queueId q _ Hget Hmem).
    + simpl. tauto.
  - split; assumption.
Qed.

Lemma run_keeps_queue (op : Operation) (st : State) :
  (1 <= List.length (queues st))%nat →
  (1 <= List.length (queues (run op st)))%nat.
Proof.
  intros Hlen.
  destruct op as [freshId name maxConcurrent | id updates | id | queueId ids
                 | queueId downloadId | downloadId | queueId schedule | now]; simpl.
  - pose proof (Map_set_length freshId (newQueue freshId name maxConcurrent)
                  (queues st)). lia.
  - unfold updateQueue. destruct (getQueue st id) as [q|]; [|exact Hlen].
    simpl. pose proof (Map_set_length id (assign updates q) (queues st)). lia.
  - unfold deleteQueue. destruct (List.length (queues st) <=? 1)%nat eqn:Hle;
      [exact Hlen|].
    apply Nat.leb_gt in Hle.
    pose proof (Map_delete_split id (queues st)) as Hdel.
    destruct (Map_delete id (queues st)) as [[|] r]; [|exact Hlen].
    destruct Hdel as (m1 & v & m2 & Hq & ->). simpl.
    rewrite Hq in Hle. rewrite length_app in *. simpl in Hle. lia.
  - destruct (getQueue st queueId) as [q|] eqn:Hget.
    + rewrite (addToQueue_queues queueId ids st q Hget). simpl.
      match goal with |- (_ <= List.length (Monitor.Map_set ?k ?w ?m))%nat =>
        pose proof (Map_set_length k w m) as Hs end.
      rewrite length_fmap in Hs. lia.
    + unfold addToQueue. rewrite Hget. exact Hlen.
  - unfold removeFromQueue. destruct (getQueue st queueId) as [q|]; [|exact Hlen].
    simpl. pose proof (Map_set_length queueId (without [downloadId] q) (queues st)).
    lia.
  - rewrite length_fmap. exact Hlen.
  - unfold setSchedule. destruct (getQueue st queueId) as [q|]; [|exact Hlen].
    simpl. pose proof (Map_set_length queueId (set_schedule schedule q) (queues st)).
    lia.
  - exact Hlen.
Qed.

(** X14.  The manager never runs out of queues: whatever [queues.json]
    held (also nothing, or no queue at all) and whatever operations
    followed, deletions included, [getDefaultQueue] finds a first queue. *)
Theorem getDefaultQueue_defined (loaded : option (list DownloadQueue.t))
    (freshId : string) (ops : list Operation) :
  is_Some (getDefaultQueue (foldl (λ st op, run op st) (newManager loaded freshId) ops)).
Proof.
  assert (Hlen : ∀ st, (1 <= List.length (queues st))%nat →
                       is_Some (getDefaultQueue st)).
  { intros st. unfold getDefaultQueue, getQueues.
    destruct (queues st) as [|[k q] m]; simpl; [lia|]. intros _. eexists. reflexivity. }
  apply Hlen.
  assert (H0 : (1 <= List.length (queues (newManager loaded freshId)))%nat).
  { unfold newManager. destruct (loadQueues loaded); simpl; lia. }
  revert H0. generalize (newManager loaded freshId).
  induction ops as [|op ops IH]; intros st Hst; simpl; [exact Hst|].
  apply IH, run_keeps_queue, Hst.
Qed.

Lemma list_to_map_Map_get (k : string) (m : list (string * DownloadQueue.t)) :
  (list_to_map m : gmap string DownloadQueue.t) !! k = Monitor.Map_get k m.
Proof.
  induction m as [|[k' v'] m IH]; simpl; [apply lookup_empty|].
  destruct (String.eqb k k') eqn:E.
  - apply String.eqb_eq in E as <-. apply lookup_insert_eq.
  - apply String.eqb_neq in E. rewrite lookup_insert_ne by congruence. exact IH.
Qed.

Lemma getNextDownloadIds_take (queues : gmap string DownloadQueue.t)
    (now : Queue.LocalTime) (queueId : string) (active : Z) :
  Queue.getNextDownloadIds queues now queueId active = [] ∨
  ∃ q, queues !! queueId = Some q ∧
       Queue.getNextDownloadIds queues now queueId active
       = take (Z.to_nat (Z.max 0 (DownloadQueue.maxConcurrent q - active)))
           (DownloadQueue.downloadIds q).
Proof.
  unfold Queue.getNextDownloadIds.
  destruct (queues !! queueId) as [q|]; [|left; reflexivity].
  destruct (negb (DownloadQueue.enabled q)); [left; reflexivity|].
  destruct (Z.max 0 (DownloadQueue.maxConcurrent q - active) =? 0);
    [left; reflexivity|].
  destruct (DownloadQueue.schedule q) as [schedule|].
  - destruct (QueueSchedule.enabled schedule && negb (Queue.isWithinSchedule schedule now));
      [left; reflexivity|].
    right. exists q. split; reflexivity.
  - right. exists q. split; reflexivity.
Qed.

(** X15.  [getNextDownloadIds] respects the concurrency limit: what it
    returns for a queue is a prefix of the queue's members, and together
    with the downloads already active it never exceeds [maxConcurrent]
    (nothing is returned when the active ones reach it already). *)
Theorem getNextDownloadIds_bounded (queues : gmap string DownloadQueue.t)
    (now : Queue.LocalTime) (queueId : string) (active : Z) (q : DownloadQueue.t) :
  queues !! queueId = Some q →
  let next := Queue.getNextDownloadIds queues now queueId active in
  next `prefix_of` DownloadQueue.downloadIds q ∧
  Z.of_nat (List.length next) + active <= Z.max active (DownloadQueue.maxConcurrent q).
Proof.
  intros Hq next. subst next.
  destruct (getNextDownloadIds_take queues now queueId active) as [->|(q' & Hq' & ->)].
  - split; [apply prefix_nil | simpl; lia].
  - rewrite Hq in Hq'. injection Hq' as <-. split; [apply prefix_take|].
    rewrite length_take. lia.
Qed.

(** X16.  A finished download is not scheduled again: after
    [removeFinishedDownload id], [getNextDownloadIds] returns [id] for no
    queue, at no time and for no number of active downloads. *)
Theorem removeFinishedDownload_never_next (downloadId : string) (st : State)
    (now : Queue.LocalTime) (queueId : string) (active : Z) :
  downloadId ∉ getNextDownloadIds (removeFinishedDownload downloadId st) now queueId active.
Proof.
  unfold getNextDownloadIds.
  destruct (getNextDownloadIds_take
              (list_to_map (queues (removeFinishedDownload downloadId st)))
              now queueId active) as [->|(q' & Hq' & ->)].
  - apply not_elem_of_nil.
  - rewrite list_to_map_Map_get in Hq'. simpl in Hq'.
    rewrite Map_get_fmap in Hq'.
    destruct (Monitor.Map_get queueId (queues st)) as [q|]; [|discriminate].
    injection Hq' as <-. simpl. intros Hin.
    apply elem_of_take in Hin as (i & Hin & _).
    apply list_elem_of_lookup_2 in Hin.
    apply list_elem_of_filter in Hin as [Hne _].
    apply Hne, list_elem_of_singleton. reflexivity.
Qed.

End Queues.

(* ===================================================================== *)
(** ** The ingestion endpoint: what it keeps *)
(* ===================================================================== *)

Section Ingestion.

Context (P : Platform).

Import Monitor MediaStore.

Lemma onDownloadMessage_effect now newId path st body :
  Effect P now newId path body st (onDownloadMessage P st body).
Proof.
  unfold onDownloadMessage.
  destruct body as [|msg|messages|]; try apply Untouched.
  destruct (JS.truthy (BrowserMessage.url msg)) as [url|]; [|apply Untouched].
  destruct (isBlockedUrl P st url); [apply Untouched|].
  destruct (negb (shouldInterceptUrl st url (BrowserMessage.contentType msg)));
    [apply Untouched|].
  apply Intercepted.
Qed.

Lemma onMediaMessage_effect now newId path st body :
  Effect P now newId path body st (onMediaMessage P now newId st body).
Proof.
  unfold onMediaMessage.
  destruct body as [|msg|messages|]; try apply Untouched.
  destruct (JS.truthy (BrowserMessage.url msg)) as [url|] eqn:Hurl; [|apply Untouched].
  destruct (isWebResource _); [apply Untouched|].
  match goal with |- context [if ?c then st else _] => destruct c end;
    [apply Untouched|].
  match goal with |- context [if ?c then st else _] => destruct c eqn:Hex end;
    [apply Untouched|].
  eapply (Added P now newId path _ st msg url);
    [reflexivity | exact Hurl | reflexivity | reflexivity |].
  exact Hex.
Qed.

Lemma onVideoDownloadMessage_effect now newId path st body :
  Effect P now newId path body st (onVideoDownloadMessage st body).
Proof.
  unfold onVideoDownloadMessage.
  destruct body as [|msg|messages|]; try apply Untouched.
  destruct (JS.truthy (BrowserMessage.vid msg)) as [vid|]; [|apply Untouched].
  destruct (Map_get vid (mediaList st)) as [media|] eqn:Hget; [|apply Untouched].
  apply (Requested P now newId path _ st vid media Hget).
Qed.

Lemma onTabUpdateMessage_effect now newId path st body :
  Effect P now newId path body st (onTabUpdateMessage st body).
Proof.
  unfold onTabUpdateMessage.
  destruct body as [|msg|messages|]; try apply Untouched.
  destruct (JS.truthy (BrowserMessage.tabUrl msg)) as [tabUrl|]; [|apply Untouched].
  destruct (JS.truthy (BrowserMessage.tabTitle msg)) as [tabTitle|]; [|apply Untouched].
  apply Renamed.
Qed.

Lemma onBatchMessage_effect now newId path st body :
  Effect P now newId path body st (onBatchMessage st body).
Proof.
  unfold onBatchMessage.
  destruct body as [|msg|messages|]; try apply Untouched.
  match goal with |- context [omap ?f messages] => destruct (omap f messages) eqn:Hl end;
    [apply Untouched|].
  rewrite <- Hl. apply Batched.
Qed.

Lemma dispatch_effect now newId path st body :
  Effect P now newId path body st (dispatch P now newId path st body).
Proof.
  unfold dispatch.
  destruct (String.eqb path "/sync"); [apply Untouched|].
  destruct (String.eqb path "/download"); [apply onDownloadMessage_effect|].
  destruct (String.eqb path "/media"); [apply onMediaMessage_effect|].
  destruct (String.eqb path "/vid"); [apply onVideoDownloadMessage_effect|].
  destruct (String.eqb path "/tab-update"); [apply onTabUpdateMessage_effect|].
  destruct (String.eqb path "/clear") eqn:Hclear;
    [apply Cleared, String.eqb_eq, Hclear|].
  destruct (String.eqb path "/link"); [apply onBatchMessage_effect|].
  apply Untouched.
Qed.

Lemma handleRequest_effect now newId st req :
  req_method req = "OPTIONS" ∧ (handleRequest P now newId st req).1 = st ∨
  Effect P now newId (JS.orElse (req_url req) "/") (req_body req) st
    (handleRequest P now newId st req).1.
Proof.
  unfold handleRequest.
  destruct (String.eqb (req_method req) "OPTIONS") eqn:Hm; simpl.
  - left. split; [apply String.eqb_eq, Hm | reflexivity].
  - right. apply dispatch_effect.
Qed.

Lemma cleanHeaders_clean (headers : option (gmap string string)) :
  cleanMap (cleanHeaders headers).
Proof.
  intros k [v Hk]. destruct headers as [h|]; simpl in Hk.
  - apply map_lookup_filter_Some in Hk as [_ [Hk _]]. exact Hk.
  - rewrite lookup_empty in Hk. discriminate.
Qed.

Lemma Forall_Map_set {A} (Q : string * A → Prop) (k : string) (v : A)
    (m : list (string * A)) :
  Forall Q m → Q (k, v) → Forall Q (Map_set k v m).
Proof.
  intros Hm Hv. induction m as [|[k' v'] m IH]; simpl.
  - constructor; [exact Hv | constructor].
  - apply Forall_cons in Hm as [Hx Hm].
    destruct (String.eqb k k'); constructor; auto.
Qed.

Lemma Map_get_elem {A} (k : string) (v : A) (m : list (string * A)) :
  Map_get k m = Some v → (k, v) ∈ m.
Proof.
  intros Hget. destruct (Map_get_split k m v Hget) as (m1 & m2 & -> & _ & _).
  rewrite elem_of_app, elem_of_cons. right. left. reflexivity.
Qed.

(** X17.  Header hygiene is an invariant of the endpoint: when the headers
    of every media item held and of every event emitted so far are free of
    the blocked names, they still are after any request, whatever its
    method, path and body. *)
Theorem handleRequest_keeps_clean (now : Z) (newId : string) (st : State)
    (req : Request) :
  clean st → clean (handleRequest P now newId st req).1.
Proof.
  intros [Hlist Hev].
  destruct (handleRequest_effect now newId st req) as [[_ ->]|Heff];
    [split; assumption|].
  destruct Heff
    as [ | url file headers cookies referer tabUrl
       | msg url media Hbody Hurl Hh Hu Hex | vid media Hget | tabUrl tabTitle
       | Hpath | messages ];
    unfold clean; simpl.
  - split; assumption.
  - split; [exact Hlist|]. apply Forall_app. split; [exact Hev|].
    constructor; [|constructor]. simpl. apply cleanHeaders_clean.
  - assert (Hm : cleanMap (MediaItem.headers media))
      by (rewrite Hh; apply cleanHeaders_clean).
    split.
    + apply Forall_Map_set; [exact Hlist | exact Hm].
    + apply Forall_app. split; [exact Hev|]. constructor; [exact Hm | constructor].
  - split; [exact Hlist|]. apply Forall_app. split; [exact Hev|].
    constructor; [|constructor]. simpl.
    apply Map_get_elem in Hget. rewrite Forall_forall in Hlist.
    exact (Hlist _ Hget).
  - split.
    + apply Forall_fmap. eapply Forall_impl; [exact Hlist|].
      intros [k m] Hm. simpl in *.
      destruct (String.eqb (MediaItem.tabUrl m) tabUrl); exact Hm.
    + apply Forall_app. split; [exact Hev|].
      apply Forall_fmap, Forall_forall. intros [k m] Hin.
      apply list_elem_of_filter in Hin as [_ Hin].
      rewrite Forall_forall in Hlist. exact (Hlist _ Hin).
  - split; [constructor|]. apply Forall_app. split; [exact Hev|].
    constructor; [exact I | constructor].
  - split; [exact Hlist|]. apply Forall_app. split; [exact Hev|].
    constructor; [|constructor]. simpl.
    apply Forall_forall. intros link Hin.
    apply list_elem_of_omap in Hin as (msg & _ & Hlink).
    destruct (JS.truthy (BrowserMessage.url msg)); [|discriminate].
    injection Hlink as <-. simpl. apply cleanHeaders_clean.
Qed.

(** X18.  No request changes the configuration of the monitor: the
    extensions, blocked hosts and media types it answers after a request
    are those it had before. *)
Theorem handleRequest_keeps_config (now : Z) (newId : string) (st : State)
    (req : Request) :
  config (handleRequest P now newId st req).1 = config st.
Proof.
  destruct (handleRequest_effect now newId st req) as [[_ ->]|Heff];
    [reflexivity|].
  destruct Heff; reflexivity.
Qed.

Lemma insertByDate_Permutation (m : MediaItem.t) (l : list MediaItem.t) :
  insertByDate m l ≡ₚ m :: l.
Proof.
  induction l as [|x r IH]; simpl; [reflexivity|].
  destruct (MediaItem.dateAdded x <=? MediaItem.dateAdded m); [reflexivity|].
  rewrite IH. apply Permutation_swap.
Qed.

Lemma insertByDate_newestFirst (m : MediaItem.t) (l : list MediaItem.t) :
  newestFirst l → newestFirst (insertByDate m l).
Proof.
  unfold newestFirst. induction l as [|x r IH]; simpl; intros Hl.
  - repeat constructor.
  - apply StronglySorted_inv in Hl as [Hr Hx].
    destruct (MediaItem.dateAdded x <=? MediaItem.dateAdded m) eqn:Hle.
    + apply Z.leb_le in Hle. constructor.
      * constructor; assumption.
      * constructor; [exact Hle|].
        eapply Forall_impl; [exact Hx|]. simpl. intros y Hy. lia.
    + apply Z.leb_gt in Hle. constructor; [apply IH, Hr|].
      rewrite insertByDate_Permutation. constructor; [lia | exact Hx].
Qed.

(** X19.  The list the endpoint answers is the media it holds, each item
    once, newest first: [getMediaList] is a permutation of the values of
    the map, sorted by descending date. *)
Theorem getMediaList_sorted (st : State) :
  getMediaList st ≡ₚ (mediaList st).*2 ∧ newestFirst (getMediaList st).
Proof.
  unfold getMediaList. induction ((mediaList st).*2) as [|m l [IHp IHs]]; simpl.
  - split; [reflexivity | constructor].
  - split.
    + rewrite insertByDate_Permutation, IHp. reflexivity.
    + apply insertByDate_newestFirst, IHs.
Qed.

Lemma chars_trimStart (s : string) (c : ascii) :
  c ∈ list_ascii_of_string (JS.trimStart s) → c ∈ list_ascii_of_string s.
Proof.
  assert (H : ∀ (n : nat) (s : string), (String.length s < n)%nat →
            c ∈ list_ascii_of_string (JS.trimStart s) → c ∈ list_ascii_of_string s).
  { clear s. induction n as [|n IH]; intros s Hlen; [lia|].
    destruct s as [|a [|b [|d s3]]]; cbn [JS.trimStart].
    - tauto.
    - destruct (JS.isWhiteSpace a); [|tauto].
      intros Hc. apply elem_of_nil in Hc. contradiction.
    - destruct (JS.isWhiteSpace a).
      + intros Hc. simpl. rewrite elem_of_cons. right.
        apply (IH (String b EmptyString)); [simpl in *; lia | exact Hc].
      + destruct (JS.isWhiteSpace2 a b); [|tauto].
        intros Hc. apply elem_of_nil in Hc. contradiction.
    - destruct (JS.isWhiteSpace a).
      + intros Hc. simpl. rewrite elem_of_cons. right.
        apply (IH (String b (String d s3))); [simpl in *; lia | exact Hc].
      + destruct (JS.isWhiteSpace2 a b).
        * intros Hc. simpl. do 2 (rewrite elem_of_cons; right).
          apply (IH (String d s3)); [simpl in *; lia | exact Hc].
        * destruct (JS.isWhiteSpace3 a b d); [|tauto].
          intros Hc. simpl. do 3 (rewrite elem_of_cons; right).
          apply (IH s3); [simpl in *; lia | exact Hc]. }
  apply (H (S (String.length s))). lia.
Qed.

Lemma chars_trimEnd (s : string) (c : ascii) :
  c ∈ list_ascii_of_string (JS.trimEnd s) → c ∈ list_ascii_of_string s.
Proof.
  induction s as [|a s IH]; [simpl; tauto|].
  cbn [JS.trimEnd]. destruct (JS.blank (String a s)).
  - intros H. apply elem_of_nil in H. contradiction.
  - simpl. rewrite !elem_of_cons. intros [->|H]; [left; reflexivity | right; exact (IH H)].
Qed.

Lemma chars_mapChars (f : ascii → ascii) (s : string) (c : ascii) :
  c ∈ list_ascii_of_string (mapChars f s) → ∃ a, c = f a.
Proof.
  induction s as [|a s IH]; simpl.
  - intros H. apply elem_of_nil in H. contradiction.
  - rewrite elem_of_cons. intros [->|H]; [exists a; reflexivity | exact (IH H)].
Qed.

(** X20.  A sanitized file name holds none of the nine characters that
    are reserved in file names (the angle brackets, the colon, the double
    quote, the slash, the backslash, the bar, the question mark and the
    asterisk), whatever name it is made from. *)
Theorem sanitizeFileName_safe (name : string) (c : ascii) :
  c ∈ list_ascii_of_string (sanitizeFileName name) → c ∉ reserved.
Proof.
  unfold sanitizeFileName, JS.trim. intros Hc.
  apply chars_trimEnd, chars_trimStart, chars_mapChars in Hc as [a ->].
  unfold sanitizeChar. fold reserved. case_bool_decide as Ha; [|exact Ha].
  unfold reserved. rewrite !not_elem_of_cons.
  repeat split; try discriminate. apply not_elem_of_nil.
Qed.

Lemma isYouTube_no_tab (url : string) (tabUrl : option string) :
  isYouTube url tabUrl = false → isYouTube url (Some "") = false.
Proof.
  unfold isYouTube. intros H. apply orb_false_iff in H as [-> _]. reflexivity.
Qed.

Lemma urls_Map_set (k : string) (media : MediaItem.t) (m : list (string * MediaItem.t)) :
  NoDup ((λ kv : string * MediaItem.t, MediaItem.url kv.2) <$> m) →
  (∀ kv, kv ∈ m → MediaItem.url kv.2 ≠ MediaItem.url media) →
  NoDup ((λ kv : string * MediaItem.t, MediaItem.url kv.2) <$> Map_set k media m).
Proof.
  induction m as [|[k' v'] m IH]; csimpl; intros Hnd Hne.
  - apply NoDup_singleton.
  - apply NoDup_cons in Hnd as [Hv Hnd].
    destruct (String.eqb k k'); csimpl; apply NoDup_cons.
    + split; [|exact Hnd]. intros Hin.
      apply list_elem_of_fmap in Hin as (kv & Heq & Hin).
      apply (Hne kv); [rewrite elem_of_cons; right; exact Hin | symmetry; exact Heq].
    + split.
      * intros Hin. apply list_elem_of_fmap in Hin as ([k2 v2] & Heq & Hin).
        simpl in Heq.
        assert (Hcases : (k2, v2) = (k, media) ∨ (k2, v2) ∈ m).
        { clear - Hin. induction m as [|[k3 v3] m IHm]; simpl in Hin.
          - apply list_elem_of_singleton in Hin. left. exact Hin.
          - destruct (String.eqb k k3).
            + apply elem_of_cons in Hin as [Hin|Hin]; [left; exact Hin|].
              right. rewrite elem_of_cons. right. exact Hin.
            + apply elem_of_cons in Hin as [Hin|Hin].
              * right. rewrite elem_of_cons. left. exact Hin.
              * destruct (IHm Hin) as [H|H]; [left; exact H|].
                right. rewrite elem_of_cons. right. exact H. }
        destruct Hcases as [[= -> ->]|Hin2].
        -- apply (Hne (k', v')); [rewrite elem_of_cons; left; reflexivity | exact Heq].
        -- apply Hv. apply list_elem_of_fmap. exists (k2, v2). split; [exact Heq | exact Hin2].
      * apply IH; [exact Hnd|]. intros kv Hin. apply Hne.
        rewrite elem_of_cons. right. exact Hin.
Qed.

(** X21.  No address is held twice.  When the addresses of the media held
    are distinct, they still are after any request, provided the canonical
    form of the address a [/media] message reports is its own canonical
    form (what Node's URL class gives for the query it serialised). *)
Theorem handleRequest_keeps_distinct (now : Z) (newId : string) (st : State)
    (req : Request) :
  NoDup (urls st) →
  (∀ msg url, req_body req = JsonMessage msg →
              JS.truthy (BrowserMessage.url msg) = Some url →
              getYouTubeBaseUrl P (getYouTubeBaseUrl P url) = getYouTubeBaseUrl P url) →
  NoDup (urls (handleRequest P now newId st req).1).
Proof.
  intros Hnd Hidem.
  destruct (handleRequest_effect now newId st req) as [[_ ->]|Heff];
    [exact Hnd|].
  destruct Heff
    as [ | url file headers cookies referer tabUrl
       | msg url media Hbody Hurl Hh Hu Hex | vid media Hget | tabUrl tabTitle
       | Hpath | messages ];
    unfold urls in *; simpl; try exact Hnd.
  - apply urls_Map_set; [exact Hnd|].
    intros kv Hin Heq.
    assert (Hbase : existingBase P kv.2 ≠ MediaItem.url media).
    { intros Hb. apply not_true_iff_false in Hex. apply Hex.
      apply existsb_exists. exists kv. split.
      - apply list_elem_of_In. exact Hin.
      - apply String.eqb_eq. exact Hb. }
    apply Hbase. unfold existingBase. rewrite Heq.
    destruct (isYouTube (MediaItem.url media) (Some "")) eqn:Hyt; [|reflexivity].
    rewrite Hu in *.
    destruct (isYouTube url (BrowserMessage.tabUrl msg)) eqn:Hmsg.
    + apply (Hidem msg url Hbody Hurl).
    + apply isYouTube_no_tab in Hmsg. congruence.
  - rewrite <- list_fmap_compose.
    erewrite list_fmap_ext; [exact Hnd|].
    intros i [k m] _. simpl.
    destruct (String.eqb (MediaItem.tabUrl m) tabUrl); reflexivity.
  - constructor.
Qed.

(** X22.  Media are lost by [/clear] only.  After a request on any other
    path every item held before is still held under its key, unchanged or
    renamed by a tab update, when the id made for the request is new. *)
Theorem handleRequest_keeps_media (now : Z) (newId : string) (st : State)
    (req : Request) (k : string) (m : MediaItem.t) :
  JS.orElse (req_url req) "/" ≠ "/clear" →
  Map_get newId (mediaList st) = None →
  Map_get k (mediaList st) = Some m →
  ∃ m', Map_get k (mediaList (handleRequest P now newId st req).1) = Some m' ∧
        (m' = m ∨ ∃ tabTitle, m' = renamed tabTitle m).
Proof.
  intros Hpath Hnew Hk.
  destruct (handleRequest_effect now newId st req) as [[_ ->]|Heff];
    [exists m; split; [exact Hk | left; reflexivity]|].
  destruct Heff
    as [ | url file headers cookies referer tabUrl
       | msg url media Hbody Hurl Hh Hu Hex | vid media Hget | tabUrl tabTitle
       | Hclear | messages ];
    simpl; try (exists m; split; [exact Hk | left; reflexivity]).
  - exists m. split; [|left; reflexivity].
    rewrite Map_get_Map_set_ne; [exact Hk|]. intros ->. congruence.
  - clear Hnew. induction (mediaList st) as [|[k' v'] l IH]; simpl in *;
      [discriminate|].
    destruct (String.eqb (MediaItem.tabUrl v') tabUrl) eqn:Htab; simpl;
      destruct (String.eqb k k').
    + injection Hk as <-. exists (renamed tabTitle v').
      split; [reflexivity | right; exists tabTitle; reflexivity].
    + exact (IH Hk).
    + injection Hk as <-. exists v'. split; [reflexivity | left; reflexivity].
    + exact (IH Hk).
  - contradiction.
Qed.

(** X23.  [cleanHeaders] only removes: every header it returns is a header
    it was given, with its value, and cleaning what is clean changes
    nothing. *)
Theorem cleanHeaders_idempotent (h : gmap string string) :
  cleanHeaders (Some h) ⊆ h ∧
  cleanHeaders (Some (cleanHeaders (Some h))) = cleanHeaders (Some h).
Proof.
  unfold cleanHeaders. split; [apply map_filter_subseteq|].
  rewrite map_filter_filter. apply map_filter_ext. intros k v _. tauto.
Qed.

End Ingestion.

(* ===================================================================== *)
(** ** The properties above on the samples *)
(* ===================================================================== *)

(** X1 at a file written in mid-download. *)
Lemma loadState_recovers_witness :
  DownloadItem.status (Lifecycle.recovered Examples.runningItem) ≠ downloading.
Proof.
  apply (loadState_recovers MoreExamples.crashedFile "d1"
           (Lifecycle.recovered Examples.runningItem)).
  vm_compute. reflexivity.
Defined.

(** X2 at the download of 100 bytes, paused after its response came: a
    chunk that still arrives is dropped. *)
Lemma pauseDownload_halts_witness :
  Engine.onData "d1" 0 [Byte.x5a] (Lifecycle.pauseDownload "d1" Examples.st2).1.1
  = (Lifecycle.pauseDownload "d1" Examples.st2).1.1.
Proof.
  destruct (Engine.downloads Examples.st2 !! "d1") as [item|] eqn:Hitem;
    [|vm_compute in Hitem; discriminate Hitem].
  destruct (pauseDownload_halts "d1" Examples.st2 item Hitem)
    as (item' & _ & _ & _ & _ & _ & Hdata).
  vm_compute in Hitem. injection Hitem as <-.
  eapply (Hdata 0%nat); [reflexivity | vm_compute; reflexivity |].
  vm_compute. eexists. reflexivity.
Defined.

(** X3 at the paused download: 170 bytes before, 170 bytes after. *)
Lemma resumeDownload_keeps_bytes_witness :
  ∃ item',
    Engine.downloads
      (Lifecycle.resumeDownload Sample.platform 1000 Examples.sampleIds "d2"
         MoreExamples.stPaused).1 !! "d2" = Some item' ∧
    DownloadItem.status item' = downloading ∧
    DownloadItem.downloaded item' = 170.
Proof.
  destruct (resumeDownload_keeps_bytes Sample.platform 1000 Examples.sampleIds "d2"
              MoreExamples.stPaused MoreExamples.pausedItem) as [_ H];
    [vm_compute; reflexivity|].
  destruct H as (item' & Hl & Hs & _ & Hd & _);
    [left; reflexivity | discriminate|].
  exists item'. split; [exact Hl|]. split; [exact Hs|]. rewrite Hd. reflexivity.
Defined.

(** X5 at the paused download: its second and third segment are asked
    for, the first, finished, is not. *)
Lemma startDownload_requests_witness :
  ∃ requests,
    (Engine.startDownload Sample.platform 1000 Examples.sampleIds "d2"
       MoreExamples.stPaused).2 = Engine.Pending requests ∧
    Engine.req_segment <$> requests = [1; 2]%nat.
Proof.
  destruct (startDownload_requests Sample.platform 1000 Examples.sampleIds "d2"
              MoreExamples.stPaused MoreExamples.pausedItem) as [H _];
    [vm_compute; reflexivity | discriminate|].
  destruct (H MoreExamples.gUrl) as (requests & Hp & Hsegs & _);
    [vm_compute; reflexivity|].
  exists requests. split; [exact Hp|]. rewrite Hsegs. vm_compute. reflexivity.
Defined.


(** X7 at the download with a failed segment: it is failed. *)
Lemma onWorkersSettled_outcome_witness :
  ∃ st' events item',
    Lifecycle.onWorkersSettled "no segment" "2026-01-02T00:00:00.000Z" None "d2"
      MoreExamples.stBroken = Some (st', events) ∧
    Engine.downloads st' !! "d2" = Some item' ∧
    DownloadItem.status item' = failed.
Proof.
  destruct (onWorkersSettled_outcome "no segment" "2026-01-02T00:00:00.000Z" None "d2"
              MoreExamples.stBroken MoreExamples.brokenItem)
    as (st' & events & item' & Hs & Hl & _ & _ & _ & _ & Hfail & _);
    [vm_compute; reflexivity|].
  exists st', events, item'. split; [exact Hs|]. split; [exact Hl|].
  apply Hfail; reflexivity.
Defined.


(** X13 at the two queues, when a download of the first is moved to the
    second. *)
Lemma run_keeps_exclusive_witness :
  QueueManager.exclusive
    (QueueManager.run (QueueManager.AddToQueue "q2" [ "b"; "e" ]) MoreExamples.twoQueues).
Proof.
  apply run_keeps_exclusive.
  - split; apply (bool_decide_unpack _); vm_compute; exact I.
  - intros id updates H. discriminate H.
Defined.

(** X15 at the first queue with one download active: one more is
    handed out. *)
Lemma getNextDownloadIds_bounded_witness :
  Z.of_nat
    (List.length
       (Queue.getNextDownloadIds {[ "q1" := MoreExamples.dayQueue ]}
          Examples.friday2330 "q1" 1)) + 1 <= 2.
Proof.
  apply (getNextDownloadIds_bounded {[ "q1" := MoreExamples.dayQueue ]}
           Examples.friday2330 "q1" 1 MoreExamples.dayQueue).
  vm_compute. reflexivity.
Defined.

(** X17 at a report that carries a credential. *)
Lemma handleRequest_keeps_clean_witness :
  MediaStore.clean
    (Monitor.handleRequest Sample.platform 3000 "m3" Examples.emptyMonitor
       MoreExamples.filmRequest).1.
Proof.
  apply handleRequest_keeps_clean. split; constructor.
Defined.

(** X21 at a third ranged request of the same YouTube stream. *)
Lemma handleRequest_keeps_distinct_witness :
  NoDup
    (MediaStore.urls
       (Monitor.handleRequest Sample.platform 3000 "m3" (Examples.afterTwo "video/mp4")
          {| Monitor.req_method := "POST";
             Monitor.req_url := Some "/media";
             Monitor.req_body :=
               Monitor.JsonMessage (Examples.chunk "131072-196607" "video/mp4") |}).1).
Proof.
  apply handleRequest_keeps_distinct.
  - apply (bool_decide_unpack _). vm_compute. exact I.
  - intros msg url Hbody Hurl. simpl in Hbody. injection Hbody as <-.
    vm_compute in Hurl. injection Hurl as <-. vm_compute. reflexivity.
Defined.

(** X22 at the list that holds the stream, when a film is reported. *)
Lemma handleRequest_keeps_media_witness :
  ∃ m',
    Monitor.Map_get "m1"
      (Monitor.mediaList
         (Monitor.handleRequest Sample.platform 3000 "m3" (Examples.afterTwo "video/mp4")
            MoreExamples.filmRequest).1) = Some m'.
Proof.
  destruct (Monitor.Map_get "m1" (Monitor.mediaList (Examples.afterTwo "video/mp4")))
    as [m|] eqn:Hm; [|vm_compute in Hm; discriminate Hm].
  destruct (handleRequest_keeps_media Sample.platform 3000 "m3"
              (Examples.afterTwo "video/mp4") MoreExamples.filmRequest "m1" m)
    as (m' & Hm' & _).
  - vm_compute. discriminate.
  - vm_compute. reflexivity.
  - exact Hm.
  - exists m'. exact Hm'.
Defined.

(** X9 at the paused download, when its workers settle. *)
Lemma halted_never_failed_witness :
  ∃ r item',
    Lifecycle.onWorkersSettled "no segment" "2026-01-02T00:00:00.000Z" None "d2"
      MoreExamples.stPaused = Some r ∧
    Engine.downloads r.1 !! "d2" = Some item' ∧
    DownloadItem.status item' ≠ failed.
Proof.
  destruct (Lifecycle.onWorkersSettled "no segment" "2026-01-02T00:00:00.000Z" None "d2"
              MoreExamples.stPaused) as [r|] eqn:Hr;
    [|vm_compute in Hr; discriminate Hr].
  destruct (halted_never_failed "no segment" "2026-01-02T00:00:00.000Z" None "d2"
              MoreExamples.stPaused MoreExamples.pausedItem r)
    as (item' & Hl & Hs & _).
  - vm_compute. reflexivity.
  - reflexivity.
  - left. exact Hr.
  - exists r, item'. split; [reflexivity|]. split; [exact Hl | exact Hs].
Defined.

(** X10 at the failed download, running again, paused and resumed: its
    second segment, 60 of 100 bytes in, is asked for from byte 160. *)
Lemma pause_resume_continues_witness :
  ∃ requests req,
    (Lifecycle.resumeDownload Sample.platform 2000 Examples.sampleIds "d2"
       (Lifecycle.pauseDownload "d2" MoreExamples.stBroken).1.1).2
    = Engine.Pending requests ∧
    req ∈ requests ∧
    Engine.req_segment req = 1%nat ∧
    Engine.req_headers req !! "Range" = Some "bytes=160-199".
Proof.
  destruct (pause_resume_continues Sample.platform 2000 Examples.sampleIds "d2"
              MoreExamples.stBroken MoreExamples.brokenItem MoreExamples.gUrl 1
              (DownloadSegment.mk "b" 100 100 60 Engine.Failed 0))
    as (requests & req & Hp & Hin & Hi & Hrange);
    [vm_compute; reflexivity | vm_compute; reflexivity | reflexivity | reflexivity
    | discriminate | reflexivity | simpl; lia | simpl; lia | simpl; lia | simpl; lia |].
  exists requests, req. split; [exact Hp|]. split; [exact Hin|]. split; [exact Hi|].
  rewrite Hrange. vm_compute. reflexivity.
Defined.

(** X11 at a server that states a megabyte. *)
Lemma probeResponse_reads_size_witness :
  Engine.probeResponse Sample.platform "http://host/m.bin" 200 MoreExamples.sizedHeaders
  = Engine.ProbeResolved
      {| Engine.probe_fileSize := Some 1000000;
         Engine.probe_resumable := true;
         Engine.probe_finalUrl := "http://host/m.bin" |}.
Proof.
  rewrite (probeResponse_reads_size Sample.platform "http://host/m.bin" 200
             MoreExamples.sizedHeaders 1000000%N);
    [reflexivity | reflexivity | vm_compute; reflexivity | vm_compute; reflexivity].
Defined.

(** X20 at a name with a slash: the underscore that replaces it is not
    reserved. *)
Lemma sanitizeFileName_safe_witness :
  "_"%char ∉ MediaStore.reserved.
Proof.
  apply (sanitizeFileName_safe "a/b").
  apply (bool_decide_unpack _). vm_compute. exact I.
Defined.

(** X24 at the download added with credentials, of unknown size: one
    request, with the caller's headers and no [Range]. *)
Lemma startDownload_single_stream_witness :
  ∃ req,
    (Engine.startDownload Sample.platform 1000 Examples.sampleIds "d3" Examples.stAuth).2
    = Engine.Pending [req] ∧
    Engine.req_headers req !! "Range" = None.
Proof.
  destruct (startDownload_single_stream Sample.platform 1000 Examples.sampleIds "d3"
              Examples.stAuth Examples.authItem
              (URL.mk "http:" "host" "" "/private.bin" "" ""))
    as (item' & req & _ & _ & Hp & _ & _ & Hh);
    [vm_compute; reflexivity | discriminate | reflexivity | left; vm_compute; discriminate
    | vm_compute; reflexivity |].
  exists req. split; [exact Hp|]. rewrite Hh. vm_compute. reflexivity.
Defined.
